(** * Virtual Include: the include-resolution and region-synchronisation engine

    A shallow embedding of [src/document-processor.ts] (DocumentProcessor)
    and [src/language-service.ts] (LanguageService) of the
    vscode-virtual-include extension, with the properties of its
    specification stated and settled over that embedding.

    Conventions of the embedding:
    - a JavaScript string is a [string] of code units below 256;
    - a regular expression is kept in parsed form ([regex], [gregex]) and run
      by a backtracking matcher with JavaScript's priorities; a pattern text
      of the configuration is taken in that form too, so that the
      configurations covered are those whose pattern texts [RegExp] accepts
      and whose capture groups are parts of a top-level sequence;
    - the host editor, the file system and Node's [path] module are
      capabilities: the document is its text, an edit acts on that text the
      way [WorkspaceEdit.replace]/[insert] do, and the path functions are
      fields of an environment record;
    - exceptions are explicit: a function that can throw returns [Exc]. *)

From Stdlib Require Import ZArith Lia Ascii.
From stdpp Require Import gmap strings list pretty.

Local Open Scope Z_scope.
Local Open Scope nat_scope.

(** ** Text primitives *)

Module Text.

Definition newline : ascii := "010"%char.

(** JavaScript [WhiteSpace] and [LineTerminator] code units below 256:
    what [\s] matches and what [String.prototype.trim] strips. *)
Definition is_ws (c : ascii) : bool :=
  match c with
  | "009" | "010" | "011" | "012" | "013" | " " | "160" => true
  | _ => false
  end%char.

(** What [.] matches: anything but a line terminator. *)
Definition is_dot (c : ascii) : bool :=
  match c with
  | "010" | "013" => false
  | _ => true
  end%char.

Fixpoint trimStart (s : string) : string :=
  match s with
  | String c s' => if is_ws c then trimStart s' else s
  | EmptyString => EmptyString
  end.

Fixpoint trimEnd (s : string) : string :=
  match s with
  | EmptyString => EmptyString
  | String c s' =>
      match trimEnd s' with
      | EmptyString => if is_ws c then EmptyString else String c EmptyString
      | t => String c t
      end
  end.

(** [s.trim()] *)
Definition trim (s : string) : string := trimEnd (trimStart s).

(** [s.split("\n")]: never empty. *)
Fixpoint split (s : string) : list string :=
  match s with
  | EmptyString => [EmptyString]
  | String c s' =>
      if Ascii.eqb c newline then EmptyString :: split s'
      else match split s' with
           | l :: ls => String c l :: ls
           | [] => [String c EmptyString]
           end
  end.

(** [ls.join("\n")] *)
Fixpoint join (ls : list string) : string :=
  match ls with
  | [] => EmptyString
  | [l] => l
  | l :: ls' => l +:+ String newline (join ls')
  end.

(** The first group of the match of a line against [^] followed by a
    greedy run of white space: the leading white space of the line. *)
Fixpoint indentOf (s : string) : string :=
  match s with
  | String c s' => if is_ws c then String c (indentOf s') else EmptyString
  | EmptyString => EmptyString
  end.

Fixpoint drop (n : nat) (s : string) : string :=
  match n, s with
  | S n', String _ s' => drop n' s'
  | _, _ => s
  end.

Fixpoint take (n : nat) (s : string) : string :=
  match n, s with
  | S n', String c s' => String c (take n' s')
  | _, _ => EmptyString
  end.

(** [s.substring(a, b)] for [a <= b]. *)
Definition slice (a b : nat) (s : string) : string := take (b - a) (drop a s).

Definition isEmpty (s : string) : bool :=
  match s with EmptyString => true | _ => false end.

(** [s.toLowerCase()] on code units below 256. *)
Definition lowerChar (c : ascii) : ascii :=
  let n := N_of_ascii c in
  if ((65 <=? n) && (n <=? 90))%N then ascii_of_N (n + 32)
  else if ((192 <=? n) && (n <=? 222) && negb (n =? 215))%N then ascii_of_N (n + 32)
  else c.

Fixpoint toLowerCase (s : string) : string :=
  match s with
  | EmptyString => EmptyString
  | String c s' => String (lowerChar c) (toLowerCase s')
  end.

(** [s.lastIndexOf(".")], [None] for -1. *)
Fixpoint lastIndexOfDot (s : string) : option nat :=
  match s with
  | EmptyString => None
  | String c s' =>
      match lastIndexOfDot s' with
      | Some i => Some (S i)
      | None => if Ascii.eqb c "."%char then Some 0 else None
      end
  end.

(** [s.startsWith(t)] *)
Fixpoint startsWith (t s : string) : bool :=
  match t, s with
  | EmptyString, _ => true
  | String a t', String b s' => Ascii.eqb a b && startsWith t' s'
  | String _ _, EmptyString => false
  end.

(** No line feed in the string. *)
Fixpoint singleLine (s : string) : bool :=
  match s with
  | EmptyString => true
  | String c s' => negb (Ascii.eqb c newline) && singleLine s'
  end.

End Text.

(** ** Regular expressions *)

Module Regex.
Import Text.

Inductive regex : Type :=
| REmpty
| RBol                                 (* ^ *)
| REol                                 (* $ *)
| RChar (p : ascii -> bool)            (* one code unit of a class *)
| RSeq (r1 r2 : regex)
| RAlt (r1 r2 : regex)
| RStar (lazy : bool) (r : regex).     (* r* and r*? *)

Definition RPlus (lazy : bool) (r : regex) : regex := RSeq r (RStar lazy r).

Fixpoint RLit (s : string) : regex :=
  match s with
  | EmptyString => REmpty
  | String c s' => RSeq (RChar (Ascii.eqb c)) (RLit s')
  end.

Definition ws : regex := RChar is_ws.                               (* \s *)
Definition nonws : regex := RChar (fun c => negb (is_ws c)).        (* \S *)
Definition dot : regex := RChar is_dot.                             (* . *)
Definition is_quote (c : ascii) : bool :=
  Ascii.eqb c "034"%char || Ascii.eqb c "'"%char.
Definition quote : regex := RChar is_quote.           (* a double or single quote *)
Definition nonquote : regex := RChar (fun c => negb (is_quote c)).  (* any other *)

(** The iterations of a star whose body is matched by [body]: after the
    iterations, the rest goes to [k]. An iteration must consume input, so
    the length of the subject bounds their number ([fuel]). A greedy star
    tries one more iteration first, a lazy one tries [k] first. *)
Fixpoint starLoop {A : Type}
    (body : nat -> string -> (nat -> string -> option A) -> option A)
    (lazy : bool) (k : nat -> string -> option A)
    (fuel : nat) (pos : nat) (s : string) {struct fuel} : option A :=
  let more :=
    match fuel with
    | O => None
    | S fuel' =>
        body pos s (fun pos' s' =>
          if Nat.ltb (String.length s') (String.length s)
          then starLoop body lazy k fuel' pos' s' else None)
    end in
  if lazy
  then match k pos s with Some x => Some x | None => more end
  else match more with Some x => Some x | None => k pos s end.

(** The backtracking matcher, in continuation-passing style: [rmatch r pos
    s k] matches [r] against a prefix of [s], which starts at offset [pos]
    of the subject, and hands the rest to [k]; when [k] refuses, the next
    alternative is tried, in the order of JavaScript. *)
Fixpoint rmatch {A : Type} (r : regex) (pos : nat) (s : string)
    (k : nat -> string -> option A) {struct r} : option A :=
  match r with
  | REmpty => k pos s
  | RBol => if Nat.eqb pos 0 then k pos s else None
  | REol => if isEmpty s then k pos s else None
  | RChar p =>
      match s with
      | String c s' => if p c then k (S pos) s' else None
      | EmptyString => None
      end
  | RSeq r1 r2 => rmatch r1 pos s (fun pos' s' => rmatch r2 pos' s' k)
  | RAlt r1 r2 =>
      match rmatch r1 pos s k with
      | Some x => Some x
      | None => rmatch r2 pos s k
      end
  | RStar lazy r1 => starLoop (rmatch r1) lazy k (String.length s) pos s
  end.

(** A regular expression with top-level capture groups, as a sequence of
    segments: [(a)b(c)] is [[Grp a; Plain b; Grp c]]. *)
Inductive seg : Type := Plain (r : regex) | Grp (r : regex).
Definition gregex : Type := list seg.

(** Matching the segments in sequence; the result is the end offset and
    the spans of the groups, in order. *)
Fixpoint smatch (g : gregex) (pos : nat) (s : string)
    (acc : list (nat * nat)) : option (nat * list (nat * nat)) :=
  match g with
  | [] => Some (pos, acc)
  | Plain r :: g' => rmatch r pos s (fun pos' s' => smatch g' pos' s' acc)
  | Grp r :: g' =>
      rmatch r pos s (fun pos' s' => smatch g' pos' s' (acc ++ [(pos, pos')]))
  end.

Record rmatchResult : Type := {
  m_start : nat;                 (* offset of the match *)
  m_end : nat;                   (* offset after the match *)
  m_groups : list (nat * nat)    (* spans of groups 1, 2, ... *)
}.

(** Leftmost match from offset [pos] on, the remaining subject being [s]. *)
Fixpoint search (g : gregex) (pos : nat) (s : string) : option rmatchResult :=
  match smatch g pos s [] with
  | Some (e, gs) => Some {| m_start := pos; m_end := e; m_groups := gs |}
  | None =>
      match s with
      | EmptyString => None
      | String _ s' => search g (S pos) s'
      end
  end.

(** [new RegExp(g).exec(s)] *)
Definition exec (g : gregex) (s : string) : option rmatchResult := search g 0 s.

(** [new RegExp(g).test(s)] *)
Definition test (g : gregex) (s : string) : bool :=
  match exec g s with Some _ => true | None => false end.

(** [m[n]] for a match [m] of subject [s]: [None] is [undefined]. *)
Definition group (s : string) (m : rmatchResult) (n : nat) : option string :=
  match m_groups m !! (n - 1) with
  | Some (a, b) => Some (slice a b s)
  | None => None
  end.

(** What a regular expression can match: [matches r pos w rest] when [r],
    at offset [pos] of the subject and with [w +:+ rest] ahead, can match
    exactly [w]. *)
Inductive matches : regex -> nat -> string -> string -> Prop :=
| MEmpty pos rest : matches REmpty pos EmptyString rest
| MBol rest : matches RBol 0 EmptyString rest
| MEol pos : matches REol pos EmptyString EmptyString
| MChar p pos c rest : p c = true -> matches (RChar p) pos (String c EmptyString) rest
| MSeq r1 r2 pos w1 w2 rest :
    matches r1 pos w1 (w2 +:+ rest) ->
    matches r2 (pos + String.length w1) w2 rest ->
    matches (RSeq r1 r2) pos (w1 +:+ w2) rest
| MAltL r1 r2 pos w rest : matches r1 pos w rest -> matches (RAlt r1 r2) pos w rest
| MAltR r1 r2 pos w rest : matches r2 pos w rest -> matches (RAlt r1 r2) pos w rest
| MStarStop lazy r pos rest : matches (RStar lazy r) pos EmptyString rest
| MStarStep lazy r pos w1 w2 rest :
    matches r pos w1 (w2 +:+ rest) ->
    matches (RStar lazy r) (pos + String.length w1) w2 rest ->
    matches (RStar lazy r) pos (w1 +:+ w2) rest.

(** A matcher that only succeeds on what [r] can match. *)
Definition sound {A : Type} (r : regex)
    (body : nat -> string -> (nat -> string -> option A) -> option A) : Prop :=
  forall pos s k x,
    body pos s k = Some x ->
    exists w rest,
      s = w +:+ rest /\ matches r pos w rest
      /\ k (pos + String.length w) rest = Some x.

End Regex.

(** ** Exceptions *)

Inductive Exc (A : Type) : Type :=
| Ret (a : A)
| Throw (e : string).
Arguments Ret {A} a.
Arguments Throw {A} e.

Definition bindExc {A B : Type} (m : Exc A) (f : A -> Exc B) : Exc B :=
  match m with
  | Ret a => f a
  | Throw e => Throw e
  end.

Notation "'let!' x ':=' m 'in' k" := (bindExc m (fun x => k))
  (at level 10, x name, m at level 100, k at level 200).

(** ** The language service ([src/language-service.ts]) *)

Module LanguageService.
Import Text Regex.

Record CommentStyle : Type := {
  cs_start : string;
  cs_end : string
}.

Record LanguageSettings : Type := {
  includeDirectivePattern : gregex;
  startMarkerTemplate : string;
  endMarkerTemplate : string
}.

(** An entry of the user's [languageSettings] table: each field may be
    absent. *)
Record LanguageSettingsEntry : Type := {
  e_includeDirectivePattern : option gregex;
  e_startMarkerTemplate : option string;
  e_endMarkerTemplate : option string
}.

Record SectionOverride : Type := {
  fileType : string;
  pattern : gregex;
  commentStyle : string;
  continueUntil : gregex
}.

(** The [virtualInclude] configuration section, as the service reads it. *)
Record Config : Type := {
  defaultCommentStyle : string;                       (* default "#" *)
  detectFromExtension : bool;                         (* default true *)
  languageOverrides : list SectionOverride;           (* default [] *)
  languageSettings : gmap string LanguageSettingsEntry (* default {} *)
}.

(** What the service reads of a [vscode.TextDocument]; [text] uses line
    feeds as line ends, so that [lineAt(i).text] is [split text !! i]. *)
Record TextDocument : Type := {
  uri : string;
  fsPath : string;
  languageId : string;
  text : string;
  isClosed : bool
}.

Definition lookupTable {V : Type} (t : list (string * V)) (key : string) : option V :=
  snd <$> List.find (fun e => String.eqb (fst e) key) t.

Definition line_style (start : string) : CommentStyle :=
  {| cs_start := start; cs_end := EmptyString |}.

Definition COMMENT_STYLES : list (string * CommentStyle) :=
  [ ("javascript", line_style "//"); ("typescript", line_style "//");
    ("python", line_style "#"); ("ruby", line_style "#");
    ("powershell", line_style "#"); ("shellscript", line_style "#");
    ("csharp", line_style "//"); ("java", line_style "//");
    ("c", line_style "//"); ("cpp", line_style "//");
    ("go", line_style "//"); ("rust", line_style "//");
    ("php", line_style "//"); ("perl", line_style "#");
    ("lua", line_style "--"); ("sql", line_style "--");
    ("yaml", line_style "#");
    ("html", {| cs_start := "<!--"; cs_end := "-->" |});
    ("xml", {| cs_start := "<!--"; cs_end := "-->" |});
    ("css", {| cs_start := "/*"; cs_end := "*/" |}) ].

(** [COMMENT_STYLES] is an object literal, read with
    [COMMENT_STYLES[languageId]]: besides its own keys, the lookup finds the
    members that every object inherits from [Object.prototype]. *)
Definition OBJECT_PROTOTYPE_MEMBERS : list string :=
  [ "constructor"; "__defineGetter__"; "__defineSetter__"; "hasOwnProperty";
    "__lookupGetter__"; "__lookupSetter__"; "isPrototypeOf";
    "propertyIsEnumerable"; "toString"; "valueOf"; "__proto__";
    "toLocaleString" ].

Definition inheritedMember (key : string) : bool :=
  existsb (String.eqb key) OBJECT_PROTOTYPE_MEMBERS.

(** What [getCommentStyle] returns: a comment style, or the inherited member
    of that name, a function or the prototype itself. Such a member is
    truthy, so that the default after [||] is not taken, and it has neither
    [start] nor [end]. *)
Inductive StyleValue : Type :=
| Style (style : CommentStyle)
| InheritedMember (name : string).

Definition getCommentStyle (cfg : Config) (languageId : string) : StyleValue :=
  match lookupTable COMMENT_STYLES languageId with
  | Some style => Style style
  | None =>
      if inheritedMember languageId then InheritedMember languageId
      else Style {| cs_start := defaultCommentStyle cfg; cs_end := EmptyString |}
  end.

Definition keyword : string := "virtualInclude".

(** [virtualInclude], white space, an opening quote: the part of a
    directive pattern between the comment token and the path group. *)
Definition directiveHead : regex :=
  RSeq (RLit keyword) (RSeq (RPlus false ws) quote).

(** The pattern [virtualInclude\s+Q(.+?)Q\s+with\s+Q(N+)Q], where [Q] is the
    class of the two quotes and [N] its complement. *)
Definition COMMENT_OVERRIDE_REGEX : gregex :=
  [ Plain directiveHead;
    Grp (RPlus true dot);
    Plain (RSeq quote (RSeq (RPlus false ws)
            (RSeq (RLit "with") (RSeq (RPlus false ws) quote))));
    Grp (RPlus false nonquote);
    Plain quote ].

Definition EXTENSION_TO_LANGUAGE : list (string * string) :=
  [ (".js", "javascript"); (".ts", "typescript"); (".py", "python");
    (".rb", "ruby"); (".ps1", "powershell"); (".sh", "shellscript");
    (".cs", "csharp"); (".java", "java"); (".c", "c"); (".cpp", "cpp");
    (".go", "go"); (".rs", "rust"); (".php", "php"); (".pl", "perl");
    (".lua", "lua"); (".sql", "sql"); (".yaml", "yaml"); (".yml", "yaml");
    (".html", "html"); (".xml", "xml"); (".css", "css") ].

Definition getLanguageFromExtension (cfg : Config) (filePath : string)
    : option string :=
  if negb (detectFromExtension cfg) then None
  else match lastIndexOfDot filePath with
       | None => None
       | Some lastDotIndex =>
           let extension := toLowerCase (drop lastDotIndex filePath) in
           lookupTable EXTENSION_TO_LANGUAGE extension
       end.

Definition getCommentStyleOverride (line : string) : option string :=
  match exec COMMENT_OVERRIDE_REGEX line with
  | Some m => group line m 2
  | None => None
  end.

(** The patterns of the built-in section overrides:
    [<script] then any run of characters other than [>] then [>] and white
    space; [</script>]; [template:] white space [>-]; and a line that starts
    with a character that is not white space. *)
Definition BUILT_IN_SECTION_OVERRIDES : list SectionOverride :=
  [ {| fileType := "html";
       pattern := [Plain (RSeq (RLit "<script")
                    (RSeq (RStar false (RChar (fun c => negb (Ascii.eqb c ">"%char))))
                    (RSeq (RLit ">") (RStar false ws))))];
       commentStyle := "//";
       continueUntil := [Plain (RLit "</script>")] |};
    {| fileType := "yaml";
       pattern := [Plain (RSeq (RLit "template:")
                    (RSeq (RStar false ws) (RLit ">-")))];
       commentStyle := "--";
       continueUntil := [Plain (RSeq RBol nonws)] |} ].

(** The backward scan of [getSectionOverride], at line [i] of [lines]:
    the first relevant override whose pattern matches line [i] decides;
    the section is left when a line after [i], up to [lineNumber], matches
    its [continueUntil]. *)
Fixpoint sectionScan (relevantOverrides : list SectionOverride)
    (lines : list string) (lineNumber : nat) (i : nat) : option string :=
  let line := nth i lines EmptyString in
  match List.find (fun o => test (pattern o) line) relevantOverrides with
  | Some override =>
      if existsb (fun checkLine => test (continueUntil override) checkLine)
           (firstn (lineNumber - i) (skipn (S i) lines))
      then None
      else Some (commentStyle override)
  | None =>
      match i with
      | O => None
      | S i' => sectionScan relevantOverrides lines lineNumber i'
      end
  end.

(** [document.lineAt] throws outside the document; the scan starts at
    [lineNumber] and only reads lines up to it. *)
Definition getSectionOverride (cfg : Config) (document : TextDocument)
    (lineNumber : nat) : Exc (option string) :=
  let overrides := BUILT_IN_SECTION_OVERRIDES ++ languageOverrides cfg in
  match overrides with
  | [] => Ret None
  | _ =>
    let relevantOverrides :=
      List.filter (fun o => String.eqb (fileType o) (languageId document)) overrides in
    match relevantOverrides with
    | [] => Ret None
    | _ =>
      let lines := split (text document) in
      if Nat.ltb lineNumber (length lines)
      then Ret (sectionScan relevantOverrides lines lineNumber lineNumber)
      else Throw "Illegal value for `line`"
    end
  end.

(** The pattern [T\s*virtualInclude\s+Q(.+?)Q] for the comment token [T],
    taken literally, and the two marker templates. *)
Definition createDefaultSettings (style : CommentStyle) : LanguageSettings :=
  {| includeDirectivePattern :=
       [ Plain (RSeq (RLit (cs_start style))
                 (RSeq (RStar false ws) directiveHead));
         Grp (RPlus true dot);
         Plain quote ];
     startMarkerTemplate :=
       cs_start style +:+ " virtualIncludeStart - DO NOT EDIT CONTENT BELOW "
         +:+ cs_end style;
     endMarkerTemplate :=
       cs_start style +:+ " virtualIncludeEnd - DO NOT EDIT CONTENT ABOVE "
         +:+ cs_end style |}.

(** The exception of [escapeRegExp(undefined)]. *)
Definition undefinedReplace : string :=
  "TypeError: Cannot read properties of undefined (reading 'replace')".

(** [{...defaultSettings, ...langSettings}] *)
Definition mergeSettings (defaultSettings : LanguageSettings)
    (langSettings : option LanguageSettingsEntry) : LanguageSettings :=
  match langSettings with
  | None => defaultSettings
  | Some langSettings =>
      {| includeDirectivePattern :=
           default (includeDirectivePattern defaultSettings)
                   (e_includeDirectivePattern langSettings);
         startMarkerTemplate :=
           default (startMarkerTemplate defaultSettings)
                   (e_startMarkerTemplate langSettings);
         endMarkerTemplate :=
           default (endMarkerTemplate defaultSettings)
                   (e_endMarkerTemplate langSettings) |}
  end.

(** For a comment style that is an inherited member, [commentStyle.start]
    is [undefined], and [createDefaultSettings] throws when it escapes
    it. *)
Definition getLanguageSettings (cfg : Config) (languageId : string)
    : Exc LanguageSettings :=
  match getCommentStyle cfg languageId with
  | InheritedMember _ => Throw undefinedReplace
  | Style style =>
      let defaultSettings := createDefaultSettings style in
      Ret (mergeSettings defaultSettings (languageSettings cfg !! languageId))
  end.

(** [includedFilePath] is optional, and an empty path counts as absent. *)
Definition getContextAwareSettings (cfg : Config) (document : TextDocument)
    (lineNumber : nat) (line : string) (includedFilePath : option string)
    : Exc LanguageSettings :=
  match getCommentStyleOverride line with
  | Some commentStyleOverride =>
      Ret (createDefaultSettings (line_style commentStyleOverride))
  | None =>
      let! sectionOverride := getSectionOverride cfg document lineNumber in
      match sectionOverride with
      | Some style => Ret (createDefaultSettings (line_style style))
      | None =>
          let detectedLanguage :=
            match includedFilePath with
            | Some p => if isEmpty p then None else getLanguageFromExtension cfg p
            | None => None
            end in
          match detectedLanguage with
          | Some lang => getLanguageSettings cfg lang
          | None => getLanguageSettings cfg (languageId document)
          end
      end
  end.

(** The language detected for the included file: none without a path, for
    an empty path, or when detection is switched off. *)
Definition detectedLanguage (cfg : Config) (includedFilePath : option string)
    : option string :=
  match includedFilePath with
  | Some p => if isEmpty p then None else getLanguageFromExtension cfg p
  | None => None
  end.

End LanguageService.

(** ** The document processor ([src/document-processor.ts]) *)

Module DocumentProcessor.
Import Text Regex LanguageService.

(** Node's [process], [path] and [fs], as far as the processor uses them.
    [fs_readFileSync] throws when the file cannot be read. *)
Record Env : Type := {
  win32 : bool;
  path_isAbsolute : string -> bool;
  path_resolve : string -> string -> string;
  path_dirname : string -> string;
  path_normalize : string -> string;
  fs_existsSync : string -> bool;
  fs_readFileSync : string -> Exc string
}.

(** The shared state of the [VirtualIncludeManager], with the messages the
    UI handler was asked to show. An include map ([Map<number, string>])
    is the list of its entries in insertion order. A watcher is the path
    it watches. *)
Record Manager : Type := {
  documentIncludes : gmap string (list (nat * string));
  documentWatchers : gmap string (list string);
  sourceToDocuments : gmap string (gset string);
  isPerformingUpdate : bool;
  warningMessages : list string;
  errorMessages : list string
}.

Definition setDocumentIncludes (key : string) (includeMap : list (nat * string))
    (m : Manager) : Manager :=
  {| documentIncludes := <[key := includeMap]> (documentIncludes m);
     documentWatchers := documentWatchers m;
     sourceToDocuments := sourceToDocuments m;
     isPerformingUpdate := isPerformingUpdate m;
     warningMessages := warningMessages m;
     errorMessages := errorMessages m |}.

Definition deleteDocumentWatchers (key : string) (m : Manager) : Manager :=
  {| documentIncludes := documentIncludes m;
     documentWatchers := delete key (documentWatchers m);
     sourceToDocuments := sourceToDocuments m;
     isPerformingUpdate := isPerformingUpdate m;
     warningMessages := warningMessages m;
     errorMessages := errorMessages m |}.

Definition setDocumentWatchers (key : string) (watchers : list string)
    (m : Manager) : Manager :=
  {| documentIncludes := documentIncludes m;
     documentWatchers := <[key := watchers]> (documentWatchers m);
     sourceToDocuments := sourceToDocuments m;
     isPerformingUpdate := isPerformingUpdate m;
     warningMessages := warningMessages m;
     errorMessages := errorMessages m |}.

(** [if (!map.has(p)) map.set(p, new Set()); map.get(p).add(key)] *)
Definition addSourceToDocument (resolvedPath key : string) (m : Manager) : Manager :=
  {| documentIncludes := documentIncludes m;
     documentWatchers := documentWatchers m;
     sourceToDocuments :=
       <[resolvedPath := {[key]} ∪ default ∅ (sourceToDocuments m !! resolvedPath)]>
         (sourceToDocuments m);
     isPerformingUpdate := isPerformingUpdate m;
     warningMessages := warningMessages m;
     errorMessages := errorMessages m |}.

Definition setIsPerformingUpdate (value : bool) (m : Manager) : Manager :=
  {| documentIncludes := documentIncludes m;
     documentWatchers := documentWatchers m;
     sourceToDocuments := sourceToDocuments m;
     isPerformingUpdate := value;
     warningMessages := warningMessages m;
     errorMessages := errorMessages m |}.

Definition showWarningMessage (msg : string) (m : Manager) : Manager :=
  {| documentIncludes := documentIncludes m;
     documentWatchers := documentWatchers m;
     sourceToDocuments := sourceToDocuments m;
     isPerformingUpdate := isPerformingUpdate m;
     warningMessages := warningMessages m ++ [msg];
     errorMessages := errorMessages m |}.

Definition showErrorMessage (msg : string) (m : Manager) : Manager :=
  {| documentIncludes := documentIncludes m;
     documentWatchers := documentWatchers m;
     sourceToDocuments := sourceToDocuments m;
     isPerformingUpdate := isPerformingUpdate m;
     warningMessages := warningMessages m;
     errorMessages := errorMessages m ++ [msg] |}.

(** *** The host editor *)

(** The editor handed to the processor: [EditorGone] and [DocumentGone]
    stand for a missing editor and a missing document. *)
Inductive EditorRef : Type :=
| EditorGone
| DocumentGone
| Editor (document : TextDocument).

(** The two edits the processor requests:
    [replace(Range(Position(startLine, 0), Position(endLine, 0)), newText)]
    and [insert(Position(line, character), newText)]. *)
Inductive Edit : Type :=
| EReplace (startLine endLine : nat) (newText : string)
| EInsert (line character : nat) (newText : string).

(** The offset of a position in the text, the position being brought into
    the document first: a line past the end is the end of the text, a
    character past the end of its line is the end of that line. *)
Fixpoint offsetIn (lines : list string) (line character : nat) : nat :=
  match lines, line with
  | [], _ => 0
  | l :: _, O => Nat.min character (String.length l)
  | [l], S _ => String.length l
  | l :: ls, S line' => String.length l + 1 + offsetIn ls line' character
  end.

Definition offsetAt (txt : string) (line character : nat) : nat :=
  offsetIn (split txt) line character.

Definition applyEdit (e : Edit) (txt : string) : string :=
  match e with
  | EReplace startLine endLine newText =>
      take (offsetAt txt startLine 0) txt +:+ newText
        +:+ drop (offsetAt txt endLine 0) txt
  | EInsert line character newText =>
      take (offsetAt txt line character) txt +:+ newText
        +:+ drop (offsetAt txt line character) txt
  end.

Definition withText (document : TextDocument) (txt : string) : TextDocument :=
  {| uri := uri document; fsPath := fsPath document;
     languageId := languageId document; text := txt;
     isClosed := isClosed document |}.

(** *** Paths *)

Definition _resolveIncludePath (env : Env) (document : TextDocument)
    (includePath : string) : string :=
  if path_isAbsolute env includePath then includePath
  else path_resolve env (path_dirname env (fsPath document)) includePath.

Definition _isSelfInclude (env : Env) (document : TextDocument)
    (includePath : string) : bool :=
  let resolvedIncludePath := _resolveIncludePath env document includePath in
  let documentPath := fsPath document in
  let normalizedDocPath := path_normalize env documentPath in
  let normalizedIncludePath := path_normalize env resolvedIncludePath in
  if win32 env
  then String.eqb (toLowerCase normalizedIncludePath) (toLowerCase normalizedDocPath)
  else String.eqb normalizedIncludePath normalizedDocPath.

(** *** Content *)

(** [content.split("\n").map(l => l.length > 0 ? indentation + l : l).join("\n")] *)
Definition indentLine (indentation line : string) : string :=
  if isEmpty line then line else indentation +:+ line.

Definition indentContent (indentation content : string) : string :=
  join (map (indentLine indentation) (split content)).

(** The pattern [(\s*\S+\s+)virtualInclude(\s+Q.+?Q)] of the replacement. *)
Definition NESTED_DIRECTIVE_REGEX : gregex :=
  [ Grp (RSeq (RStar false ws) (RSeq (RPlus false nonws) (RPlus false ws)));
    Plain (RLit keyword);
    Grp (RSeq (RPlus false ws) (RSeq quote (RSeq (RPlus true dot) quote))) ].

Definition inertKeyword : string :=
  "virtualInclude-nested (edit source file to modify)".

(** What the inert spelling adds to the keyword. *)
Definition inertSuffix : string := "-nested (edit source file to modify)".

(** [line.replace(NESTED_DIRECTIVE_REGEX, "$1" + inertKeyword + "$2")] *)
Definition replaceKeyword (line : string) : string :=
  match exec NESTED_DIRECTIVE_REGEX line with
  | Some m =>
      match m_groups m with
      | [(a1, b1); (a2, b2)] =>
          take (m_start m) line +:+ slice a1 b1 line +:+ inertKeyword
            +:+ slice a2 b2 line +:+ drop (m_end m) line
      | _ => line
      end
  | None => line
  end.

Definition neutralizeLine (languageSettings : LanguageSettings) (line : string)
    : string :=
  let startMarkerPattern := trim (startMarkerTemplate languageSettings) in
  let endMarkerPattern := trim (endMarkerTemplate languageSettings) in
  if String.eqb (trim line) startMarkerPattern
     || String.eqb (trim line) endMarkerPattern
  then line
  else if test (includeDirectivePattern languageSettings) line
  then replaceKeyword line
  else line.

Definition _neutralizeNestedIncludes (content : string)
    (languageSettings : LanguageSettings) : string :=
  join (map (neutralizeLine languageSettings) (split content)).

(** *** The scan of [processDocument] *)

Definition markerIs (template line : string) : bool :=
  String.eqb (trim line) (trim template).

(** [for (j = from; j < lines.length; j++) if (p(lines[j])) { found = j; break }],
    [l] being the lines from index [j] on. *)
Fixpoint findFrom (p : string -> bool) (j : nat) (l : list string) : option nat :=
  match l with
  | [] => None
  | x :: l' => if p x then Some j else findFrom p (S j) l'
  end.

(** [lines.slice(a, b)] *)
Definition sliceLines (a b : nat) (lines : list string) : list string :=
  firstn (b - a) (skipn a lines).

(** The four outcomes of the comparison of a directive with the lines that
    follow it. *)
Inductive RegionStatus : Type :=
| UpToDate
| ContentChanged
| EndMarkerMissing
| NotExpanded.

Definition inspectRegion (languageSettings contextAwareSettings : LanguageSettings)
    (lines : list string) (i : nat) (line content : string) : RegionStatus :=
  let nextLineIndex := i + 1 in
  match lines !! nextLineIndex with
  | None => NotExpanded
  | Some nextLine =>
      if markerIs (startMarkerTemplate languageSettings) nextLine
         || markerIs (startMarkerTemplate contextAwareSettings) nextLine
      then
        match findFrom
                (fun l => markerIs (endMarkerTemplate languageSettings) l
                          || markerIs (endMarkerTemplate contextAwareSettings) l)
                (nextLineIndex + 1) (skipn (nextLineIndex + 1) lines) with
        | Some endLine =>
            let currentContent := join (sliceLines (nextLineIndex + 1) endLine lines) in
            let indentation := indentOf line in
            let indentedContent := indentContent indentation content in
            if String.eqb currentContent indentedContent
            then UpToDate else ContentChanged
        | None => EndMarkerMissing
        end
      else NotExpanded
  end.

Definition statusNeedsEdit (s : RegionStatus) : bool :=
  match s with UpToDate => false | _ => true end.

Record ScanState : Type := {
  manager : Manager;
  includeMap : list (nat * string);
  watchers : list string;
  needsEdit : bool
}.

Definition onManager (f : Manager -> Manager) (st : ScanState) : ScanState :=
  {| manager := f (manager st); includeMap := includeMap st;
     watchers := watchers st; needsEdit := needsEdit st |}.

(** [includeMap.set(i, content)]: the map is the one stored under the
    document key in [documentIncludes], so the store sees the entry; line
    [i] is visited once, so the entry is new. *)
Definition setInclude (documentKey : string) (i : nat) (content : string)
    (st : ScanState) : ScanState :=
  let includeMap' := includeMap st ++ [(i, content)] in
  {| manager := setDocumentIncludes documentKey includeMap' (manager st);
     includeMap := includeMap'; watchers := watchers st;
     needsEdit := needsEdit st |}.

(** The body of the inner [try] for a directive that passed the
    self-include check. *)
Definition scanInclude (cfg : Config) (env : Env) (document : TextDocument)
    (languageSettings : LanguageSettings) (lines : list string)
    (i : nat) (line resolvedPath : string) (st : ScanState) : ScanState :=
  if fs_existsSync env resolvedPath then
    match fs_readFileSync env resolvedPath with
    | Throw error =>
        onManager (showErrorMessage ("Error processing include: " +:+ error)) st
    | Ret content =>
        let st1 := setInclude (uri document) i content st in
        let st2 := onManager (addSourceToDocument resolvedPath (uri document)) st1 in
        match getContextAwareSettings cfg document i line (Some resolvedPath) with
        | Throw error =>
            onManager (showErrorMessage ("Error processing include: " +:+ error)) st2
        | Ret contextAwareSettings =>
            let status :=
              inspectRegion languageSettings contextAwareSettings lines i line content in
            {| manager := manager st2; includeMap := includeMap st2;
               watchers := watchers st2 ++ [resolvedPath];
               needsEdit := needsEdit st2 || statusNeedsEdit status |}
        end
    end
  else onManager (showErrorMessage ("File not found: " +:+ resolvedPath)) st.

(** One iteration of the first pass, at line [i]; the second component is
    the exception that leaves the loop, if any. [match[1]] is [undefined]
    for a configured pattern without a group, and resolving it throws. *)
Definition scanLine (cfg : Config) (env : Env) (document : TextDocument)
    (languageSettings : LanguageSettings) (lines : list string)
    (st : ScanState) (i : nat) (line : string) : ScanState * option string :=
  match getContextAwareSettings cfg document i line None with
  | Throw error => (st, Some error)
  | Ret contextAwareSettings =>
      match exec (includeDirectivePattern contextAwareSettings) line with
      | None => (st, None)
      | Some m =>
          let filePath :=
            match exec COMMENT_OVERRIDE_REGEX line with
            | Some overrideMatch => group line overrideMatch 1
            | None => group line m 1
            end in
          match filePath with
          | None => (st, Some "TypeError: the path argument must be of type string")
          | Some filePath =>
              if _isSelfInclude env document filePath
              then (onManager (showWarningMessage
                      ("Cannot include a file in itself: " +:+ filePath)) st, None)
              else
                let resolvedPath := _resolveIncludePath env document filePath in
                (scanInclude cfg env document languageSettings lines
                   i line resolvedPath st, None)
          end
      end
  end.

(** [for (i = from; i < lines.length; i++)], [rest] being the lines from
    index [i] on. *)
Fixpoint scanLoop (cfg : Config) (env : Env) (document : TextDocument)
    (languageSettings : LanguageSettings) (lines : list string)
    (i : nat) (rest : list string) (st : ScanState) : ScanState * option string :=
  match rest with
  | [] => (st, None)
  | line :: rest' =>
      match scanLine cfg env document languageSettings lines st i line with
      | (st', Some error) => (st', Some error)
      | (st', None) =>
          scanLoop cfg env document languageSettings lines (S i) rest' st'
      end
  end.

(** *** The update pass of [updateDocument] *)

(** The pattern [virtualInclude\s+Q(.+?)Q] that extracts the path again. *)
Definition INCLUDE_PATH_REGEX : gregex :=
  [ Plain directiveHead; Grp (RPlus true dot); Plain quote ].

(** The state of the pass: the running offset, the processor's own copy of
    the lines, the text of the document in the editor, and the edits
    applied so far, each with the original line of its directive. *)
Record UpdateState : Type := {
  lineOffset : Z;
  currentLines : list string;
  hostText : string;
  applied : list (nat * Edit)
}.

(** [l.splice(start, deleteCount, ...items)], for [start <= l.length]. *)
Definition splice (start deleteCount : nat) (items l : list string) : list string :=
  firstn start l ++ items ++ skipn (start + deleteCount) l.

(** Drop the last element when it is the empty string, as the [pop] after
    the test of the last element does. *)
Definition popEmptyLast (l : list string) : list string :=
  match last l with
  | Some EmptyString => removelast l
  | _ => l
  end.

(** The loop that bounds the repair of a region without end marker: [l]
    holds the lines from index [j] up to [maxLines], [acc] is
    [replacementEndLine]. *)
Fixpoint repairBound (directive : gregex) (j : nat) (l : list string)
    (acc : nat) : nat :=
  match l with
  | [] => acc
  | x :: l' => if test directive x then j else repairBound directive (S j) l' j
  end.

Definition newline_s : string := String newline EmptyString.

(** The start marker, the content and the end marker, each closed by a
    line feed. *)
Definition regionText (indentedStartMarker indentedContent indentedEndMarker : string)
    : string :=
  indentedStartMarker +:+ newline_s +:+ indentedContent +:+ newline_s
    +:+ indentedEndMarker +:+ newline_s.

(** One iteration of the loop over the sorted entries. *)
Definition includeStep (cfg : Config) (env : Env) (document : TextDocument)
    (languageSettings : LanguageSettings) (st : UpdateState)
    (entry : nat * string) : Exc UpdateState :=
  let '(lineNumber, content) := entry in
  let adjustedLine := (Z.of_nat lineNumber + lineOffset st)%Z in
  if (Z.of_nat (length (currentLines st)) <=? adjustedLine)%Z then Ret st
  else
    match (if (adjustedLine <? 0)%Z then None
           else currentLines st !! Z.to_nat adjustedLine) with
    | None => Throw "TypeError: cannot read properties of undefined (reading 'match')"
    | Some includeLine =>
      let adjusted := Z.to_nat adjustedLine in
      let indentation := indentOf includeLine in
      let indentedContent :=
        _neutralizeNestedIncludes (indentContent indentation content)
          languageSettings in
      let includePath :=
        match exec INCLUDE_PATH_REGEX includeLine with
        | Some m => default EmptyString (group includeLine m 1)
        | None => EmptyString
        end in
      let resolvedPath := _resolveIncludePath env document includePath in
      let! contextAwareSettings :=
        getContextAwareSettings cfg (withText document (hostText st))
          adjusted includeLine (Some resolvedPath) in
      let indentedStartMarker :=
        indentation +:+ startMarkerTemplate contextAwareSettings in
      let indentedEndMarker :=
        indentation +:+ endMarkerTemplate contextAwareSettings in
      let nextLineIndex := adjusted + 1 in
      match currentLines st !! nextLineIndex with
      | None => Ret st
      | Some nextLine =>
        if markerIs (startMarkerTemplate contextAwareSettings) nextLine
           || markerIs (startMarkerTemplate languageSettings) nextLine
        then
          let newContent :=
            regionText indentedStartMarker indentedContent indentedEndMarker in
          let newLineCount := length (split newContent) - 1 in
          let newContentLines := popEmptyLast (split newContent) in
          let replaceUpTo (endExclusive : nat) : Exc UpdateState :=
            let edit := EReplace nextLineIndex endExclusive newContent in
            let oldLineCount := endExclusive - nextLineIndex in
            Ret {| lineOffset :=
                     (lineOffset st
                      + (Z.of_nat newLineCount - Z.of_nat oldLineCount))%Z;
                   currentLines :=
                     splice nextLineIndex oldLineCount newContentLines
                       (currentLines st);
                   hostText := applyEdit edit (hostText st);
                   applied := applied st ++ [(lineNumber, edit)] |} in
          match findFrom
                  (fun l => markerIs (endMarkerTemplate contextAwareSettings) l
                            || markerIs (endMarkerTemplate languageSettings) l)
                  (nextLineIndex + 1)
                  (skipn (nextLineIndex + 1) (currentLines st)) with
          | Some endLine => replaceUpTo (endLine + 1)
          | None =>
              let maxLines :=
                Nat.min (length (currentLines st)) (nextLineIndex + 20) in
              let replacementEndLine :=
                repairBound (includeDirectivePattern contextAwareSettings)
                  (nextLineIndex + 1)
                  (sliceLines (nextLineIndex + 1) maxLines (currentLines st))
                  (nextLineIndex + 1) in
              replaceUpTo replacementEndLine
          end
        else
          let newContent :=
            newline_s +:+
            regionText indentedStartMarker indentedContent indentedEndMarker in
          let edit := EInsert adjusted (String.length includeLine) newContent in
          let newContentLines := popEmptyLast (split newContent) in
          Ret {| lineOffset :=
                   (lineOffset st + (Z.of_nat (length newContentLines) - 1))%Z;
                 currentLines :=
                   splice (adjusted + 1) 0 (skipn 1 newContentLines)
                     (currentLines st);
                 hostText := applyEdit edit (hostText st);
                 applied := applied st ++ [(lineNumber, edit)] |}
      end
    end.

(** The loop itself; an exception leaves it with the state reached. *)
Fixpoint updateLoop (cfg : Config) (env : Env) (document : TextDocument)
    (languageSettings : LanguageSettings) (entries : list (nat * string))
    (st : UpdateState) : UpdateState * option string :=
  match entries with
  | [] => (st, None)
  | entry :: entries' =>
      match includeStep cfg env document languageSettings st entry with
      | Throw error => (st, Some error)
      | Ret st' => updateLoop cfg env document languageSettings entries' st'
      end
  end.

(** [[...includeMap.entries()].sort((a, b) => a[0] - b[0])]: a stable sort
    by line number. *)
Fixpoint insertEntry (e : nat * string) (l : list (nat * string))
    : list (nat * string) :=
  match l with
  | [] => [e]
  | x :: l' => if Nat.leb (fst x) (fst e) then x :: insertEntry e l' else e :: l
  end.

Definition sortEntries (l : list (nat * string)) : list (nat * string) :=
  fold_right (fun e acc => insertEntry e acc) [] (rev l).

(** The result of a call: the manager, the editor with the text of its
    document after the call, and the edits applied. *)
Definition Result : Type := (Manager * EditorRef * list (nat * Edit))%type.

Definition updateDocument (cfg : Config) (env : Env) (m : Manager)
    (editor : EditorRef) (includeMap : list (nat * string)) : Result :=
(* try *)
let m1 := setIsPerformingUpdate true m in
let '(m2, editor', edits) :=
  match editor with
  | Editor document =>
      if isClosed document then (m1, editor, [])
      else
        let lines := split (text document) in
        match getLanguageSettings cfg (languageId document) with
        | Ret languageSettings =>
            let st0 := {| lineOffset := 0; currentLines := lines;
                          hostText := text document; applied := [] |} in
            match updateLoop cfg env document languageSettings
                    (sortEntries includeMap) st0 with
            | (st, None) =>
                (m1, Editor (withText document (hostText st)), applied st)
            | (st, Some error) =>
(* catch *)
(showErrorMessage ("Extension error in updateDocument: " +:+ error) m1,
 Editor (withText document (hostText st)), applied st)
end
| Throw error =>
(showErrorMessage ("Extension error in updateDocument: " +:+ error) m1, editor, [])
end
| _ => (m1, editor, [])
end in
(* finally *)
(setIsPerformingUpdate false m2, editor', edits).

(** *** Results *)

Definition managerOf (r : Result) : Manager := fst (fst r).
Definition editorOf (r : Result) : EditorRef := snd (fst r).
Definition editsOf (r : Result) : list (nat * Edit) := snd r.

(** An editor that fails the validity check at the head of
    [updateDocument]. *)
Definition editorInvalid (editor : EditorRef) : bool :=
  match editor with
  | Editor document => isClosed document
  | _ => true
  end.

(** The documents associated with a source path. *)
Definition associatedDocuments (m : Manager) (sourcePath : string) : gset string :=
  default ∅ (sourceToDocuments m !! sourcePath).

Definition is_Some_b {A : Type} (x : option A) : bool :=
  match x with Some _ => true | None => false end.

(** The path of the directive on a line, when the line is one: the rules
    of the line resolve, its pattern matches, and a path group is there. *)
Definition directivePath (cfg : Config) (document : TextDocument)
    (i : nat) (line : string) : option string :=
  match getContextAwareSettings cfg document i line None with
  | Throw _ => None
  | Ret contextAwareSettings =>
      match exec (includeDirectivePattern contextAwareSettings) line with
      | None => None
      | Some m =>
          match exec COMMENT_OVERRIDE_REGEX line with
          | Some overrideMatch => group line overrideMatch 1
          | None => group line m 1
          end
      end
  end.

(** The iteration of the scan at a line throws, which ends the scan: the
    rules of the line do not resolve, or the line matches a pattern without
    a path group. *)
Definition scanThrows (cfg : Config) (document : TextDocument)
    (i : nat) (line : string) : bool :=
  match getContextAwareSettings cfg document i line None with
  | Throw _ => true
  | Ret contextAwareSettings =>
      match exec (includeDirectivePattern contextAwareSettings) line with
      | None => false
      | Some m =>
          match exec COMMENT_OVERRIDE_REGEX line with
          | Some overrideMatch => negb (is_Some_b (group line overrideMatch 1))
          | None => negb (is_Some_b (group line m 1))
          end
      end
  end.

Definition selfIncludeWarning (filePath : string) (st : ScanState) : ScanState :=
  onManager (showWarningMessage ("Cannot include a file in itself: " +:+ filePath)) st.

(** The lines of a freshly built region: the start marker, the indented and
    neutralised content and the end marker, for the indentation of the
    directive line and the rules in force. *)
Definition regionLines (languageSettings contextAwareSettings : LanguageSettings)
    (indentation content : string) : list string :=
  split (indentation +:+ startMarkerTemplate contextAwareSettings)
  ++ split (_neutralizeNestedIncludes (indentContent indentation content)
              languageSettings)
  ++ split (indentation +:+ endMarkerTemplate contextAwareSettings).

(** The text of that region, as [includeStep] builds it. *)
Definition regionTextOf (languageSettings contextAwareSettings : LanguageSettings)
    (indentation content : string) : string :=
  regionText (indentation +:+ startMarkerTemplate contextAwareSettings)
    (_neutralizeNestedIncludes (indentContent indentation content) languageSettings)
    (indentation +:+ endMarkerTemplate contextAwareSettings).

(** A line that opens, or closes, a region for one of the two rule sets. *)
Definition isStartMarker (languageSettings contextAwareSettings : LanguageSettings)
    (line : string) : bool :=
  markerIs (startMarkerTemplate contextAwareSettings) line
  || markerIs (startMarkerTemplate languageSettings) line.

Definition isEndMarker (languageSettings contextAwareSettings : LanguageSettings)
    (line : string) : bool :=
  markerIs (endMarkerTemplate contextAwareSettings) line
  || markerIs (endMarkerTemplate languageSettings) line.

(** The path that [includeStep] extracts from the directive line again, resolved. *)
Definition stepResolvedPath (env : Env) (document : TextDocument)
    (includeLine : string) : string :=
  _resolveIncludePath env document
    match exec INCLUDE_PATH_REGEX includeLine with
    | Some m => default EmptyString (group includeLine m 1)
    | None => EmptyString
    end.

(** The running offset agrees with the growth of the processor's copy of
    the lines since the start of the pass, [n0] lines then. *)
Definition tracked (n0 : nat) (st : UpdateState) : Prop :=
  lineOffset st = (Z.of_nat (length (currentLines st)) - Z.of_nat n0)%Z.

(** The paths watched for the document are sources it is associated with. *)
Definition watchedAssociated (document : TextDocument) (st : ScanState) : Prop :=
  forall p, p ∈ watchers st -> uri document ∈ associatedDocuments (manager st) p.

(** The number of occurrences of the keyword [virtualInclude] in a line. *)
Fixpoint countKeyword (s : string) : nat :=
  (if startsWith keyword s then 1 else 0)
  + match s with
    | EmptyString => 0
    | String _ s' => countKeyword s'
    end.

(** The keyword, with a white-space character after it. *)
Definition keywordThenSpace (s : string) : bool :=
  startsWith keyword s
  && match drop (String.length keyword) s with
     | String c _ => is_ws c
     | EmptyString => false
     end.

(** Some occurrence of the keyword in the line is followed by white space,
    as every match of a default directive pattern needs. *)
Fixpoint liveKeyword (s : string) : bool :=
  keywordThenSpace s
  || match s with
     | EmptyString => false
     | String _ s' => liveKeyword s'
     end.

(** The lines of the document after a call. *)
Definition linesOf (r : Result) : list string :=
  match r with
  | (_, Editor document, _) => split (text document)
  | _ => []
  end.

(** Taking the indentation off a line again. *)
Definition stripIndent (indentation line : string) : string :=
  if startsWith indentation line then drop (String.length indentation) line else line.

(** *** processDocument *)

Definition processDocument (cfg : Config) (env : Env) (m : Manager)
    (editor : EditorRef) : Result :=
  match editor with
  | Editor document =>
      let documentKey := uri document in
      match getLanguageSettings cfg (languageId document) with
      | Throw error =>
          (showErrorMessage ("Extension error: " +:+ error) m, editor, [])
      | Ret languageSettings =>
          let m1 :=
            match documentWatchers m !! documentKey with
            | Some _ => deleteDocumentWatchers documentKey m
            | None => m
            end in
          let m2 := setDocumentIncludes documentKey [] m1 in
          let lines := split (text document) in
          let st0 := {| manager := m2; includeMap := []; watchers := [];
                        needsEdit := false |} in
          match scanLoop cfg env document languageSettings lines 0 lines st0 with
          | (st, Some error) =>
              (showErrorMessage ("Extension error: " +:+ error) (manager st),
               editor, [])
          | (st, None) =>
              let m3 := setDocumentWatchers documentKey (watchers st) (manager st) in
              if needsEdit st
              then updateDocument cfg env m3 editor (includeMap st)
              else (m3, editor, [])
          end
      end
  | _ =>
      (showErrorMessage "Extension error: TypeError: cannot read properties of undefined" m,
       editor, [])
  end.

End DocumentProcessor.

(** ** An environment for the examples: POSIX paths and a table of files *)

Module Posix.
Import Text LanguageService DocumentProcessor.

(** [p.split("/")] *)
Fixpoint segments (p : string) : list string :=
  match p with
  | EmptyString => [EmptyString]
  | String c p' =>
      if Ascii.eqb c "/"%char then EmptyString :: segments p'
      else match segments p' with
           | s :: ss => String c s :: ss
           | [] => [String c EmptyString]
           end
  end.

(** The segments of an absolute path without [.], [..] and empty ones;
    [acc] is the reversed result so far. *)
Fixpoint resolveSegments (acc : list string) (ss : list string) : list string :=
  match ss with
  | [] => rev acc
  | s :: ss' =>
      if isEmpty s || String.eqb s "." then resolveSegments acc ss'
      else if String.eqb s ".." then resolveSegments (tail acc) ss'
      else resolveSegments (s :: acc) ss'
  end.

Definition fromSegments (ss : list string) : string :=
  fold_right (fun s acc => "/" +:+ s +:+ acc) EmptyString ss.

Definition isAbsolute (p : string) : bool :=
  match p with String "/" _ => true | _ => false end.

(** The absolute path of the segments left after [.], [..] and empty
    segments are resolved. *)
Definition resolved (p : string) : string :=
  match resolveSegments [] (segments p) with
  | [] => "/"
  | ss => fromSegments ss
  end.

(** [p.endsWith("/")] *)
Fixpoint endsWithSlash (p : string) : bool :=
  match p with
  | EmptyString => false
  | String c EmptyString => Ascii.eqb c "/"%char
  | String _ p' => endsWithSlash p'
  end.

(** The segments of a relative path: [..] is kept where nothing is left to
    go up from. *)
Fixpoint relativeSegments (acc : list string) (ss : list string) : list string :=
  match ss with
  | [] => rev acc
  | s :: ss' =>
      if isEmpty s || String.eqb s "." then relativeSegments acc ss'
      else if String.eqb s ".." then
        match acc with
        | a :: acc' =>
            if String.eqb a ".." then relativeSegments (s :: acc) ss'
            else relativeSegments acc' ss'
        | [] => relativeSegments (s :: acc) ss'
        end
      else relativeSegments (s :: acc) ss'
  end.

(** [path.normalize]: a trailing separator is kept. *)
Definition normalize (p : string) : string :=
  if isEmpty p then "."
  else if isAbsolute p then
    match resolveSegments [] (segments p) with
    | [] => "/"
    | ss => if endsWithSlash p then fromSegments ss +:+ "/" else fromSegments ss
    end
  else
    match relativeSegments [] (segments p) with
    | [] => if endsWithSlash p then "./" else "."
    | ss =>
        let q := drop 1 (fromSegments ss) in
        if endsWithSlash p then q +:+ "/" else q
    end.

(** [path.resolve(dir, p)] for an absolute [dir]: no trailing separator. *)
Definition resolve (dir p : string) : string :=
  if isAbsolute p then resolved p else resolved (dir +:+ "/" +:+ p).

Definition isSlash (c : ascii) : bool := Ascii.eqb c "/"%char.

Fixpoint dropWhile (f : ascii -> bool) (l : list ascii) : list ascii :=
  match l with
  | c :: l' => if f c then dropWhile f l' else l
  | [] => []
  end.

(** [path.dirname]: the path up to its last separator, trailing
    separators apart; the text before it is not normalised. *)
Definition dirname (p : string) : string :=
  match p with
  | EmptyString => "."
  | String c0 p' =>
      let hasRoot := isSlash c0 in
      let name := dropWhile isSlash (rev (String.list_ascii_of_string p')) in
      match dropWhile (fun c => negb (isSlash c)) name with
      | [] => if hasRoot then "/" else "."
      | _ :: before =>
          let endIndex := S (length before) in
          if hasRoot && Nat.eqb endIndex 1 then "//" else take endIndex p
      end
  end.

Definition env (files : list (string * string)) : Env :=
  {| win32 := false;
     path_isAbsolute := isAbsolute;
     path_resolve := resolve;
     path_dirname := dirname;
     path_normalize := normalize;
     fs_existsSync := fun p => bool_decide (is_Some (lookupTable files p));
     fs_readFileSync := fun p =>
       match lookupTable files p with
       | Some content => Ret content
       | None => Throw "ENOENT: no such file or directory"
       end |}.

(** The configuration with every setting at its default. *)
Definition defaultConfig : Config :=
  {| defaultCommentStyle := "#";
     detectFromExtension := true;
     languageOverrides := [];
     languageSettings := ∅ |}.

Definition emptyManager : Manager :=
  {| documentIncludes := ∅; documentWatchers := ∅; sourceToDocuments := ∅;
     isPerformingUpdate := false; warningMessages := []; errorMessages := [] |}.

(** A document of the workspace directory [/w], open in an editor. *)
Definition editorOn (name lang : string) (lines : list string) : EditorRef :=
  Editor {| uri := "file:///w/" +:+ name; fsPath := "/w/" +:+ name;
            languageId := lang; text := join lines; isClosed := false |}.

(** The settings of the languages of the examples, with nothing
    configured. *)
Definition python : LanguageSettings := createDefaultSettings (line_style "#").
Definition javascript : LanguageSettings := createDefaultSettings (line_style "//").

Definition startPy : string := "# virtualIncludeStart - DO NOT EDIT CONTENT BELOW ".
Definition endPy : string := "# virtualIncludeEnd - DO NOT EDIT CONTENT ABOVE ".

(** A region with two end-marker lines, the stale content [old] and the
    source [hello]. *)
Definition twoEndMarkers : list string :=
  ["# virtualInclude 'a.txt'"; startPy; "old"; endPy; "junk"; endPy; "tail"].

Definition twoDirectives : list string :=
  ["# virtualInclude 'a.txt'"; "print('0123456789abcde')";
   "# virtualInclude 'b.txt'"; "done()"].

Definition twoFiles : list (string * string) :=
  [("/w/a.txt", "hello"); ("/w/b.txt", "world")].

Definition regionPy (content : string) : string :=
  startPy +:+ newline_s +:+ content +:+ newline_s +:+ endPy +:+ newline_s.

Definition nestedFiles : list (string * string) :=
  [("/w/b.js", "// virtualInclude 'd.js'"); ("/w/d.js", "deep()")].

Definition nestedMain : list string :=
  ["// virtualInclude 'b.js'"; "main()"].

End Posix.

(** ** Edit protection ([src/edit-protection.ts]) *)

Module EditProtection.
Import Text Regex LanguageService DocumentProcessor.

(** [vscode.Position], and what the protection reads of a content change
    and of a [TextDocumentChangeEvent]. *)
Record Position : Type := { pos_line : nat; pos_character : nat }.

Record ContentChange : Type := {
  range_start : Position;
  range_end : Position;
  change_text : string
}.

Record ChangeEvent : Type := {
  ev_document : TextDocument;
  ev_contentChanges : list ContentChange
}.

Record Region : Type := { r_start : nat; r_end : nat }.

(** The variables of the loop that finds the protected regions;
    [currentStart] is [None] for -1. *)
Record RegionScan : Type := {
  inProtectedRegion : bool;
  currentStart : option nat;
  protectedRegions : list Region
}.

Definition regionStep (languageSettings : LanguageSettings) (st : RegionScan)
    (i : nat) (l : string) : RegionScan :=
  let lineTrimmed := trim l in
  if String.eqb lineTrimmed (trim (startMarkerTemplate languageSettings)) then
    {| inProtectedRegion := true; currentStart := Some i;
       protectedRegions := protectedRegions st |}
  else if String.eqb lineTrimmed (trim (endMarkerTemplate languageSettings))
          && inProtectedRegion st then
    match currentStart st with
    | Some s =>
        {| inProtectedRegion := false; currentStart := None;
           protectedRegions :=
             protectedRegions st ++ [{| r_start := s; r_end := i |}] |}
    | None =>
        {| inProtectedRegion := false; currentStart := None;
           protectedRegions := protectedRegions st |}
    end
  else st.

(** [for (i = from; i < lines.length; i++)], [rest] being the lines from
    index [i] on. *)
Fixpoint regionLoop (languageSettings : LanguageSettings) (i : nat)
    (rest : list string) (st : RegionScan) : RegionScan :=
  match rest with
  | [] => st
  | l :: rest' =>
      regionLoop languageSettings (S i) rest' (regionStep languageSettings st i l)
  end.

Definition findProtectedRegions (languageSettings : LanguageSettings)
    (lines : list string) : list Region :=
  protectedRegions
    (regionLoop languageSettings 0 lines
       {| inProtectedRegion := false; currentStart := None;
          protectedRegions := [] |}).

(** The overlap test of an edit from [startLine] to [endLine] with the
    content of a region, the marker lines left out. *)
Definition affects (region : Region) (startLine endLine : nat) : bool :=
  let protectedContentStart := (Z.of_nat (r_start region) + 1)%Z in
  let protectedContentEnd := (Z.of_nat (r_end region) - 1)%Z in
  let s := Z.of_nat startLine in
  let e := Z.of_nat endLine in
  ((protectedContentStart <=? s) && (s <=? protectedContentEnd)
   || (protectedContentStart <=? e) && (e <=? protectedContentEnd)
   || (s <? protectedContentStart) && (protectedContentEnd <? e))%Z.

Definition protectedEditWarning : string :=
  "Cannot edit protected virtual include content. Edit the source file instead.".

(** The loop over the regions for one change: [true] when it left by
    [break]. *)
Fixpoint regionsAffected (regions : list Region) (startLine endLine : nat) : bool :=
  match regions with
  | [] => false
  | region :: regions' =>
      if affects region startLine endLine then true
      else regionsAffected regions' startLine endLine
  end.

(** The loop over the changes: the manager with the warning shown, and
    [needsImmedateReprocess]. *)
Fixpoint changesLoop (regions : list Region) (changes : list ContentChange)
    (m : Manager) : Manager * bool :=
  match changes with
  | [] => (m, false)
  | change :: changes' =>
      let startLine := pos_line (range_start change) in
      let endLine := pos_line (range_end change) in
      if regionsAffected regions startLine endLine
      then (showWarningMessage protectedEditWarning m, true)
      else changesLoop regions changes' m
  end.

(** The second component tells whether the restoring pass was scheduled.
    The language settings are read outside any [try]: their exception is
    the exception of the call. *)
Definition handleProtectedEdits (cfg : Config) (m : Manager) (e : ChangeEvent)
    : Exc (Manager * bool) :=
  if isPerformingUpdate m then Ret (m, false)
  else
    let! languageSettings := getLanguageSettings cfg (languageId (ev_document e)) in
    let document := ev_document e in
    let lines := split (text document) in
    let protectedRegions := findProtectedRegions languageSettings lines in
    if Nat.ltb 0 (length (ev_contentChanges e))
    then Ret (changesLoop protectedRegions (ev_contentChanges e) m)
    else Ret (m, false).

(** The variables of the loop of [preventProtectedEdits]. *)
Record SaveScan : Type := {
  sv_inProtectedRegion : bool;
  sv_protectedStart : option nat
}.

Definition saveStep (languageSettings : LanguageSettings) (st : SaveScan)
    (i : nat) (l : string) : SaveScan :=
  if String.eqb (trim l) (trim (startMarkerTemplate languageSettings)) then
    {| sv_inProtectedRegion := true; sv_protectedStart := Some i |}
  else if String.eqb (trim l) (trim (endMarkerTemplate languageSettings)) then
    {| sv_inProtectedRegion := false; sv_protectedStart := None |}
  else st.

Fixpoint saveLoop (languageSettings : LanguageSettings) (i : nat)
    (rest : list string) (st : SaveScan) : SaveScan :=
  match rest with
  | [] => st
  | l :: rest' =>
      saveLoop languageSettings (S i) rest' (saveStep languageSettings st i l)
  end.

(** The edits handed to [onWillSaveTextDocument]: the insertion is asked
    for at [Position(lines.length, 0)], which the host brings to the end of
    the document. *)
Definition preventProtectedEdits (cfg : Config) (document : TextDocument)
    : Exc (list Edit) :=
  let lines := split (text document) in
  let! languageSettings := getLanguageSettings cfg (languageId document) in
  let st := saveLoop languageSettings 0 lines
              {| sv_inProtectedRegion := false; sv_protectedStart := None |} in
  if sv_inProtectedRegion st then
    match sv_protectedStart st with
    | Some protectedStart =>
        match lines !! protectedStart with
        | Some startLine =>
            let indentation := indentOf startLine in
            let indentedEndMarker :=
              indentation +:+ endMarkerTemplate languageSettings in
            Ret [EInsert (length lines) 0
                   (newline_s +:+ indentedEndMarker +:+ newline_s)]
        | None =>
            Throw "TypeError: cannot read properties of undefined (reading 'match')"
        end
    | None => Ret []
    end
  else Ret [].

(** *** What the properties of the protection speak of *)

Definition isStart (languageSettings : LanguageSettings) (l : string) : bool :=
  markerIs (startMarkerTemplate languageSettings) l.

Definition isEnd (languageSettings : LanguageSettings) (l : string) : bool :=
  markerIs (endMarkerTemplate languageSettings) l.

(** A region as the loop builds them: it opens at a start marker, closes
    at the first end marker after it, and no marker of either kind lies
    strictly between the two. *)
Definition wellFormed (languageSettings : LanguageSettings) (lines : list string)
    (bound : nat) (r : Region) : Prop :=
  r_start r < r_end r < bound
  /\ (exists l, lines !! r_start r = Some l /\ isStart languageSettings l = true)
  /\ (exists l, lines !! r_end r = Some l /\ isEnd languageSettings l = true
                /\ isStart languageSettings l = false)
  /\ (forall k l, r_start r < k < r_end r -> lines !! k = Some l ->
        isStart languageSettings l = false /\ isEnd languageSettings l = false).

Definition ascending (regions : list Region) : Prop :=
  forall k r1 r2,
    regions !! k = Some r1 -> regions !! S k = Some r2 -> r_end r1 < r_start r2.

(** What holds of the variables of the loop before line [i]. *)
Definition scanInvariant (languageSettings : LanguageSettings)
    (lines : list string) (i : nat) (st : RegionScan) : Prop :=
  Forall (wellFormed languageSettings lines i) (protectedRegions st)
  /\ ascending (protectedRegions st)
  /\ (if inProtectedRegion st
      then exists s,
          currentStart st = Some s /\ s < i
          /\ (exists l, lines !! s = Some l /\ isStart languageSettings l = true)
          /\ (forall k l, s < k < i -> lines !! k = Some l ->
                isStart languageSettings l = false
                /\ isEnd languageSettings l = false)
          /\ Forall (fun r => r_end r < s) (protectedRegions st)
      else currentStart st = None).

End EditProtection.

(** ** Diagnostics ([src/diagnostics.ts]) *)

Module Diagnostics.
Import Text Regex LanguageService DocumentProcessor.

(** A [vscode.Diagnostic] of the collection: the line and the two columns
    of its range, and its message; the severity is always [Error] and the
    source always [Virtual Include]. *)
Record Diagnostic : Type := {
  d_line : nat;
  d_startIndex : nat;
  d_endIndex : nat;
  d_message : string
}.

(** [hay.indexOf(needle)], [None] for -1; [pos] is the offset of [hay] in
    the subject. *)
Fixpoint indexOfFrom (needle hay : string) (pos : nat) {struct hay} : option nat :=
  if startsWith needle hay then Some pos
  else match hay with
       | EmptyString => None
       | String _ hay' => indexOfFrom needle hay' (S pos)
       end.

Definition indexOf (needle hay : string) : option nat := indexOfFrom needle hay 0.

(** [m[0]] *)
Definition matched (s : string) (m : rmatchResult) : string :=
  slice (m_start m) (m_end m) s.

(** The columns of the range; a [Position] refuses a negative column. *)
Definition getIncludeRange (document : TextDocument) (i : nat) (m0 : string)
    : Exc (nat * nat) :=
  match split (text document) !! i with
  | None => Throw "Illegal value for `line`"
  | Some lineText =>
      match indexOf m0 lineText with
      | Some startIndex => Ret (startIndex, startIndex + String.length m0)
      | None => Throw "Illegal argument: character must be non-negative"
      end
  end.

Definition resolveIncludePath (env : Env) (document : TextDocument)
    (includePath : string) : string :=
  if path_isAbsolute env includePath then includePath
  else path_resolve env (path_dirname env (fsPath document)) includePath.

(** [for (i = from; i < lines.length; i++)], [rest] being the lines from
    index [i] on. [match[1]] is [undefined] for a configured pattern
    without a group, and resolving it throws. *)
Fixpoint checkLoop (env : Env) (document : TextDocument)
    (languageSettings : LanguageSettings) (i : nat) (rest : list string)
    (diagnostics : list Diagnostic) : Exc (list Diagnostic) :=
  match rest with
  | [] => Ret diagnostics
  | l :: rest' =>
      match exec (includeDirectivePattern languageSettings) l with
      | None => checkLoop env document languageSettings (S i) rest' diagnostics
      | Some m =>
          match group l m 1 with
          | None => Throw "TypeError: the path argument must be of type string"
          | Some filePath =>
              let resolvedPath := resolveIncludePath env document filePath in
              let! range := getIncludeRange document i (matched l m) in
              if fs_existsSync env resolvedPath
              then checkLoop env document languageSettings (S i) rest' diagnostics
              else
                checkLoop env document languageSettings (S i) rest'
                  (diagnostics
                   ++ [{| d_line := i; d_startIndex := fst range;
                          d_endIndex := snd range;
                          d_message := "Cannot find included file: " +:+ filePath |}])
          end
      end
  end.

(** The diagnostics that [checkDocument] stores for the document; the
    number it returns is their count. *)
Definition checkDocument (cfg : Config) (env : Env) (document : TextDocument)
    : Exc (list Diagnostic) :=
  let lines := split (text document) in
  let! languageSettings := getLanguageSettings cfg (languageId document) in
  checkLoop env document languageSettings 0 lines [].

(** The number of top-level groups of a pattern. *)
Fixpoint groupCount (g : gregex) : nat :=
  match g with
  | [] => 0
  | Plain _ :: g' => groupCount g'
  | Grp _ :: g' => S (groupCount g')
  end.

End Diagnostics.

(** ** Code lenses ([src/code-lens-provider.ts]) *)

Module CodeLensProvider.
Import Text Regex LanguageService DocumentProcessor.

(** A code lens: its range runs from column 0 to [endCharacter] of its
    line; the command is always [virtualInclude.openIncludedFile], with the
    document and the path of the directive ([None] for [undefined]) as
    arguments. *)
Record CodeLens : Type := {
  cl_line : nat;
  cl_endCharacter : nat;
  cl_document : string;
  cl_filePath : option string
}.

Fixpoint lensLoop (cfg : Config) (document : TextDocument) (i : nat)
    (rest : list string) (codeLenses : list CodeLens) : Exc (list CodeLens) :=
  match rest with
  | [] => Ret codeLenses
  | l :: rest' =>
      let! contextAwareSettings := getContextAwareSettings cfg document i l None in
      match exec (includeDirectivePattern contextAwareSettings) l with
      | Some m =>
          lensLoop cfg document (S i) rest'
            (codeLenses
             ++ [{| cl_line := i; cl_endCharacter := String.length l;
                    cl_document := uri document; cl_filePath := group l m 1 |}])
      | None => lensLoop cfg document (S i) rest' codeLenses
      end
  end.

(** [showCodeLens] is the setting of that name, [true] by default. The
    settings of the document language are read before the loop, and a
    pattern is built from them that the loop does not use: the loop matches
    each line against the pattern of its own rules. *)
Definition provideCodeLenses (cfg : Config) (showCodeLens : bool)
    (document : TextDocument) : Exc (list CodeLens) :=
  if negb showCodeLens then Ret []
  else
    let lines := split (text document) in
    let! languageSettings := getLanguageSettings cfg (languageId document) in
    let includeRegex := includeDirectivePattern languageSettings in
    lensLoop cfg document 0 lines [].

End CodeLensProvider.

(** ** The manager and its status bar *)

Module VirtualIncludeManager.
Import Text Regex LanguageService DocumentProcessor EditProtection Diagnostics.

(** *** The status bar ([src/status-bar.ts]) *)

Record StatusBarItem : Type := {
  sb_text : string;
  sb_tooltip : string;
  sb_backgroundColor : option string;
  sb_color : option string
}.

Definition setProcessing (item : StatusBarItem) : StatusBarItem :=
  {| sb_text := "$(sync~spin) Processing Includes...";
     sb_tooltip := "Virtual Include is processing includes";
     sb_backgroundColor := None; sb_color := None |}.

Definition setIdle (item : StatusBarItem) : StatusBarItem :=
  {| sb_text := "$(file-symlink-file) Virtual Include";
     sb_tooltip := "Click to process virtual includes";
     sb_backgroundColor := None; sb_color := None |}.

(** The count is written in decimal. *)
Definition setIssues (count : nat) (item : StatusBarItem) : StatusBarItem :=
  {| sb_text := "$(warning) Virtual Include (" +:+ pretty count +:+ " issues)";
     sb_tooltip :=
       pretty count +:+ " include issues found. Click to process includes.";
     sb_backgroundColor := Some "statusBarItem.errorBackground";
     sb_color := sb_color item |}.

(** *** The manager ([src/virtual-include-manager.ts]) *)

(** The state of the manager as a whole: the state it shares with the
    processor, its status bar item and its diagnostic collection. *)
Record State : Type := {
  shared : Manager;
  statusBar : StatusBarItem;
  diagnosticCollection : gmap string (list Diagnostic)
}.

Definition onShared (f : Manager -> Manager) (st : State) : State :=
  {| shared := f (shared st); statusBar := statusBar st;
     diagnosticCollection := diagnosticCollection st |}.

Definition onStatusBar (f : StatusBarItem -> StatusBarItem) (st : State) : State :=
  {| shared := shared st; statusBar := f (statusBar st);
     diagnosticCollection := diagnosticCollection st |}.

Definition onDiagnostics
    (f : gmap string (list Diagnostic) -> gmap string (list Diagnostic))
    (st : State) : State :=
  {| shared := shared st; statusBar := statusBar st;
     diagnosticCollection := f (diagnosticCollection st) |}.

(** The handler of [processDocument] for an exception of its body. *)
Definition processFailed (error : string) (st : State) : State :=
  onShared (showErrorMessage ("Error: " +:+ error)) (onStatusBar (setIssues 1) st).

(** [VirtualIncludeManager.processDocument]: the state, the editor with the
    text of its document after the call, and the edits applied. *)
Definition processDocument (cfg : Config) (env : Env) (st : State)
    (editor : EditorRef) : State * EditorRef * list (nat * Edit) :=
  let st1 := onStatusBar setProcessing st in
  (* try *)
  match editor with
  | Editor document =>
      let st2 := onDiagnostics (delete (uri document)) st1 in
      match checkDocument cfg env document with
      | Ret diagnostics =>
          let issueCount := length diagnostics in
          let st3 := onDiagnostics (insert (uri document) diagnostics) st2 in
          let '(m, editor', edits) :=
            DocumentProcessor.processDocument cfg env (shared st3) editor in
          let st4 := onShared (fun _ => m) st3 in
          (if Nat.ltb 0 issueCount
           then onStatusBar (setIssues issueCount) st4
           else onStatusBar setIdle st4,
           editor', edits)
      | Throw error =>
(* catch *)
(processFailed error st2, editor, [])
end
| _ =>
(processFailed "TypeError: cannot read properties of undefined" st1, editor, [])
end.

(** *** The handler of document changes *)

(** [Constants.VIRTUAL_INCLUDE_REGEX]: a line that is white space, the
    token [#], one space, the keyword, white space, a quoted path and white
    space, from its start to its end. *)
Definition VIRTUAL_INCLUDE_REGEX : gregex :=
  [ Plain (RSeq RBol
            (RSeq (RStar false ws)
               (RSeq (RLit "# virtualInclude") (RSeq (RPlus false ws) quote))));
    Grp (RPlus true dot);
    Plain (RSeq quote (RSeq (RStar false ws) REol)) ].

(** [hay.includes(needle)] *)
Definition includes (needle hay : string) : bool :=
  match indexOf needle hay with Some _ => true | None => false end.

Definition doubleQuote : string := String "034"%char EmptyString.

(** The test of one change in the loop that sets [mightHaveInclude]. *)
Definition mightInclude (change : ContentChange) : bool :=
  includes "#" (change_text change)
  || includes "virtualInclude" (change_text change)
  || includes doubleQuote (change_text change).

(** What the handler does with a change event: it may schedule a pass over
    the document, or hand the event to the edit protection, which may show
    a warning and schedule the restoring pass. *)
Record ChangeOutcome : Type := {
  co_shared : Manager;
  co_processScheduled : bool;
  co_restoreScheduled : bool
}.

(** [isFile] tells whether the scheme of the document is [file];
    [cursorLine] is the line of the cursor in the visible editor of the
    document, when there is one. An exception of the body is logged and
    nothing else happens. *)
Definition onDidChangeTextDocument (cfg : Config) (m : Manager) (isFile : bool)
    (cursorLine : option nat) (e : ChangeEvent) : ChangeOutcome :=
  let quiet := {| co_shared := m; co_processScheduled := false;
                  co_restoreScheduled := false |} in
  if negb isFile then quiet
  else if existsb mightInclude (ev_contentChanges e) then
    match cursorLine with
    | Some cursor =>
        match split (text (ev_document e)) !! cursor with
        | Some currentLine =>
            if test VIRTUAL_INCLUDE_REGEX currentLine
            then {| co_shared := m; co_processScheduled := true;
                    co_restoreScheduled := false |}
            else quiet
        | None => quiet
        end
    | None => quiet
    end
  else
    match handleProtectedEdits cfg m e with
    | Ret (m', restore) =>
        {| co_shared := m'; co_processScheduled := false;
           co_restoreScheduled := restore |}
    | Throw _ => quiet
    end.

End VirtualIncludeManager.

(** ** Classes of characters in a text *)

Module MatchSpec.
Import Text.

(** Every character of the string is in the class. *)
Fixpoint allChars (p : ascii -> bool) (s : string) : bool :=
  match s with
  | EmptyString => true
  | String c s' => p c && allChars p s'
  end.

Definition noQuote (s : string) : bool :=
  allChars (fun c => negb (Regex.is_quote c)) s.

End MatchSpec.

(** ** What a pass records *)

Module PassSpec.
Import Text Regex LanguageService DocumentProcessor.

Section Spec.
Variables (cfg : Config) (env : Env) (document : TextDocument).
Variable languageSettings : LanguageSettings.

(** A directive of line [k] that the scan accepts, with the content read
    from its file. *)
Definition accepted (k : nat) (content : string) : Prop :=
  exists l filePath,
    split (text document) !! k = Some l
    /\ directivePath cfg document k l = Some filePath
    /\ _isSelfInclude env document filePath = false
    /\ fs_existsSync env (_resolveIncludePath env document filePath) = true
    /\ fs_readFileSync env (_resolveIncludePath env document filePath) = Ret content.

(** A path that a directive of the document names, with a file behind it. *)
Definition watched (p : string) : Prop :=
  exists k l filePath content,
    split (text document) !! k = Some l
    /\ directivePath cfg document k l = Some filePath
    /\ p = _resolveIncludePath env document filePath
    /\ fs_existsSync env p = true
    /\ fs_readFileSync env p = Ret content.

(** Some accepted directive whose region is not up to date. *)
Definition stale : Prop :=
  exists k l filePath content ctx,
    split (text document) !! k = Some l
    /\ directivePath cfg document k l = Some filePath
    /\ fs_readFileSync env (_resolveIncludePath env document filePath) = Ret content
    /\ getContextAwareSettings cfg document k l
         (Some (_resolveIncludePath env document filePath)) = Ret ctx
    /\ inspectRegion languageSettings ctx
         (split (text document)) k l content <> UpToDate.

(** What the state of the scan holds before line [i]. *)
Definition traced (i : nat) (st : ScanState) : Prop :=
  Forall (fun e => fst e < i /\ accepted (fst e) (snd e)) (includeMap st)
  /\ (forall j k e1 e2, j < k -> includeMap st !! j = Some e1 ->
        includeMap st !! k = Some e2 -> fst e1 < fst e2)
  /\ Forall watched (watchers st)
  /\ (needsEdit st = true -> stale)
  /\ documentIncludes (manager st) !! uri document = Some (includeMap st).

End Spec.
End PassSpec.

(** ** Escaping of comment tokens *)

Module Escaping.
Import Text Regex.

(** The class of [escapeRegExp]: the characters that are syntax in a
    pattern. *)
Definition isSyntaxChar (c : ascii) : bool :=
  match c with
  | "." | "*" | "+" | "?" | "^" | "$" | "{" | "}" | "(" | ")" | "|" | "["
  | "]" | "\" => true
  | _ => false
  end%char.

(** [s.replace(/[.*+?^${}()|[\]\\]/g, "\\$&")]: a backslash before every
    syntax character. *)
Fixpoint escapeRegExp (s : string) : string :=
  match s with
  | EmptyString => EmptyString
  | String c s' =>
      if isSyntaxChar c then String "\"%char (String c (escapeRegExp s'))
      else String c (escapeRegExp s')
  end.

(** How [new RegExp] reads a pattern source that is a run of literal
    characters: a backslash and a syntax character stand for that
    character, any other character that is no syntax character stands for
    itself; [None] for a source outside this fragment. *)
Fixpoint parseLiteral (src : string) : option regex :=
  match src with
  | EmptyString => Some REmpty
  | String c src' =>
      if Ascii.eqb c "\"%char then
        match src' with
        | String d src'' =>
            if isSyntaxChar d
            then RSeq (RChar (Ascii.eqb d)) <$> parseLiteral src''
            else None
        | EmptyString => None
        end
      else if isSyntaxChar c then None
      else RSeq (RChar (Ascii.eqb c)) <$> parseLiteral src'
  end.

End Escaping.

(** * Properties *)

(** ** The update gate *)

Module GateProperties.
Import Text LanguageService DocumentProcessor.

(** The early return: nothing but the gate is touched, and no edit is
    made. *)
Lemma updateDocument_invalid_editor cfg env m editor includeMap :
  editorInvalid editor = true ->
  updateDocument cfg env m editor includeMap
  = (setIsPerformingUpdate false (setIsPerformingUpdate true m), editor, []).
Proof.
  unfold updateDocument, editorInvalid.
  destruct editor as [| |document]; try reflexivity.
  intros ->. reflexivity.
Qed.

(** The exception path: the error is reported through the error-message
    channel, and the call returns. *)
Lemma updateDocument_exception
    cfg env m document includeMap languageSettings st error :
  isClosed document = false ->
  getLanguageSettings cfg (languageId document) = Ret languageSettings ->
  updateLoop cfg env document languageSettings
    (sortEntries includeMap)
    {| lineOffset := 0; currentLines := split (text document);
       hostText := text document; applied := [] |} = (st, Some error) ->
  managerOf (updateDocument cfg env m (Editor document) includeMap)
  = setIsPerformingUpdate false
      (showErrorMessage ("Extension error in updateDocument: " +:+ error)
         (setIsPerformingUpdate true m)).
Proof.
  intros Hopen Hsettings Hloop. unfold updateDocument, managerOf.
  rewrite Hopen, Hsettings, Hloop. reflexivity.
Qed.

(** The settings of the language are read inside the [try]: when they
    cannot be resolved, the handler reports it and no edit is made. *)
Lemma updateDocument_unresolved cfg env m document includeMap error :
  isClosed document = false ->
  getLanguageSettings cfg (languageId document) = Throw error ->
  updateDocument cfg env m (Editor document) includeMap
  = (setIsPerformingUpdate false
       (showErrorMessage ("Extension error in updateDocument: " +:+ error)
          (setIsPerformingUpdate true m)),
     Editor document, []).
Proof.
  intros Hopen Hsettings. unfold updateDocument.
  rewrite Hopen, Hsettings. reflexivity.
Qed.

(** With the settings resolved, the call is the loop over the sorted
    entries between the raising and the lowering of the gate. *)
Lemma updateDocument_resolved cfg env m document includeMap languageSettings :
  isClosed document = false ->
  getLanguageSettings cfg (languageId document) = Ret languageSettings ->
  updateDocument cfg env m (Editor document) includeMap
  = let m1 := setIsPerformingUpdate true m in
    let st0 := {| lineOffset := 0; currentLines := split (text document);
                  hostText := text document; applied := [] |} in
    match updateLoop cfg env document languageSettings
            (sortEntries includeMap) st0 with
    | (st, None) =>
        (setIsPerformingUpdate false m1,
         Editor (withText document (hostText st)), applied st)
    | (st, Some error) =>
        (setIsPerformingUpdate false
           (showErrorMessage ("Extension error in updateDocument: " +:+ error) m1),
         Editor (withText document (hostText st)), applied st)
    end.
Proof.
  intros Hopen Hsettings. unfold updateDocument.
  rewrite Hopen, Hsettings. cbv zeta.
  destruct (updateLoop _ _ _ _ _ _) as [st [error|]]; reflexivity.
Qed.

(** C9. The 'programmatic update in progress' gate is false after every
    call of [updateDocument], whatever the editor, the include map and the
    path taken through the body: normal completion, the early return for
    an editor that is no longer valid, and the exception handler. *)
Theorem updateDocument_resets_gate cfg env m editor includeMap :
  isPerformingUpdate (managerOf (updateDocument cfg env m editor includeMap))
  = false.
Proof.
  unfold updateDocument, managerOf.
  destruct editor as [| |document]; try reflexivity.
  destruct (isClosed document); [reflexivity|].
  destruct (getLanguageSettings _ _) as [languageSettings|e]; [|reflexivity].
  destruct (updateLoop _ _ _ _ _ _) as [st [error|]]; reflexivity.
Qed.

End GateProperties.

(** ** Resolution of the language rules *)

Module LanguageProperties.
Import Text Regex LanguageService.

(** Within the document, the section lookup does not throw. *)
Lemma getSectionOverride_in_range cfg document lineNumber :
  lineNumber < length (split (text document)) ->
  exists r, getSectionOverride cfg document lineNumber = Ret r.
Proof.
  intros Hlt. unfold getSectionOverride.
  destruct (BUILT_IN_SECTION_OVERRIDES ++ languageOverrides cfg) as [|o os] eqn:Ho;
    [eauto|].
  destruct (List.filter _ (o :: os)) as [|r rs]; [eauto|].
  apply Nat.ltb_lt in Hlt. rewrite Hlt. eauto.
Qed.

(** Every language of the extension table has a comment style of its own,
    so that its settings resolve. *)
Lemma detected_language_resolves cfg filePath lang :
  getLanguageFromExtension cfg filePath = Some lang ->
  exists style,
    lookupTable COMMENT_STYLES lang = Some style
    /\ getLanguageSettings cfg lang
       = Ret (mergeSettings (createDefaultSettings style)
                (languageSettings cfg !! lang)).
Proof.
  unfold getLanguageFromExtension.
  destruct (negb (detectFromExtension cfg)); [discriminate|].
  destruct (lastIndexOfDot filePath) as [i|]; [|discriminate].
  unfold lookupTable at 1.
  destruct (List.find _ EXTENSION_TO_LANGUAGE) as [[ext lang']|] eqn:Hf;
    [|discriminate].
  intros [= <-]. apply find_some in Hf as [Hin _].
  unfold getLanguageSettings, getCommentStyle.
  repeat (destruct Hin as [[= <- <-]|Hin];
          [eexists; split; reflexivity|]).
  destruct Hin.
Qed.

(** Within the document, the rules of a line resolve when the settings of
    the document language do. *)
Lemma getContextAwareSettings_in_range
    cfg document lineNumber line path languageSettings :
  getLanguageSettings cfg (languageId document) = Ret languageSettings ->
  lineNumber < length (split (text document)) ->
  exists r, getContextAwareSettings cfg document lineNumber line path = Ret r.
Proof.
  intros Hsettings Hlt. unfold getContextAwareSettings.
  destruct (getCommentStyleOverride line); [eauto|].
  destruct (getSectionOverride_in_range cfg document lineNumber Hlt) as [r ->].
  simpl. destruct r; [eauto|].
  destruct (match path with Some p => _ | None => _ end) as [lang|] eqn:Hd;
    [|eauto].
  assert (Hl : exists p, getLanguageFromExtension cfg p = Some lang).
  { destruct path as [p|]; [|discriminate].
    destruct (isEmpty p); [discriminate|]. eauto. }
  destruct Hl as [p Hl].
  destruct (detected_language_resolves cfg p lang Hl) as (style & _ & ->). eauto.
Qed.

(** The backward scan answers with the nearest line that starts a section
    of a relevant override, and only when no line after it, up to the
    current one, matches the end pattern of that override. *)
Lemma sectionScan_nearest_unclosed relevant lines lineNumber i token :
  sectionScan relevant lines lineNumber i = Some token ->
  exists j override,
    j <= i
    /\ List.find (fun o => test (pattern o) (nth j lines EmptyString)) relevant
       = Some override
    /\ commentStyle override = token
    /\ (forall k, j < k <= i ->
          List.find (fun o => test (pattern o) (nth k lines EmptyString)) relevant
          = None)
    /\ existsb (fun l => test (continueUntil override) l)
         (firstn (lineNumber - j) (skipn (S j) lines)) = false.
Proof.
  induction i as [|i IH]; simpl.
  - destruct (List.find _ relevant) as [o|] eqn:Hf; [|discriminate].
    destruct (existsb _ _) eqn:Hex; [discriminate|].
    intros [= <-]. exists 0, o. repeat split; auto. intros k Hk. lia.
  - destruct (List.find _ relevant) as [o|] eqn:Hf.
    + destruct (existsb _ _) eqn:Hex; [discriminate|].
      intros [= <-]. exists (S i), o. repeat split; auto. intros k Hk. lia.
    + intros H. destruct (IH H) as (j & o & Hj & Hfo & Ho & Hnear & Hopen).
      exists j, o. repeat split; auto.
      intros k Hk. destruct (decide (k = S i)) as [->|]; [exact Hf|].
      apply Hnear. lia.
Qed.

(** A nearest section start that is closed hides every earlier one. *)
Lemma sectionScan_closed relevant lines lineNumber i override :
  List.find (fun o => test (pattern o) (nth i lines EmptyString)) relevant
  = Some override ->
  existsb (fun l => test (continueUntil override) l)
    (firstn (lineNumber - i) (skipn (S i) lines)) = true ->
  sectionScan relevant lines lineNumber i = None.
Proof.
  intros Hf Hex. destruct i; simpl; rewrite Hf, Hex; reflexivity.
Qed.

Lemma existsb_window (f : string -> bool) (l : list string) m s k :
  existsb f (firstn m (skipn s l)) = false ->
  s <= k < s + m -> k < length l ->
  f (nth k l EmptyString) = false.
Proof.
  intros Hex Hk Hlen.
  destruct (f (nth k l EmptyString)) eqn:Hf; [|reflexivity].
  rewrite <- Hex. symmetry. apply existsb_exists.
  exists (nth k l EmptyString). split; [|exact Hf].
  apply list_elem_of_In, list_elem_of_lookup. exists (k - s).
  rewrite lookup_take_lt by lia. rewrite lookup_drop.
  replace (s + (k - s)) with k by lia.
  destruct (lookup_lt_is_Some_2 l k Hlen) as [x Hx].
  rewrite Hx. f_equal. symmetry. apply nth_lookup_Some with (d := EmptyString) in Hx. exact Hx.
Qed.

(** The section override for a line: the comment style of the nearest line,
    going backward, that starts a section of an override for the language of
    the document, given that no line after it, up to the line asked for,
    matches the end pattern of that override. *)
Lemma getSectionOverride_nearest_unclosed cfg document lineNumber token :
  getSectionOverride cfg document lineNumber = Ret (Some token) ->
  let lines := split (text document) in
  let overrides := BUILT_IN_SECTION_OVERRIDES ++ languageOverrides cfg in
  exists j override,
    j <= lineNumber < length lines
    /\ In override overrides
    /\ fileType override = languageId document
    /\ commentStyle override = token
    /\ test (pattern override) (nth j lines EmptyString) = true
    /\ (forall k o,
          j < k <= lineNumber -> In o overrides ->
          fileType o = languageId document ->
          test (pattern o) (nth k lines EmptyString) = false)
    /\ (forall k,
          j < k <= lineNumber ->
          test (continueUntil override) (nth k lines EmptyString) = false).
Proof.
  intros H lines overrides. unfold getSectionOverride in H.
  fold overrides lines in H.
  set (relevant :=
         List.filter (fun o => String.eqb (fileType o) (languageId document))
           overrides) in *.
  assert (Hrel : forall o, In o relevant <->
                   In o overrides /\ fileType o = languageId document).
  { intros o. unfold relevant. rewrite filter_In, String.eqb_eq. reflexivity. }
  clearbody relevant lines overrides.
  destruct overrides as [|o0 os]; [discriminate|].
  destruct relevant as [|r rs] eqn:Hr; [discriminate|]. rewrite <- Hr in *.
  destruct (Nat.ltb_spec lineNumber (length lines)) as [Hlt|]; [|discriminate].
  injection H as H.
  apply sectionScan_nearest_unclosed in H
    as (j & override & Hj & Hfind & Hstyle & Hnear & Hopen).
  apply find_some in Hfind as [Hin Htest]. apply Hrel in Hin as [Hin Htype].
  exists j, override. split_and!; try assumption; try lia.
  - intros k o Hk Ho Hto. specialize (Hnear k Hk).
    apply (find_none _ _ Hnear o). apply Hrel. auto.
  - intros k Hk. apply (existsb_window _ _ _ _ _ Hopen); lia.
Qed.

Lemma getLanguageFromExtension_disabled cfg filePath :
  detectFromExtension cfg = false ->
  getLanguageFromExtension cfg filePath = None.
Proof. unfold getLanguageFromExtension. intros ->. reflexivity. Qed.

(** Going backward from line [i], the scan answers with the first line it
    meets that starts a section, when that section is still open. *)
Lemma sectionScan_found relevant lines lineNumber j override : forall i,
  j <= i ->
  List.find (fun o => test (pattern o) (nth j lines EmptyString)) relevant
  = Some override ->
  (forall k, j < k <= i ->
     List.find (fun o => test (pattern o) (nth k lines EmptyString)) relevant
     = None) ->
  existsb (fun l => test (continueUntil override) l)
    (firstn (lineNumber - j) (skipn (S j) lines)) = false ->
  sectionScan relevant lines lineNumber i = Some (commentStyle override).
Proof.
  induction i as [|i IH]; intros Hj Hfind Hnone Hopen.
  - assert (j = 0) as -> by lia. simpl. rewrite Hfind, Hopen. reflexivity.
  - destruct (decide (j = S i)) as [->|Hne].
    + simpl. rewrite Hfind, Hopen. reflexivity.
    + simpl. rewrite (Hnone (S i)) by lia.
      apply IH; [lia|exact Hfind| |exact Hopen].
      intros k Hk. apply Hnone. lia.
Qed.

Lemma find_none_intro {A : Type} (f : A -> bool) (l : list A) :
  (forall x, In x l -> f x = false) -> List.find f l = None.
Proof.
  induction l as [|x l IH]; intros H; [reflexivity|]. simpl.
  rewrite (H x) by (left; reflexivity). apply IH. intros y Hy. apply H. right. exact Hy.
Qed.

Lemma existsb_window_intro (f : string -> bool) (l : list string) m s :
  (forall k, s <= k < s + m -> k < length l -> f (nth k l EmptyString) = false) ->
  existsb f (firstn m (skipn s l)) = false.
Proof.
  intros H. destruct (existsb f (firstn m (skipn s l))) eqn:Hex; [|reflexivity].
  apply existsb_exists in Hex as (x & Hin & Hfx).
  apply list_elem_of_In, list_elem_of_lookup in Hin as [i Hi].
  pose proof (lookup_lt_Some _ _ _ Hi) as Hlen.
  rewrite length_take, length_drop in Hlen.
  rewrite lookup_take_lt in Hi by lia. rewrite lookup_drop in Hi.
  rewrite <- Hfx.
  rewrite <- (nth_lookup_Some _ _ EmptyString _ Hi). apply H; lia.
Qed.

(** The section override is found: the first override for the language of
    the document whose pattern matches line [j], when no such override
    starts a section on a later line up to the line asked for and none of
    these lines matches the end pattern. *)
Lemma getSectionOverride_found cfg document lineNumber j override :
  let lines := split (text document) in
  let relevant :=
    List.filter (fun o => String.eqb (fileType o) (languageId document))
      (BUILT_IN_SECTION_OVERRIDES ++ languageOverrides cfg) in
  j <= lineNumber < length lines ->
  List.find (fun o => test (pattern o) (nth j lines EmptyString)) relevant
  = Some override ->
  (forall k o, j < k <= lineNumber -> In o relevant ->
     test (pattern o) (nth k lines EmptyString) = false) ->
  (forall k, j < k <= lineNumber ->
     test (continueUntil override) (nth k lines EmptyString) = false) ->
  getSectionOverride cfg document lineNumber = Ret (Some (commentStyle override)).
Proof.
  intros lines relevant Hj Hfind Hlater Hopen.
  unfold getSectionOverride. fold lines. fold relevant.
  destruct (BUILT_IN_SECTION_OVERRIDES ++ languageOverrides cfg) as [|o0 os] eqn:Ho;
    [discriminate Hfind|].
  destruct relevant as [|r rs] eqn:Hr; [discriminate Hfind|]. rewrite <- Hr in *.
  destruct (Nat.ltb_spec lineNumber (length lines)) as [_|]; [|lia].
  f_equal. apply (sectionScan_found _ _ _ j); [lia|exact Hfind| |].
  - intros k Hk. apply find_none_intro. intros o Hin. apply (Hlater k o Hk Hin).
  - apply existsb_window_intro. intros k Hk Hlen. apply Hopen. lia.
Qed.

(** X21. The rules for a line are resolved in a fixed order and the first source
    that applies wins: the inline [with] override of the line; else the
    section override found by the backward scan; else the language detected
    from the extension of the included file, when a path is given and
    detection is enabled; else the language of the document. A language of
    the table has the settings of its own comment style, a language that
    is neither in the table nor an inherited member those of the configured
    default, each merged with the configured settings of the language. The
    section override is the comment style of the nearest line at or above
    the current one that starts a section for the language of the document,
    when that section is not closed by any line after its start up to the
    current line: such a section is found, and nothing else is. *)
Theorem rule_resolution_precedence cfg document lineNumber line includedFilePath :
  (forall token, getCommentStyleOverride line = Some token ->
     getContextAwareSettings cfg document lineNumber line includedFilePath
     = Ret (createDefaultSettings (line_style token)))
  /\ (forall token, getCommentStyleOverride line = None ->
        getSectionOverride cfg document lineNumber = Ret (Some token) ->
        getContextAwareSettings cfg document lineNumber line includedFilePath
        = Ret (createDefaultSettings (line_style token)))
  /\ (forall lang, getCommentStyleOverride line = None ->
        getSectionOverride cfg document lineNumber = Ret None ->
        detectedLanguage cfg includedFilePath = Some lang ->
        getContextAwareSettings cfg document lineNumber line includedFilePath
        = getLanguageSettings cfg lang)
  /\ (getCommentStyleOverride line = None ->
        getSectionOverride cfg document lineNumber = Ret None ->
        detectedLanguage cfg includedFilePath = None ->
        getContextAwareSettings cfg document lineNumber line includedFilePath
        = getLanguageSettings cfg (languageId document))
  /\ (detectFromExtension cfg = false -> detectedLanguage cfg includedFilePath = None)
  /\ (includedFilePath = None -> detectedLanguage cfg includedFilePath = None)
  /\ (forall lang style, lookupTable COMMENT_STYLES lang = Some style ->
        getLanguageSettings cfg lang
        = Ret (mergeSettings (createDefaultSettings style)
                 (languageSettings cfg !! lang)))
  /\ (forall lang, lookupTable COMMENT_STYLES lang = None ->
        inheritedMember lang = false ->
        getLanguageSettings cfg lang
        = Ret (mergeSettings
                 (createDefaultSettings (line_style (defaultCommentStyle cfg)))
                 (languageSettings cfg !! lang)))
  /\ (forall token,
        getSectionOverride cfg document lineNumber = Ret (Some token) ->
        let lines := split (text document) in
        let overrides := BUILT_IN_SECTION_OVERRIDES ++ languageOverrides cfg in
        exists j override,
          j <= lineNumber < length lines
          /\ In override overrides
          /\ fileType override = languageId document
          /\ commentStyle override = token
          /\ test (pattern override) (nth j lines EmptyString) = true
          /\ (forall k o,
                j < k <= lineNumber -> In o overrides ->
                fileType o = languageId document ->
                test (pattern o) (nth k lines EmptyString) = false)
          /\ (forall k,
                j < k <= lineNumber ->
                test (continueUntil override) (nth k lines EmptyString) = false))
  /\ (forall j override,
        let lines := split (text document) in
        let relevant :=
          List.filter (fun o => String.eqb (fileType o) (languageId document))
            (BUILT_IN_SECTION_OVERRIDES ++ languageOverrides cfg) in
        j <= lineNumber < length lines ->
        List.find (fun o => test (pattern o) (nth j lines EmptyString)) relevant
        = Some override ->
        (forall k o, j < k <= lineNumber -> In o relevant ->
           test (pattern o) (nth k lines EmptyString) = false) ->
        (forall k, j < k <= lineNumber ->
           test (continueUntil override) (nth k lines EmptyString) = false) ->
        getSectionOverride cfg document lineNumber
        = Ret (Some (commentStyle override))).
Proof.
  unfold getContextAwareSettings, detectedLanguage.
  split_and!;
    [| | | | | | | |apply getSectionOverride_nearest_unclosed
     |apply getSectionOverride_found].
  - intros token ->. reflexivity.
  - intros token -> ->. reflexivity.
  - intros lang -> -> Hd. simpl. rewrite Hd. reflexivity.
  - intros -> -> Hd. simpl. rewrite Hd. reflexivity.
  - intros Hoff. destruct includedFilePath as [p|]; [|reflexivity].
    destruct (isEmpty p); [reflexivity|].
    apply getLanguageFromExtension_disabled, Hoff.
  - intros ->. reflexivity.
  - intros lang style Hstyle. unfold getLanguageSettings, getCommentStyle.
    rewrite Hstyle. reflexivity.
  - intros lang Hstyle Hown. unfold getLanguageSettings, getCommentStyle.
    rewrite Hstyle, Hown. reflexivity.
Qed.

(** A YAML document with a template section, whose second line carries an
    inline override, and the lines used to exercise the order: the inline
    token [//] wins over the section, the section token [--] over the
    extension, the extension [.js] over the language of the document, and
    the document language [yaml] gives [#]. *)
Lemma rule_resolution_precedence_witness :
  let document :=
    {| uri := "file:///w/c.yaml"; fsPath := "/w/c.yaml"; languageId := "yaml";
       text := join ["template: >-"; "  -- virtualInclude 'a.py' with '//'";
                     "k: v"; "# virtualInclude 'a.js'"];
       isClosed := false |} in
  getContextAwareSettings Posix.defaultConfig document 1
    "  -- virtualInclude 'a.py' with '//'" (Some "/w/a.py")
  = Ret (createDefaultSettings (line_style "//"))
  /\ getSectionOverride Posix.defaultConfig document 1 = Ret (Some "--")
  /\ getContextAwareSettings Posix.defaultConfig document 1
       "  -- virtualInclude 'a.py'" (Some "/w/a.py")
     = Ret (createDefaultSettings (line_style "--"))
  /\ getContextAwareSettings Posix.defaultConfig document 3
       "# virtualInclude 'a.js'" (Some "/w/a.js")
     = Ret (createDefaultSettings (line_style "//"))
  /\ getContextAwareSettings Posix.defaultConfig document 3
       "# virtualInclude 'a.js'" None
     = Ret (createDefaultSettings (line_style "#"))
  /\ getLanguageSettings Posix.defaultConfig "css"
     = Ret (createDefaultSettings {| cs_start := "/*"; cs_end := "*/" |})
  /\ getLanguageSettings Posix.defaultConfig "plaintext"
     = Ret (createDefaultSettings (line_style "#")).
Proof.
  intros document.
  pose proof (rule_resolution_precedence Posix.defaultConfig document 1
                "  -- virtualInclude 'a.py' with '//'" (Some "/w/a.py"))
    as (Hinline & _).
  pose proof (rule_resolution_precedence Posix.defaultConfig document 1
                "  -- virtualInclude 'a.py'" (Some "/w/a.py"))
    as (_ & Hsection & _ & _ & _ & _ & _ & _ & _ & Hfound).
  pose proof (rule_resolution_precedence Posix.defaultConfig document 3
                "# virtualInclude 'a.js'" (Some "/w/a.js"))
    as (_ & _ & Hextension & _ & _ & _ & Hown & _).
  pose proof (rule_resolution_precedence Posix.defaultConfig document 3
                "# virtualInclude 'a.js'" None)
    as (_ & _ & _ & Hdocument & _ & _ & _ & Hdefault & _).
  assert (Hsec : getSectionOverride Posix.defaultConfig document 1 = Ret (Some "--")).
  { apply (Hfound 0 {| fileType := "yaml";
                       pattern := [Plain (RSeq (RLit "template:")
                                            (RSeq (RStar false ws) (RLit ">-")))];
                       commentStyle := "--";
                       continueUntil := [Plain (RSeq RBol nonws)] |}).
    - vm_compute. lia.
    - vm_compute. reflexivity.
    - intros k o Hk [<-|[]]. assert (k = 1) as -> by lia. vm_compute. reflexivity.
    - intros k Hk. assert (k = 1) as -> by lia. vm_compute. reflexivity. }
  split; [apply Hinline; vm_compute; reflexivity|].
  split; [exact Hsec|].
  split; [apply Hsection; [vm_compute; reflexivity|exact Hsec]|].
  split.
  { rewrite (Hextension "javascript") by (vm_compute; reflexivity).
    apply (Hown "javascript" (line_style "//")). vm_compute. reflexivity. }
  split.
  { rewrite Hdocument by (vm_compute; reflexivity).
    apply (Hown "yaml" (line_style "#")). vm_compute. reflexivity. }
  split.
  { apply (Hown "css" {| cs_start := "/*"; cs_end := "*/" |}).
    vm_compute. reflexivity. }
  apply Hdefault; vm_compute; reflexivity.
Defined.

(** C8 fails on the code. The language id [constructor] is not in the table
    of comment styles, yet the lookup in the table finds the member of that
    name that every object inherits, so the configured default style is not
    used: the settings of the language throw, so do the rules of a line
    without override in a document of that language, and a pass over the
    document reports the exception and includes nothing. The id [plaintext],
    not in the table either, does get the configured default [#], and the
    same document is expanded. *)
Theorem inherited_name_gets_no_default_style :
  let cfg := Posix.defaultConfig in
  let env := Posix.env [("/w/a.txt", "hello")] in
  let line := "# virtualInclude 'a.txt'" in
  let documentOf lang :=
    {| uri := "file:///w/main"; fsPath := "/w/main"; languageId := lang;
       text := join [line; "x = 1"]; isClosed := false |} in
  (lookupTable COMMENT_STYLES "constructor" = None
   /\ lookupTable COMMENT_STYLES "plaintext" = None)
  /\ getCommentStyle cfg "constructor" = InheritedMember "constructor"
  /\ getLanguageSettings cfg "constructor" = Throw undefinedReplace
  /\ getContextAwareSettings cfg (documentOf "constructor") 0 line None
     = Throw undefinedReplace
  /\ DocumentProcessor.processDocument cfg env Posix.emptyManager
       (DocumentProcessor.Editor (documentOf "constructor"))
     = (DocumentProcessor.showErrorMessage ("Extension error: " +:+ undefinedReplace)
          Posix.emptyManager,
        DocumentProcessor.Editor (documentOf "constructor"), [])
  /\ getLanguageSettings cfg "plaintext"
     = Ret (createDefaultSettings (line_style "#"))
  /\ DocumentProcessor.linesOf
       (DocumentProcessor.processDocument cfg env Posix.emptyManager
          (DocumentProcessor.Editor (documentOf "plaintext")))
     = [line; Posix.startPy; "hello"; Posix.endPy; EmptyString; "x = 1"].
Proof. repeat split; vm_compute; reflexivity. Qed.

End LanguageProperties.

(** ** The scan *)

Module ScanProperties.
Import Text Regex LanguageService DocumentProcessor.

(** A pass for a language whose settings cannot be resolved: the
    exception is reported and nothing else happens. *)
Lemma processDocument_unresolved cfg env m document error :
  getLanguageSettings cfg (languageId document) = Throw error ->
  processDocument cfg env m (Editor document)
  = (showErrorMessage ("Extension error: " +:+ error) m, Editor document, []).
Proof. intros H. unfold processDocument. rewrite H. reflexivity. Qed.

(** A pass with the settings resolved: the scan, then the update when the
    scan asks for one. *)
Lemma processDocument_resolved cfg env m document languageSettings :
  getLanguageSettings cfg (languageId document) = Ret languageSettings ->
  processDocument cfg env m (Editor document)
  = let m1 :=
      match documentWatchers m !! uri document with
      | Some _ => deleteDocumentWatchers (uri document) m
      | None => m
      end in
    let st0 := {| manager := setDocumentIncludes (uri document) [] m1;
                  includeMap := []; watchers := []; needsEdit := false |} in
    match scanLoop cfg env document languageSettings (split (text document)) 0
            (split (text document)) st0 with
    | (st, Some error) =>
        (showErrorMessage ("Extension error: " +:+ error) (manager st),
         Editor document, [])
    | (st, None) =>
        let m3 := setDocumentWatchers (uri document) (watchers st) (manager st) in
        if needsEdit st
        then updateDocument cfg env m3 (Editor document) (includeMap st)
        else (m3, Editor document, [])
    end.
Proof. intros H. unfold processDocument. rewrite H. reflexivity. Qed.

Section Scan.
Variables (cfg : Config) (env : Env) (document : TextDocument).
Variables (languageSettings : LanguageSettings) (lines : list string).

Local Abbreviation scanLine := (scanLine cfg env document languageSettings lines).
Local Abbreviation scanLoop := (scanLoop cfg env document languageSettings lines).
Local Abbreviation scanInclude := (scanInclude cfg env document languageSettings lines).

(** What an accepted directive does to the source mapping: the key of
    the document is added under the resolved path, or nothing happens. *)
Lemma scanInclude_sources i line resolvedPath st :
  sourceToDocuments (manager (scanInclude i line resolvedPath st))
  = sourceToDocuments (manager st)
  \/ sourceToDocuments (manager (scanInclude i line resolvedPath st))
     = <[resolvedPath :=
           {[uri document]} ∪ associatedDocuments (manager st) resolvedPath]>
         (sourceToDocuments (manager st)).
Proof.
  unfold DocumentProcessor.scanInclude.
  destruct (fs_existsSync env resolvedPath); [|left; reflexivity].
  destruct (fs_readFileSync env resolvedPath) as [content|e]; [|left; reflexivity].
  destruct (getContextAwareSettings _ _ _ _ _); right; reflexivity.
Qed.

Lemma scanLine_sources st i line :
  sourceToDocuments (manager (fst (scanLine st i line)))
  = sourceToDocuments (manager st)
  \/ exists resolvedPath,
       sourceToDocuments (manager (fst (scanLine st i line)))
       = <[resolvedPath :=
             {[uri document]} ∪ associatedDocuments (manager st) resolvedPath]>
           (sourceToDocuments (manager st)).
Proof.
  unfold DocumentProcessor.scanLine.
  destruct (getContextAwareSettings _ _ _ _ _) as [ctx|e]; [|left; reflexivity].
  destruct (exec (includeDirectivePattern ctx) line) as [m|]; [|left; reflexivity].
  destruct (match exec COMMENT_OVERRIDE_REGEX line with
            | Some o => _ | None => _ end) as [fp|]; [|left; reflexivity].
  destruct (_isSelfInclude env document fp); [left; reflexivity|].
  simpl. destruct (scanInclude_sources i line
                     (_resolveIncludePath env document fp) st) as [H|H];
    [left|right; eexists]; exact H.
Qed.

(** An association is never removed by an iteration, and a new one is an
    association of this document. *)
Lemma scanLine_associations st i line p k :
  (k ∈ associatedDocuments (manager st) p ->
   k ∈ associatedDocuments (manager (fst (scanLine st i line))) p)
  /\ (k ∈ associatedDocuments (manager (fst (scanLine st i line))) p ->
      k ∈ associatedDocuments (manager st) p \/ k = uri document).
Proof.
  unfold associatedDocuments at 2 3.
  destruct (scanLine_sources st i line) as [->|[q ->]]; [tauto|].
  destruct (decide (q = p)) as [->|Hne].
  - rewrite lookup_insert_eq. simpl. fold (associatedDocuments (manager st) p).
    rewrite elem_of_union, elem_of_singleton. tauto.
  - rewrite lookup_insert_ne by done. tauto.
Qed.

Lemma scanLoop_associations rest : forall i st p k,
  (k ∈ associatedDocuments (manager st) p ->
   k ∈ associatedDocuments (manager (fst (scanLoop i rest st))) p)
  /\ (k ∈ associatedDocuments (manager (fst (scanLoop i rest st))) p ->
      k ∈ associatedDocuments (manager st) p \/ k = uri document).
Proof.
  induction rest as [|line rest IH]; intros i st p k; simpl; [tauto|].
  pose proof (scanLine_associations st i line p k) as [H1 H2].
  destruct (scanLine st i line) as [st' [e|]]; simpl in *; [tauto|].
  destruct (IH (S i) st' p k) as [H3 H4]. split; [tauto|].
  intros H. destruct (H4 H); tauto.
Qed.


(** *** Self-includes *)

Lemma scanLine_self_include st i line filePath :
  directivePath cfg document i line = Some filePath ->
  _isSelfInclude env document filePath = true ->
  scanLine st i line = (selfIncludeWarning filePath st, None).
Proof.
  unfold directivePath, DocumentProcessor.scanLine.
  destruct (getContextAwareSettings _ _ _ _ _) as [ctx|e]; [|discriminate].
  destruct (exec (includeDirectivePattern ctx) line) as [m|]; [|discriminate].
  intros -> ->. reflexivity.
Qed.

Lemma scanInclude_includeMap i line resolvedPath st :
  includeMap (scanInclude i line resolvedPath st) = includeMap st
  \/ exists content,
       includeMap (scanInclude i line resolvedPath st)
       = includeMap st ++ [(i, content)].
Proof.
  unfold DocumentProcessor.scanInclude.
  destruct (fs_existsSync env resolvedPath); [|left; reflexivity].
  destruct (fs_readFileSync env resolvedPath) as [content|e]; [|left; reflexivity].
  destruct (getContextAwareSettings _ _ _ _ _); right; eexists; reflexivity.
Qed.

(** An entry of the include map comes from a directive that passed the
    self-include check. *)
Lemma scanLine_includeMap st i line k content :
  (k, content) ∈ includeMap (fst (scanLine st i line)) ->
  (k, content) ∈ includeMap st
  \/ (k = i /\ exists filePath,
         directivePath cfg document i line = Some filePath
         /\ _isSelfInclude env document filePath = false).
Proof.
  unfold directivePath, DocumentProcessor.scanLine.
  destruct (getContextAwareSettings _ _ _ _ _) as [ctx|e]; [|simpl; tauto].
  destruct (exec (includeDirectivePattern ctx) line) as [m|]; [|simpl; tauto].
  destruct (match exec COMMENT_OVERRIDE_REGEX line with
            | Some o => _ | None => _ end) as [fp|]; [|simpl; tauto].
  destruct (_isSelfInclude env document fp) eqn:Hself; [simpl; tauto|].
  simpl.
  destruct (scanInclude_includeMap i line (_resolveIncludePath env document fp) st)
    as [->|[c ->]]; [tauto|].
  rewrite elem_of_app, list_elem_of_singleton.
  intros [H|[= -> ->]]; [tauto|]. right. eauto.
Qed.

Lemma scanLoop_includeMap rest : forall i st k content,
  (k, content) ∈ includeMap (fst (scanLoop i rest st)) ->
  (k, content) ∈ includeMap st
  \/ (i <= k /\ exists line filePath,
         rest !! (k - i) = Some line
         /\ directivePath cfg document k line = Some filePath
         /\ _isSelfInclude env document filePath = false).
Proof.
  induction rest as [|line rest IH]; intros i st k content; simpl; [tauto|].
  pose proof (scanLine_includeMap st i line k content) as Hline.
  destruct (scanLine st i line) as [st' [e|]]; simpl in *.
  - intros H. destruct (Hline H) as [?|(-> & fp & ? & ?)]; [tauto|].
    right. split; [lia|]. exists line, fp. rewrite Nat.sub_diag. auto.
  - intros H. destruct (IH (S i) st' k content H)
      as [H'|(Hle & l & fp & Hl & Hd & Hs)].
    + destruct (Hline H') as [?|(-> & fp & ? & ?)]; [tauto|].
      right. split; [lia|]. exists line, fp. rewrite Nat.sub_diag. auto.
    + right. split; [lia|]. exists l, fp.
      replace (k - i) with (S (k - S i)) by lia. auto.
Qed.

End Scan.

Section Scan2.
Variables (cfg : Config) (env : Env) (document : TextDocument).
Variables (languageSettings : LanguageSettings) (lines : list string).

Local Abbreviation scanLine := (scanLine cfg env document languageSettings lines).
Local Abbreviation scanLoop := (scanLoop cfg env document languageSettings lines).
Local Abbreviation scanInclude := (scanInclude cfg env document languageSettings lines).

Lemma scanLine_watched st i line :
  watchedAssociated document st -> watchedAssociated document (fst (scanLine st i line)).
Proof.
  intros Hw p Hp.
  assert (Hmono : uri document ∈ associatedDocuments (manager st) p ->
                  uri document ∈ associatedDocuments (manager (fst (scanLine st i line))) p).
  { apply scanLine_associations. }
  revert Hp Hmono. unfold DocumentProcessor.scanLine.
  destruct (getContextAwareSettings _ _ _ _ _) as [ctx|e]; [|simpl; auto].
  destruct (exec (includeDirectivePattern ctx) line) as [m|]; [|simpl; auto].
  destruct (match exec COMMENT_OVERRIDE_REGEX line with
            | Some o => _ | None => _ end) as [fp|]; [|simpl; auto].
  destruct (_isSelfInclude env document fp); [simpl; auto|].
  simpl. unfold DocumentProcessor.scanInclude.
  destruct (fs_existsSync env _); [|simpl; auto].
  destruct (fs_readFileSync env _) as [content|e]; [|simpl; auto].
  destruct (getContextAwareSettings _ _ _ _ _) as [ctx2|e]; [|simpl; auto].
  simpl. rewrite elem_of_app, list_elem_of_singleton.
  intros [Hp| ->] Hmono; [auto|].
  unfold associatedDocuments. simpl. rewrite lookup_insert_eq. simpl.
  apply elem_of_union_l, elem_of_singleton. reflexivity.
Qed.

Lemma scanLoop_watched rest : forall i st,
  watchedAssociated document st -> watchedAssociated document (fst (scanLoop i rest st)).
Proof.
  induction rest as [|line rest IH]; intros i st Hw; simpl; [exact Hw|].
  pose proof (scanLine_watched st i line Hw) as Hw'.
  destruct (scanLine st i line) as [st' [e|]]; simpl in *; [exact Hw'|].
  apply IH, Hw'.
Qed.

Lemma scanLine_documentWatchers st i line :
  documentWatchers (manager (fst (scanLine st i line))) = documentWatchers (manager st).
Proof.
  unfold DocumentProcessor.scanLine.
  destruct (getContextAwareSettings _ _ _ _ _) as [ctx|e]; [|reflexivity].
  destruct (exec (includeDirectivePattern ctx) line) as [m|]; [|reflexivity].
  destruct (match exec COMMENT_OVERRIDE_REGEX line with
            | Some o => _ | None => _ end) as [fp|]; [|reflexivity].
  destruct (_isSelfInclude env document fp); [reflexivity|].
  simpl. unfold DocumentProcessor.scanInclude.
  destruct (fs_existsSync env _); [|reflexivity].
  destruct (fs_readFileSync env _) as [content|e]; [|reflexivity].
  destruct (getContextAwareSettings _ _ _ _ _) as [ctx2|e]; reflexivity.
Qed.

Lemma scanLoop_documentWatchers rest : forall i st,
  documentWatchers (manager (fst (scanLoop i rest st))) = documentWatchers (manager st).
Proof.
  induction rest as [|line rest IH]; intros i st; simpl; [reflexivity|].
  pose proof (scanLine_documentWatchers st i line) as Hl.
  destruct (scanLine st i line) as [st' [e|]]; simpl in *; [exact Hl|].
  rewrite IH. exact Hl.
Qed.

End Scan2.

Lemma updateDocument_sources cfg env m editor includeMap :
  sourceToDocuments (managerOf (updateDocument cfg env m editor includeMap))
  = sourceToDocuments m.
Proof.
  unfold updateDocument, managerOf.
  destruct editor as [| |document]; try reflexivity.
  destruct (isClosed document); [reflexivity|].
  destruct (getLanguageSettings _ _) as [languageSettings|e]; [|reflexivity].
  destruct (updateLoop _ _ _ _ _ _) as [st [error|]]; reflexivity.
Qed.

Lemma updateDocument_documentWatchers cfg env m editor includeMap :
  documentWatchers (managerOf (updateDocument cfg env m editor includeMap))
  = documentWatchers m.
Proof.
  unfold updateDocument, managerOf.
  destruct editor as [| |document]; try reflexivity.
  destruct (isClosed document); [reflexivity|].
  destruct (getLanguageSettings _ _) as [languageSettings|e]; [|reflexivity].
  destruct (updateLoop _ _ _ _ _ _) as [st [error|]]; reflexivity.
Qed.

(** After a scan, every source path watched for the document has the
    document among its associated documents. *)
Lemma scan_associates_watched cfg env m document languageSettings ws p :
  getLanguageSettings cfg (languageId document) = Ret languageSettings ->
  documentWatchers (managerOf (processDocument cfg env m (Editor document)))
    !! uri document = Some ws ->
  p ∈ ws ->
  uri document
    ∈ associatedDocuments (managerOf (processDocument cfg env m (Editor document))) p.
Proof.
  intros Hsettings.
  rewrite (processDocument_resolved _ _ _ _ _ Hsettings). cbv zeta.
  set (ls := languageSettings).
  set (m1 := match documentWatchers m !! uri document with
             | Some _ => deleteDocumentWatchers (uri document) m
             | None => m
             end).
  set (st0 := {| manager := setDocumentIncludes (uri document) [] m1;
                 includeMap := []; watchers := []; needsEdit := false |}).
  assert (Hw0 : watchedAssociated document st0).
  { intros q Hq. inversion Hq. }
  assert (Hd0 : documentWatchers (manager st0) !! uri document = None).
  { unfold st0, m1. simpl. destruct (documentWatchers m !! uri document) eqn:Hd.
    - simpl. apply lookup_delete_eq.
    - exact Hd. }
  clearbody st0.
  pose proof (scanLoop_watched cfg env document ls (split (text document))
                (split (text document)) 0 st0 Hw0) as Hw.
  pose proof (scanLoop_documentWatchers cfg env document ls (split (text document))
                (split (text document)) 0 st0) as Hd.
  destruct (scanLoop _ _ _ _ _ _ _ _) as [st [error|]]; simpl in Hw, Hd.
  - unfold managerOf. simpl. rewrite Hd, Hd0. discriminate.
  - assert (Hgoal : forall m',
              documentWatchers m' = <[uri document := watchers st]> (documentWatchers (manager st)) ->
              sourceToDocuments m' = sourceToDocuments (manager st) ->
              documentWatchers m' !! uri document = Some ws -> p ∈ ws ->
              uri document ∈ associatedDocuments m' p).
    { intros m' Hdw Hsd. rewrite Hdw, lookup_insert_eq. intros [= <-] Hp.
      unfold associatedDocuments. rewrite Hsd. apply Hw, Hp. }
    destruct (needsEdit st).
    + apply Hgoal.
      * rewrite updateDocument_documentWatchers. reflexivity.
      * rewrite updateDocument_sources. reflexivity.
    + apply Hgoal; reflexivity.
Qed.

Section Added.
Variables (cfg : Config) (env : Env) (document : TextDocument).
Variables (languageSettings : LanguageSettings) (lines : list string).

Local Abbreviation scanLine := (scanLine cfg env document languageSettings lines).
Local Abbreviation scanLoop := (scanLoop cfg env document languageSettings lines).

(** An iteration that does not throw goes on to the next line. *)
Lemma scanLine_goes_on st i line :
  scanThrows cfg document i line = false -> snd (scanLine st i line) = None.
Proof.
  unfold scanThrows, DocumentProcessor.scanLine.
  destruct (getContextAwareSettings _ _ _ _ _) as [ctx|e]; [|discriminate].
  destruct (exec (includeDirectivePattern ctx) line) as [m|]; [|reflexivity].
  destruct (exec COMMENT_OVERRIDE_REGEX line) as [o|].
  - destruct (group line o 1) as [fp|]; [|discriminate]. intros _.
    destruct (_isSelfInclude env document fp); reflexivity.
  - destruct (group line m 1) as [fp|]; [|discriminate]. intros _.
    destruct (_isSelfInclude env document fp); reflexivity.
Qed.

(** The iteration at a directive whose file exists and is read associates
    the document with the resolved path. *)
Lemma scanLine_adds st i line filePath content :
  directivePath cfg document i line = Some filePath ->
  _isSelfInclude env document filePath = false ->
  fs_existsSync env (_resolveIncludePath env document filePath) = true ->
  fs_readFileSync env (_resolveIncludePath env document filePath) = Ret content ->
  uri document
    ∈ associatedDocuments (manager (fst (scanLine st i line)))
        (_resolveIncludePath env document filePath).
Proof.
  unfold directivePath, DocumentProcessor.scanLine.
  destruct (getContextAwareSettings _ _ _ _ _) as [ctx|e]; [|discriminate].
  destruct (exec (includeDirectivePattern ctx) line) as [m|]; [|discriminate].
  intros -> -> Hexists Hread. cbn [fst].
  unfold DocumentProcessor.scanInclude. rewrite Hexists, Hread.
  assert (Hin : uri document
                  ∈ associatedDocuments
                      (addSourceToDocument (_resolveIncludePath env document filePath)
                         (uri document)
                         (manager (setInclude (uri document) i content st)))
                      (_resolveIncludePath env document filePath)).
  { unfold associatedDocuments. simpl. rewrite lookup_insert_eq. simpl.
    apply elem_of_union_l, elem_of_singleton. reflexivity. }
  destruct (getContextAwareSettings _ _ _ _ _); exact Hin.
Qed.

(** The scan associates the document with the source of every directive it
    reaches whose file exists and is read. *)
Lemma scanLoop_adds rest : forall i0 st i line filePath content,
  i0 <= i ->
  rest !! (i - i0) = Some line ->
  directivePath cfg document i line = Some filePath ->
  _isSelfInclude env document filePath = false ->
  fs_existsSync env (_resolveIncludePath env document filePath) = true ->
  fs_readFileSync env (_resolveIncludePath env document filePath) = Ret content ->
  (forall j l, i0 <= j < i -> rest !! (j - i0) = Some l ->
     scanThrows cfg document j l = false) ->
  uri document
    ∈ associatedDocuments (manager (fst (scanLoop i0 rest st)))
        (_resolveIncludePath env document filePath).
Proof.
  induction rest as [|x rest IH];
    intros i0 st i line filePath content Hle Hline Hpath Hself Hexists Hread Hreach;
    [discriminate|].
  simpl. destruct (decide (i = i0)) as [->|Hne].
  - rewrite Nat.sub_diag in Hline. injection Hline as ->.
    pose proof (scanLine_adds st i0 line filePath content Hpath Hself Hexists Hread)
      as Hadd.
    destruct (scanLine st i0 line) as [st' [e|]]; simpl in *; [exact Hadd|].
    apply (scanLoop_associations cfg env document languageSettings lines), Hadd.
  - pose proof (scanLine_goes_on st i0 x) as Hgo.
    rewrite (Hreach i0 x) in Hgo; [|lia|rewrite Nat.sub_diag; reflexivity].
    specialize (Hgo eq_refl).
    destruct (scanLine st i0 x) as [st' [e|]]; simpl in Hgo; [discriminate|].
    apply (IH (S i0) st' i line filePath content); try assumption; [lia| |].
    + replace (i - i0) with (S (i - S i0)) in Hline by lia. exact Hline.
    + intros j l Hj Hl. apply (Hreach j l); [lia|].
      replace (j - i0) with (S (j - S i0)) by lia. exact Hl.
Qed.

End Added.

(** C2, as the code has it. A scan only adds to the source mapping: every
    association held before the scan is still held after it, every
    association that is new is one of the scanned document, the document is
    associated with every source path watched for it after the scan, and it
    is associated with the resolved path of every directive that the scan
    reaches and whose file exists and is read. Nothing is removed for a
    source the document no longer references. *)
Theorem scan_only_adds_associations cfg env m editor p k :
  (k ∈ associatedDocuments m p ->
   k ∈ associatedDocuments (managerOf (processDocument cfg env m editor)) p)
  /\ (k ∈ associatedDocuments (managerOf (processDocument cfg env m editor)) p ->
      k ∈ associatedDocuments m p
      \/ exists document, editor = Editor document /\ k = uri document)
  /\ (forall document languageSettings ws,
        editor = Editor document ->
        getLanguageSettings cfg (languageId document) = Ret languageSettings ->
        documentWatchers (managerOf (processDocument cfg env m editor))
          !! uri document = Some ws ->
        p ∈ ws ->
        uri document
          ∈ associatedDocuments (managerOf (processDocument cfg env m editor)) p)
  /\ (forall document languageSettings i line filePath content,
        editor = Editor document ->
        getLanguageSettings cfg (languageId document) = Ret languageSettings ->
        split (text document) !! i = Some line ->
        directivePath cfg document i line = Some filePath ->
        _isSelfInclude env document filePath = false ->
        p = _resolveIncludePath env document filePath ->
        fs_existsSync env p = true ->
        fs_readFileSync env p = Ret content ->
        (forall j l, j < i -> split (text document) !! j = Some l ->
           scanThrows cfg document j l = false) ->
        uri document
          ∈ associatedDocuments (managerOf (processDocument cfg env m editor)) p).
Proof.
  split_and!.
  3: { intros document languageSettings ws -> Hsettings.
       apply (scan_associates_watched _ _ _ _ _ _ _ Hsettings). }
  3: { intros document languageSettings i line filePath content
         -> Hsettings Hline Hpath Hself -> Hexists Hread Hreach.
       rewrite (processDocument_resolved _ _ _ _ _ Hsettings). cbv zeta.
       match goal with
       | |- context [scanLoop _ _ _ _ _ _ _ ?st0] =>
           pose proof (scanLoop_adds cfg env document languageSettings
                         (split (text document)) (split (text document)) 0 st0
                         i line filePath content (Nat.le_0_l i)) as Hadd
       end.
       rewrite Nat.sub_0_r in Hadd.
       specialize (Hadd Hline Hpath Hself Hexists Hread).
       assert (Hreach' : forall j l, 0 <= j < i ->
                 split (text document) !! (j - 0) = Some l ->
                 scanThrows cfg document j l = false).
       { intros j l Hj Hl. rewrite Nat.sub_0_r in Hl. apply (Hreach j l); [lia|exact Hl]. }
       specialize (Hadd Hreach').
       destruct (scanLoop _ _ _ _ _ _ _ _) as [st [error|]]; simpl in Hadd.
       - exact Hadd.
       - destruct (needsEdit st).
         + unfold associatedDocuments. rewrite updateDocument_sources. exact Hadd.
         + exact Hadd. }
  all: revert k p.
  all: enough (Hmain : forall p k,
            (k ∈ associatedDocuments m p ->
             k ∈ associatedDocuments (managerOf (processDocument cfg env m editor)) p)
            /\ (k ∈ associatedDocuments (managerOf (processDocument cfg env m editor)) p ->
                k ∈ associatedDocuments m p
                \/ exists document, editor = Editor document /\ k = uri document))
         by (intros k p; apply (Hmain p k)).
  all: intros p k.
  all: destruct editor as [| |document]; try (simpl; tauto).
  all: destruct (getLanguageSettings cfg (languageId document))
         as [languageSettings|error] eqn:Hsettings;
       [rewrite (processDocument_resolved _ _ _ _ _ Hsettings)
       |rewrite (processDocument_unresolved _ _ _ _ _ Hsettings);
        unfold managerOf, associatedDocuments; simpl; tauto].
  all: cbv zeta.
  all: set (m1 := match documentWatchers m !! uri document with
                  | Some _ => deleteDocumentWatchers (uri document) m
                  | None => m
                  end).
  all: set (st0 := {| manager := setDocumentIncludes (uri document) [] m1;
                      includeMap := []; watchers := []; needsEdit := false |}).
  all: assert (Hm0 : associatedDocuments (manager st0) p = associatedDocuments m p)
         by (unfold associatedDocuments, st0, m1; simpl;
             destruct (documentWatchers m !! uri document); reflexivity).
  all: pose proof (scanLoop_associations cfg env document languageSettings
                     (split (text document)) (split (text document)) 0 st0 p k)
         as [H1 H2].
  all: rewrite Hm0 in H1, H2.
  all: destruct (scanLoop _ _ _ _ _ _ _ _) as [st [error|]]; simpl in H1, H2.
  all: try (destruct (needsEdit st);
            [unfold associatedDocuments at 2 3; rewrite updateDocument_sources;
             simpl; fold (associatedDocuments (manager st) p)|]).
  all: try (unfold managerOf, associatedDocuments in *; simpl).
  all: (split; [exact H1|]); intros H; destruct (H2 H); eauto.
Qed.

Lemma scan_only_adds_associations_witness :
  let env := Posix.env [("/w/s.txt", "source")] in
  let editor :=
    Posix.editorOn "a.py" "python" ["# virtualInclude 's.txt'"; "x = 1"] in
  "file:///w/a.py"
    ∈ associatedDocuments
        (managerOf (processDocument Posix.defaultConfig env Posix.emptyManager editor))
        "/w/s.txt".
Proof.
  intros env editor.
  pose proof (scan_only_adds_associations Posix.defaultConfig env
                Posix.emptyManager editor "/w/s.txt" "file:///w/a.py")
    as (_ & _ & _ & Hadded).
  apply (Hadded {| uri := "file:///w/a.py"; fsPath := "/w/a.py";
                   languageId := "python";
                   text := join ["# virtualInclude 's.txt'"; "x = 1"];
                   isClosed := false |}
           (createDefaultSettings (line_style "#")) 0
           "# virtualInclude 's.txt'" "s.txt" "source");
    try (vm_compute; reflexivity).
  intros j l Hj. lia.
Defined.

(** C2, as the specification states it, fails: document [a.py] first includes
    [s.txt], then is scanned again without the directive, and the set of
    [s.txt] still holds the document. *)
Lemma stale_association_survives :
  let env := Posix.env [("/w/s.txt", "source")] in
  let first :=
    processDocument Posix.defaultConfig env Posix.emptyManager
      (Posix.editorOn "a.py" "python" ["# virtualInclude 's.txt'"; "x = 1"]) in
  let second :=
    processDocument Posix.defaultConfig env (managerOf first)
      (Posix.editorOn "a.py" "python" ["x = 1"]) in
  documentIncludes (managerOf second) !! "file:///w/a.py" = Some []
  /\ "file:///w/a.py" ∈ associatedDocuments (managerOf second) "/w/s.txt".
Proof.
  split; [vm_compute; reflexivity|].
  apply (bool_decide_unpack _). vm_compute. exact I.
Qed.

End ScanProperties.

(** ** Facts about text *)

Module TextFacts.
Import Text.

Lemma append_nil_l s : EmptyString +:+ s = s.
Proof. reflexivity. Qed.

Lemma append_cons c a b : String c a +:+ b = String c (a +:+ b).
Proof. reflexivity. Qed.

Lemma append_nil_r s : s +:+ EmptyString = s.
Proof. induction s; rewrite ?append_nil_l, ?append_cons; congruence. Qed.

Lemma append_assoc a b c : (a +:+ b) +:+ c = a +:+ (b +:+ c).
Proof. induction a; rewrite ?append_nil_l, ?append_cons; congruence. Qed.

Lemma length_append a b :
  String.length (a +:+ b) = String.length a + String.length b.
Proof. induction a; rewrite ?append_nil_l, ?append_cons; simpl; congruence. Qed.

Lemma split_nonempty s : split s <> [].
Proof.
  destruct s as [|c s]; simpl; [discriminate|].
  destruct (Ascii.eqb c newline); [discriminate|].
  destruct (split s); discriminate.
Qed.

(** Splitting at a line feed splits the list of lines. *)
Lemma split_append_newline a b :
  split (a +:+ String newline b) = split a ++ split b.
Proof.
  induction a as [|c a IH]; rewrite ?append_nil_l, ?append_cons; simpl.
  - reflexivity.
  - destruct (Ascii.eqb c newline); [rewrite IH; reflexivity|].
    rewrite IH. destruct (split a) as [|l ls] eqn:Ha; [destruct (split_nonempty a Ha)|].
    reflexivity.
Qed.

Lemma split_newline_end a :
  split (a +:+ String newline EmptyString) = split a ++ [EmptyString].
Proof. apply split_append_newline. Qed.

Lemma take_append a b : take (String.length a) (a +:+ b) = a.
Proof.
  induction a; rewrite ?append_nil_l, ?append_cons; simpl;
    [destruct b; reflexivity|congruence].
Qed.

Lemma drop_append a b : drop (String.length a) (a +:+ b) = b.
Proof.
  induction a; rewrite ?append_nil_l, ?append_cons; simpl;
    [destruct b; reflexivity|assumption].
Qed.

Lemma take_drop n s : take n s +:+ drop n s = s.
Proof.
  revert s. induction n as [|n IH]; intros [|c s]; simpl; try reflexivity.
  rewrite append_cons, IH. reflexivity.
Qed.

Lemma join_cons_char c l ls : join (String c l :: ls) = String c (join (l :: ls)).
Proof. destruct ls; reflexivity. Qed.

Lemma join_split s : join (split s) = s.
Proof.
  induction s as [|c s IH]; [reflexivity|]. simpl.
  destruct (split s) as [|l ls] eqn:Hs; [destruct (split_nonempty s Hs)|].
  destruct (Ascii.eqb_spec c newline) as [->|Hc].
  - change (join (EmptyString :: l :: ls))
      with (EmptyString +:+ String newline (join (l :: ls))).
    rewrite IH. reflexivity.
  - rewrite join_cons_char, IH. reflexivity.
Qed.

Lemma split_singleLine l : singleLine l = true -> split l = [l].
Proof.
  induction l as [|c l IH]; [reflexivity|]. simpl.
  destruct (Ascii.eqb c newline); [discriminate|]. simpl.
  intros H. rewrite (IH H). reflexivity.
Qed.

Lemma split_join lines :
  lines <> [] -> forallb singleLine lines = true -> split (join lines) = lines.
Proof.
  induction lines as [|l lines IH]; [congruence|]. intros _ Hall.
  simpl in Hall. apply andb_true_iff in Hall as [Hl Hall].
  destruct lines as [|l2 lines]; [apply split_singleLine, Hl|].
  change (join (l :: l2 :: lines)) with (l +:+ String newline (join (l2 :: lines))).
  rewrite split_append_newline, (split_singleLine l Hl), IH by (congruence || assumption).
  reflexivity.
Qed.

Lemma split_singleLines s : forallb singleLine (split s) = true.
Proof.
  induction s as [|c s IH]; [reflexivity|]. simpl.
  destruct (Ascii.eqb c newline) eqn:Hc; [simpl; exact IH|].
  destruct (split s) as [|l ls]; simpl in *; rewrite Hc; simpl;
    [reflexivity|exact IH].
Qed.

Lemma singleLine_append a b :
  singleLine (a +:+ b) = singleLine a && singleLine b.
Proof.
  induction a as [|c a IH]; [reflexivity|].
  rewrite append_cons. simpl. rewrite IH, andb_assoc. reflexivity.
Qed.

Lemma startsWith_append t s : startsWith t (t +:+ s) = true.
Proof.
  induction t as [|c t IH]; [reflexivity|].
  rewrite append_cons. simpl. rewrite Ascii.eqb_refl. exact IH.
Qed.

(** The text of two blocks of lines is the two texts with a line feed
    between them. *)
Lemma join_app (a b : list string) :
  a <> [] -> b <> [] -> join (a ++ b) = join a +:+ String newline (join b).
Proof.
  induction a as [|x a IH]; [congruence|]. intros _ Hb.
  destruct a as [|y a].
  - simpl. destruct b; [congruence|reflexivity].
  - change (join ((x :: y :: a) ++ b))
      with (x +:+ String newline (join ((y :: a) ++ b))).
    rewrite IH by (congruence || assumption).
    change (join (x :: y :: a)) with (x +:+ String newline (join (y :: a))).
    rewrite append_assoc, append_cons. reflexivity.
Qed.

Lemma join_take_drop k (lines : list string) :
  0 < k < length lines ->
  join lines = join (firstn k lines) +:+ String newline (join (skipn k lines)).
Proof.
  intros Hk. rewrite <- (firstn_skipn k lines) at 1.
  apply join_app.
  - intros H. apply (f_equal length) in H. rewrite length_firstn in H. simpl in H. lia.
  - intros H. apply (f_equal length) in H. rewrite length_skipn in H. simpl in H. lia.
Qed.

Lemma length_join_cons x y (l : list string) :
  String.length (join (x :: y :: l))
  = String.length x + 1 + String.length (join (y :: l)).
Proof.
  change (join (x :: y :: l)) with (x +:+ String newline (join (y :: l))).
  rewrite length_append. simpl. lia.
Qed.

Lemma take_all s : take (String.length s) s = s.
Proof. rewrite <- (append_nil_r s) at 2. apply take_append. Qed.

Lemma drop_all s : drop (String.length s) s = EmptyString.
Proof. rewrite <- (append_nil_r s) at 2. apply drop_append. Qed.

Lemma take_append_one a c b :
  take (String.length a + 1) (a +:+ String c b) = a +:+ String c EmptyString.
Proof.
  replace (String.length a + 1) with (String.length (a +:+ String c EmptyString))
    by (rewrite length_append; reflexivity).
  replace (a +:+ String c b) with ((a +:+ String c EmptyString) +:+ b)
    by (rewrite append_assoc; reflexivity).
  apply take_append.
Qed.

Lemma drop_append_one a c b : drop (String.length a + 1) (a +:+ String c b) = b.
Proof.
  replace (String.length a + 1) with (String.length (a +:+ String c EmptyString))
    by (rewrite length_append; reflexivity).
  replace (a +:+ String c b) with ((a +:+ String c EmptyString) +:+ b)
    by (rewrite append_assoc; reflexivity).
  apply drop_append.
Qed.

Lemma firstn_nonempty {A} k (l : list A) : 0 < k -> l <> [] -> firstn k l <> [].
Proof. destruct k; [lia|]. destruct l; [congruence|discriminate]. Qed.

Lemma skipn_nonempty {A} k (l : list A) : k < length l -> skipn k l <> [].
Proof.
  intros Hk H. apply (f_equal length) in H. rewrite length_skipn in H. simpl in H. lia.
Qed.

Lemma forallb_firstn {A} (p : A -> bool) k l :
  forallb p l = true -> forallb p (firstn k l) = true.
Proof.
  revert k. induction l as [|x l IH]; intros [|k] H; try reflexivity.
  simpl in *. apply andb_true_iff in H as [-> H]. simpl. apply IH, H.
Qed.

Lemma forallb_skipn {A} (p : A -> bool) k l :
  forallb p l = true -> forallb p (skipn k l) = true.
Proof.
  revert k. induction l as [|x l IH]; intros [|k] H; try reflexivity; try exact H.
  simpl in *. apply andb_true_iff in H as [_ H]. apply IH, H.
Qed.

Lemma singleLine_indentOf line :
  singleLine line = true -> singleLine (indentOf line) = true.
Proof.
  induction line as [|c line IH]; [reflexivity|]. simpl.
  intros H. apply andb_true_iff in H as [Hc H].
  destruct (is_ws c); [|reflexivity]. simpl. rewrite Hc, (IH H). reflexivity.
Qed.

Lemma forallb_lookup {A} (p : A -> bool) (l : list A) i x :
  forallb p l = true -> l !! i = Some x -> p x = true.
Proof.
  revert i. induction l as [|y l IH]; intros [|i] H Hx; try discriminate;
    simpl in *; apply andb_true_iff in H as [Hy H].
  - injection Hx as <-. exact Hy.
  - exact (IH i H Hx).
Qed.

End TextFacts.

(** ** Facts about the matcher *)

Module RegexFacts.
Import Text Regex TextFacts.

Lemma starLoop_sound {A : Type} r lazy
    (body : nat -> string -> (nat -> string -> option A) -> option A) :
  sound r body ->
  forall fuel pos s k x,
    starLoop body lazy k fuel pos s = Some x ->
    exists w rest,
      s = w +:+ rest /\ matches (RStar lazy r) pos w rest
      /\ k (pos + String.length w) rest = Some x.
Proof.
  intros Hbody.
  assert (Hstop : forall pos s (k : nat -> string -> option A) x,
            k pos s = Some x ->
            exists w rest,
              s = w +:+ rest /\ matches (RStar lazy r) pos w rest
              /\ k (pos + String.length w) rest = Some x).
  { intros pos s k x Hk. exists EmptyString, s. simpl. rewrite Nat.add_0_r.
    split; [reflexivity|]. split; [constructor|exact Hk]. }
  induction fuel as [|fuel IH]; intros pos s k x; simpl.
  - destruct lazy; destruct (k pos s) eqn:Hk; try discriminate;
      intros [= <-]; apply Hstop, Hk.
  - set (more := body pos s _).
    assert (Hmore : more = Some x ->
              exists w rest,
                s = w +:+ rest /\ matches (RStar lazy r) pos w rest
                /\ k (pos + String.length w) rest = Some x).
    { unfold more. intros Hm.
      destruct (Hbody _ _ _ _ Hm) as (w1 & rest1 & -> & Hw1 & Hk1).
      destruct (Nat.ltb _ _); [|discriminate].
      destruct (IH _ _ _ _ Hk1) as (w2 & rest & -> & Hw2 & Hk2).
      exists (w1 +:+ w2), rest. rewrite append_assoc. split; [reflexivity|].
      split; [constructor; assumption|].
      rewrite length_append, Nat.add_assoc. exact Hk2. }
    destruct lazy.
    + destruct (k pos s) eqn:Hk; [intros [= <-]; apply Hstop, Hk|exact Hmore].
    + destruct more eqn:Hm; [intros [= <-]; apply Hmore; reflexivity|].
      intros Hk. apply Hstop, Hk.
Qed.

Lemma rmatch_sound {A : Type} r : sound (A := A) r (rmatch r).
Proof.
  induction r as [| | |p|r1 IH1 r2 IH2|r1 IH1 r2 IH2|lazy r IH];
    intros pos s k x; simpl.
  - intros Hk. exists EmptyString, s. simpl. rewrite Nat.add_0_r.
    split; [reflexivity|]. split; [constructor|exact Hk].
  - destruct (Nat.eqb_spec pos 0) as [->|]; [|discriminate].
    intros Hk. exists EmptyString, s. split; [reflexivity|]. split; [constructor|exact Hk].
  - destruct s; [|discriminate]. simpl.
    intros Hk. exists EmptyString, EmptyString. rewrite Nat.add_0_r.
    split; [reflexivity|]. split; [constructor|exact Hk].
  - destruct s as [|c s]; [discriminate|]. destruct (p c) eqn:Hp; [|discriminate].
    intros Hk. exists (String c EmptyString), s. simpl.
    replace (pos + 1) with (S pos) by lia.
    split; [reflexivity|]. split; [constructor; exact Hp|exact Hk].
  - intros H. destruct (IH1 _ _ _ _ H) as (w1 & rest1 & -> & Hw1 & Hk1).
    destruct (IH2 _ _ _ _ Hk1) as (w2 & rest & -> & Hw2 & Hk2).
    exists (w1 +:+ w2), rest. rewrite append_assoc. split; [reflexivity|].
    split; [constructor; assumption|].
    rewrite length_append, Nat.add_assoc. exact Hk2.
  - destruct (rmatch r1 pos s k) eqn:H1.
    + intros [= <-]. destruct (IH1 _ _ _ _ H1) as (w & rest & -> & Hw & Hk).
      exists w, rest. split; [reflexivity|]. split; [apply MAltL, Hw|exact Hk].
    + intros H2. destruct (IH2 _ _ _ _ H2) as (w & rest & -> & Hw & Hk).
      exists w, rest. split; [reflexivity|]. split; [apply MAltR, Hw|exact Hk].
  - apply starLoop_sound, IH.
Qed.

Lemma matches_RLit t : forall pos w rest, matches (RLit t) pos w rest -> w = t.
Proof.
  induction t as [|c t IH]; intros pos w rest H; simpl in H.
  - inversion H. reflexivity.
  - inversion H as [| | | |r1 r2 pos' w1 w2 rest' H1 H2| | | |]; subst.
    inversion H1 as [| | |p pos'' c' rest'' Hc| | | | |]; subst.
    apply Ascii.eqb_eq in Hc. subst c'.
    rewrite (IH _ _ _ H2). reflexivity.
Qed.

End RegexFacts.

(** ** The update pass *)

Module UpdateProperties.
Import Text Regex LanguageService DocumentProcessor TextFacts.

Lemma popEmptyLast_snoc l : popEmptyLast (l ++ [EmptyString]) = l.
Proof.
  unfold popEmptyLast. rewrite last_snoc. apply removelast_last.
Qed.

Lemma split_regionText s c e :
  split (regionText s c e) = (split s ++ split c ++ split e) ++ [EmptyString].
Proof.
  unfold regionText, newline_s.
  rewrite !append_cons, !append_nil_l.
  rewrite !split_append_newline. simpl. rewrite <- !app_assoc. reflexivity.
Qed.

Lemma findFrom_Some p l : forall j e,
  findFrom p j l = Some e ->
  j <= e < j + length l
  /\ (exists x, l !! (e - j) = Some x /\ p x = true)
  /\ (forall k x, k < e - j -> l !! k = Some x -> p x = false).
Proof.
  induction l as [|y l IH]; intros j e; simpl; [discriminate|].
  destruct (p y) eqn:Hy.
  - intros [= <-]. rewrite Nat.sub_diag. split; [lia|]. split.
    + exists y. auto.
    + intros k x Hk. lia.
  - intros H. destruct (IH _ _ H) as (Hb & (x & Hx & Hpx) & Hfirst).
    split; [lia|]. split.
    + exists x. replace (e - j) with (S (e - S j)) by lia. auto.
    + intros k z Hk. destruct k as [|k]; simpl.
      * intros [= <-]. exact Hy.
      * apply Hfirst. lia.
Qed.

Lemma repairBound_bounds d l : forall j acc,
  acc <= j ->
  acc <= repairBound d j l acc <= Nat.max acc (j + length l - 1).
Proof.
  induction l as [|x l IH]; intros j acc Hle; simpl; [lia|].
  destruct (test d x); [lia|].
  specialize (IH (S j) j ltac:(lia)). lia.
Qed.

Lemma length_sliceLines a b (l : list string) :
  length (sliceLines a b l) = Nat.min (b - a) (length l - a).
Proof. unfold sliceLines. rewrite length_firstn, length_skipn. reflexivity. Qed.

Section Step.
Variables (cfg : Config) (env : Env) (document : TextDocument).
Variable languageSettings : LanguageSettings.

Lemma includeStep_Ret st n content st' :
  includeStep cfg env document languageSettings st (n, content) = Ret st' ->
  (st' = st
   /\ ((Z.of_nat (length (currentLines st)) <= Z.of_nat n + lineOffset st)%Z
       \/ currentLines st !! (Z.to_nat (Z.of_nat n + lineOffset st) + 1) = None))
  \/ exists a includeLine ctx nextLine lo edit,
       (Z.of_nat n + lineOffset st)%Z = Z.of_nat a
       /\ currentLines st !! a = Some includeLine
       /\ getContextAwareSettings cfg (withText document (hostText st)) a
            includeLine (Some (stepResolvedPath env document includeLine)) = Ret ctx
       /\ currentLines st !! (a + 1) = Some nextLine
       /\ a + 1 <= lo <= length (currentLines st)
       /\ lineOffset st'
          = (lineOffset st
             + Z.of_nat (length (regionLines languageSettings ctx
                                   (indentOf includeLine) content))
             - Z.of_nat (lo - (a + 1)))%Z
       /\ currentLines st'
          = firstn (a + 1) (currentLines st)
            ++ regionLines languageSettings ctx (indentOf includeLine) content
            ++ skipn lo (currentLines st)
       /\ hostText st' = applyEdit edit (hostText st)
       /\ applied st' = applied st ++ [(n, edit)]
       /\ ((isStartMarker languageSettings ctx nextLine = false
            /\ lo = a + 1
            /\ edit = EInsert a (String.length includeLine)
                        (newline_s +:+ regionTextOf languageSettings ctx
                                         (indentOf includeLine) content))
           \/ (isStartMarker languageSettings ctx nextLine = true
               /\ edit = EReplace (a + 1) lo
                           (regionTextOf languageSettings ctx
                              (indentOf includeLine) content)
               /\ match findFrom (isEndMarker languageSettings ctx) (a + 2)
                          (skipn (a + 2) (currentLines st)) with
                  | Some endLine => lo = endLine + 1
                  | None =>
                      lo = repairBound (includeDirectivePattern ctx) (a + 2)
                             (sliceLines (a + 2)
                                (Nat.min (length (currentLines st)) (a + 1 + 20))
                                (currentLines st))
                             (a + 2)
                  end)).
Proof.
  unfold includeStep.
  destruct (Z.of_nat (length (currentLines st)) <=? Z.of_nat n + lineOffset st)%Z eqn:Hge;
    [intros [= <-]; left; split; [reflexivity|left; apply Z.leb_le, Hge]|].
  apply Z.leb_gt in Hge.
  destruct (Z.of_nat n + lineOffset st <? 0)%Z eqn:Hneg; [discriminate|].
  apply Z.ltb_ge in Hneg.
  set (a := Z.to_nat (Z.of_nat n + lineOffset st)).
  assert (Ha : (Z.of_nat n + lineOffset st)%Z = Z.of_nat a) by (unfold a; lia).
  destruct (currentLines st !! a) as [includeLine|] eqn:Hline; [|discriminate].
  fold (stepResolvedPath env document includeLine).
  destruct (getContextAwareSettings _ _ _ _ _) as [ctx|e] eqn:Hctx; [|discriminate].
  cbn [bindExc].
  destruct (currentLines st !! (a + 1)) as [nextLine|] eqn:Hnext;
    [|intros [= <-]; left; split; [reflexivity|right; reflexivity]].
  pose proof (lookup_lt_Some _ _ _ Hnext) as Hlen.
  fold (isStartMarker languageSettings ctx nextLine).
  fold (regionTextOf languageSettings ctx (indentOf includeLine) content).
  assert (Hsplit : split (regionTextOf languageSettings ctx (indentOf includeLine) content)
                   = regionLines languageSettings ctx (indentOf includeLine) content
                     ++ [EmptyString]).
  { unfold regionTextOf, regionLines. apply split_regionText. }
  clearbody a.
  destruct (isStartMarker languageSettings ctx nextLine) eqn:Hstart.
  - (* replace *)
    rewrite Hsplit, popEmptyLast_snoc.
    assert (Hcount : length (regionLines languageSettings ctx (indentOf includeLine) content
                             ++ [EmptyString]) - 1
                     = length (regionLines languageSettings ctx (indentOf includeLine) content)).
    { rewrite length_app. simpl. lia. }
    rewrite Hcount.
    replace (a + 1 + 1) with (a + 2) by lia.
    change (fun l => markerIs (endMarkerTemplate ctx) l
                     || markerIs (endMarkerTemplate languageSettings) l)
      with (isEndMarker languageSettings ctx).
    destruct (findFrom (isEndMarker languageSettings ctx) (a + 2)
                (skipn (a + 2) (currentLines st))) as [endLine|] eqn:Hend.
    + intros [= <-]. right.
      destruct (findFrom_Some _ _ _ _ Hend) as (Hb & _).
      rewrite length_skipn in Hb.
      exists a, includeLine, ctx, nextLine, (endLine + 1), 
        (EReplace (a + 1) (endLine + 1)
           (regionTextOf languageSettings ctx (indentOf includeLine) content)).
      simpl. split_and!; try first [assumption | reflexivity | lia].
      * unfold splice.
        replace (a + 1 + (endLine + 1 - (a + 1))) with (endLine + 1) by lia.
        reflexivity.
      * right. rewrite Hend. auto.
    + intros [= <-]. right.
      pose proof (repairBound_bounds (includeDirectivePattern ctx)
                    (sliceLines (a + 2)
                       (Nat.min (length (currentLines st)) (a + 1 + 20))
                       (currentLines st)) (a + 2) (a + 2) ltac:(lia)) as Hb.
      rewrite length_sliceLines in Hb.
      set (lo := repairBound _ _ _ _) in *.
      exists a, includeLine, ctx, nextLine, lo,
        (EReplace (a + 1) lo
           (regionTextOf languageSettings ctx (indentOf includeLine) content)).
      simpl. split_and!; try first [assumption | reflexivity | lia].
      * unfold splice.
        replace (a + 1 + (lo - (a + 1))) with lo by lia.
        reflexivity.
      * right. rewrite Hend. auto.
  - (* insert *)
    assert (Hs2 : split (newline_s +:+ regionTextOf languageSettings ctx
                                         (indentOf includeLine) content)
                  = (EmptyString :: regionLines languageSettings ctx
                                      (indentOf includeLine) content)
                    ++ [EmptyString]).
    { unfold newline_s. rewrite append_cons, append_nil_l. simpl. rewrite Hsplit. reflexivity. }
    cbv zeta. rewrite Hs2, popEmptyLast_snoc.
    intros [= <-]. right.
    exists a, includeLine, ctx, nextLine, (a + 1),
      (EInsert a (String.length includeLine)
         (newline_s +:+ regionTextOf languageSettings ctx (indentOf includeLine) content)).
    simpl. split_and!; try first [assumption | reflexivity | lia].
    * unfold splice. rewrite Nat.add_0_r. reflexivity.
    * left. auto.
Qed.
End Step.

Local Arguments DocumentProcessor.includeStep : simpl never.

Section Loop.
Variables (cfg : Config) (env : Env) (document : TextDocument).
Variable languageSettings : LanguageSettings.

Local Abbreviation includeStep := (includeStep cfg env document languageSettings).
Local Abbreviation updateLoop := (updateLoop cfg env document languageSettings).

(** The running offset stays in step with the processor's copy of the
    lines. *)
Lemma includeStep_tracked n0 st entry st' :
  tracked n0 st -> includeStep st entry = Ret st' -> tracked n0 st'.
Proof.
  destruct entry as [n content]. intros Htr Hstep.
  destruct (includeStep_Ret _ _ _ _ _ _ _ _ Hstep)
    as [[-> _]|(a & il & ctx & nl & lo & edit & Ha & Hil & Hctx & Hnl & Hlo & Hoff & Hcur & _)];
    [assumption|].
  pose proof (lookup_lt_Some _ _ _ Hnl) as Hlen.
  unfold tracked in *. rewrite Hoff, Hcur, Htr.
  rewrite !length_app, length_firstn, length_skipn. lia.
Qed.

(** An iteration applies at most one edit, for its own entry, and only when
    a line follows the directive in the processor's copy. *)
Lemma includeStep_applied st n content st' :
  includeStep st (n, content) = Ret st' ->
  applied st' = applied st
  \/ exists edit,
       applied st' = applied st ++ [(n, edit)]
       /\ (Z.of_nat n + lineOffset st + 1 < Z.of_nat (length (currentLines st)))%Z.
Proof.
  intros Hstep.
  destruct (includeStep_Ret _ _ _ _ _ _ _ _ Hstep)
    as [[-> _]|(a & il & ctx & nl & lo & edit & Ha & Hil & Hctx & Hnl & Hlo & Hoff & Hcur
            & Hhost & Happ & _)];
    [left; reflexivity|].
  right. exists edit. split; [assumption|].
  pose proof (lookup_lt_Some _ _ _ Hnl) as Hlen. lia.
Qed.

(** Every edit of a pass belongs to an entry of the include map, and to a
    directive that is not on the last of the [n0] lines of the document. *)
Lemma updateLoop_applied n0 entries : forall st,
  tracked n0 st ->
  forall k edit,
    (k, edit) ∈ applied (fst (updateLoop entries st)) ->
    (k, edit) ∈ applied st
    \/ ((exists content, (k, content) ∈ entries) /\ k + 1 < n0).
Proof.
  induction entries as [|[n content] entries IH]; intros st Htr k edit; simpl.
  { intros H. left. exact H. }
  destruct (includeStep st (n, content)) as [st'|e] eqn:Hstep; simpl;
    [|intros H; left; exact H].
  intros Hin.
  pose proof (includeStep_tracked n0 st _ st' Htr Hstep) as Htr'.
  destruct (IH st' Htr' k edit Hin) as [Happ|[[c Hc] Hk]].
  - destruct (includeStep_applied _ _ _ _ Hstep) as [Heq|(ed & Heq & Hlt)].
    + rewrite Heq in Happ. tauto.
    + rewrite Heq in Happ. apply elem_of_app in Happ as [?|Hlast]; [tauto|].
      apply list_elem_of_singleton in Hlast as [= -> ->].
      right. split.
      * exists content. apply list_elem_of_here.
      * unfold tracked in Htr. lia.
  - right. split; [|assumption]. exists c. apply list_elem_of_further, Hc.
Qed.

End Loop.

Lemma insertEntry_elem e l x : x ∈ insertEntry e l <-> x = e \/ x ∈ l.
Proof.
  induction l as [|y l IH]; simpl.
  - rewrite list_elem_of_singleton, elem_of_nil. tauto.
  - destruct (Nat.leb (fst y) (fst e)).
    + rewrite !elem_of_cons, IH. tauto.
    + rewrite !elem_of_cons. tauto.
Qed.

Lemma sortEntries_elem l x : x ∈ sortEntries l <-> x ∈ l.
Proof.
  unfold sortEntries.
  assert (Hrev : x ∈ rev l <-> x ∈ l).
  { rewrite !list_elem_of_In. symmetry. apply in_rev. }
  rewrite <- Hrev. clear Hrev.
  induction (rev l) as [|y r IH]; simpl; [tauto|].
  rewrite insertEntry_elem, elem_of_cons. tauto.
Qed.

Lemma updateDocument_edits cfg env m document includeMap k edit :
  (k, edit) ∈ editsOf (updateDocument cfg env m (Editor document) includeMap) ->
  (exists content, (k, content) ∈ includeMap)
  /\ k + 1 < length (split (text document)).
Proof.
  unfold updateDocument, editsOf.
  destruct (isClosed document); [simpl; intros H; inversion H|].
  destruct (getLanguageSettings cfg (languageId document)) as [languageSettings|e];
    [|simpl; intros H; inversion H].
  set (st0 := {| lineOffset := 0; currentLines := split (text document);
                 hostText := text document; applied := [] |}).
  assert (Htr : tracked (length (split (text document))) st0).
  { unfold tracked, st0. simpl. lia. }
  pose proof (updateLoop_applied cfg env document languageSettings
                (length (split (text document))) (sortEntries includeMap) st0 Htr
                k edit) as Hloop.
  destruct (DocumentProcessor.updateLoop _ _ _ _ _ _) as [st [error|]]; simpl in *;
    intros Hin; destruct (Hloop Hin) as [Hnil|[[c Hc] Hk]];
    try (inversion Hnil); (split; [exists c; apply sortEntries_elem, Hc|exact Hk]).
Qed.

Lemma processDocument_edits cfg env m document k edit :
  (k, edit) ∈ editsOf (processDocument cfg env m (Editor document)) ->
  k + 1 < length (split (text document))
  /\ exists languageSettings content st0,
       getLanguageSettings cfg (languageId document) = Ret languageSettings
       /\ includeMap st0 = []
       /\ (k, content)
            ∈ includeMap
                (fst (scanLoop cfg env document languageSettings
                        (split (text document)) 0 (split (text document)) st0)).
Proof.
  unfold processDocument.
  destruct (getLanguageSettings cfg (languageId document)) as [languageSettings|e];
    [|simpl; intros H; inversion H].
  match goal with
  | |- context [scanLoop _ _ _ _ _ _ _ ?s] => set (st0 := s)
  end.
  destruct (scanLoop _ _ _ _ _ _ _ st0) as [st [error|]] eqn:Hscan;
    [simpl; intros H; inversion H|].
  destruct (needsEdit st); [|simpl; intros H; inversion H].
  intros Hin. apply updateDocument_edits in Hin as [[c Hc] Hk].
  split; [exact Hk|]. exists languageSettings, c, st0.
  split; [reflexivity|]. split; [reflexivity|].
  rewrite Hscan. exact Hc.
Qed.

(** C10. A directive on the last line of the document is classified by the
    scan as not yet expanded, and the update pass makes no edit for it:
    nothing is inserted after a last-line directive. *)
Theorem last_line_directive_never_expanded cfg env m document includeMap i :
  i + 1 = length (split (text document)) ->
  (forall languageSettings contextAwareSettings line content,
     inspectRegion languageSettings contextAwareSettings
       (split (text document)) i line content = NotExpanded)
  /\ (forall edit,
        (i, edit) ∉ editsOf (updateDocument cfg env m (Editor document) includeMap))
  /\ (forall edit,
        (i, edit) ∉ editsOf (processDocument cfg env m (Editor document))).
Proof.
  intros Hlast. split_and!.
  - intros ls ctx line content. unfold inspectRegion.
    rewrite lookup_ge_None_2 by lia. reflexivity.
  - intros edit Hin. apply updateDocument_edits in Hin as [_ Hk]. lia.
  - intros edit Hin. apply processDocument_edits in Hin as [Hk _]. lia.
Qed.

Lemma last_line_directive_never_expanded_witness :
  let env := Posix.env [("/w/a.txt", "hello")] in
  let document :=
    {| uri := "file:///w/main.py"; fsPath := "/w/main.py"; languageId := "python";
       text := join ["x = 1"; "# virtualInclude 'a.txt'"]; isClosed := false |} in
  needsEdit
    (fst (scanLoop Posix.defaultConfig env document
            Posix.python
            (split (text document)) 0 (split (text document))
            {| manager := Posix.emptyManager; includeMap := []; watchers := [];
               needsEdit := false |})) = true
  /\ forall edit,
       (1, edit) ∉ editsOf (processDocument Posix.defaultConfig env
                              Posix.emptyManager (Editor document)).
Proof.
  intros env document. split; [vm_compute; reflexivity|].
  apply (last_line_directive_never_expanded Posix.defaultConfig env
           Posix.emptyManager document [] 1).
  vm_compute. reflexivity.
Defined.

End UpdateProperties.

(** ** Self-includes *)

Module SelfIncludeProperties.
Import Text Regex LanguageService DocumentProcessor ScanProperties UpdateProperties.

(** C4. A directive whose resolved target, once normalised, equals the
    normalised path of the document (compared in lower case on Windows and
    as written elsewhere) is rejected by the scan: the iteration shows
    exactly one warning and changes nothing else, the loop goes on with the
    lines that follow, the include map of the scan never holds the line,
    and no edit is made for it; this whatever the settings the scan runs
    with. *)
Theorem self_include_rejected
    cfg env m document languageSettings pre line post filePath :
  split (text document) = pre ++ line :: post ->
  directivePath cfg document (length pre) line = Some filePath ->
  (let target := path_normalize env (_resolveIncludePath env document filePath) in
   let own := path_normalize env (fsPath document) in
   if win32 env then toLowerCase target = toLowerCase own else target = own) ->
  let lines := split (text document) in
  let i := length pre in
  (forall st,
     scanLine cfg env document languageSettings lines st i line
     = (selfIncludeWarning filePath st, None))
  /\ (forall st,
        warningMessages (manager (selfIncludeWarning filePath st))
        = warningMessages (manager st)
          ++ ["Cannot include a file in itself: " +:+ filePath]
        /\ errorMessages (manager (selfIncludeWarning filePath st))
           = errorMessages (manager st)
        /\ includeMap (selfIncludeWarning filePath st) = includeMap st
        /\ needsEdit (selfIncludeWarning filePath st) = needsEdit st)
  /\ (forall st,
        scanLoop cfg env document languageSettings lines i (line :: post) st
        = scanLoop cfg env document languageSettings lines (S i) post
            (selfIncludeWarning filePath st))
  /\ (forall st0 content,
        includeMap st0 = [] ->
        (i, content)
          ∉ includeMap (fst (scanLoop cfg env document languageSettings
                               lines 0 lines st0)))
  /\ (forall edit,
        (i, edit) ∉ editsOf (processDocument cfg env m (Editor document))).
Proof.
  intros Hlines Hdir Hsame lines i. set (ls := languageSettings).
  assert (Hmap : forall ls st0 content,
            includeMap st0 = [] ->
            (i, content)
              ∉ includeMap (fst (scanLoop cfg env document ls lines 0 lines st0))).
  { intros ls' st0 content Hnil Hin.
    apply scanLoop_includeMap in Hin as [Hin|(_ & l & fp & Hl & Hd & Hs)].
    - rewrite Hnil in Hin. inversion Hin.
    - rewrite Nat.sub_0_r in Hl. unfold lines, i in Hl. rewrite Hlines in Hl.
      rewrite list_lookup_middle in Hl by reflexivity. injection Hl as <-.
      unfold i in Hd. rewrite Hdir in Hd. injection Hd as <-.
      assert (_isSelfInclude env document filePath = true); [|congruence].
      unfold _isSelfInclude. simpl in Hsame.
      destruct (win32 env); apply String.eqb_eq; exact Hsame. }
  assert (Hself : _isSelfInclude env document filePath = true).
  { unfold _isSelfInclude. simpl in Hsame.
    destruct (win32 env); apply String.eqb_eq; exact Hsame. }
  assert (Hstep : forall st,
            scanLine cfg env document ls lines st i line
            = (selfIncludeWarning filePath st, None)).
  { intros st. apply scanLine_self_include; assumption. }
  split_and!.
  - exact Hstep.
  - intros st. split_and!; reflexivity.
  - intros st. simpl. rewrite Hstep. reflexivity.
  - exact (Hmap ls).
  - intros edit Hin.
    apply processDocument_edits in Hin as (_ & ls' & content & st0 & _ & Hnil & Hin).
    exact (Hmap ls' st0 content Hnil Hin).
Qed.

(** A document of two directives, the first of which names the document
    itself: one warning, and the second directive is expanded. *)
Lemma self_include_rejected_witness :
  let env := Posix.env [("/w/a.txt", "hello")] in
  let document :=
    {| uri := "file:///w/main.py"; fsPath := "/w/main.py"; languageId := "python";
       text := join ["# virtualInclude './main.py'"; "# virtualInclude 'a.txt'"; "x = 1"];
       isClosed := false |} in
  let result := processDocument Posix.defaultConfig env Posix.emptyManager (Editor document) in
  warningMessages (managerOf result) = ["Cannot include a file in itself: ./main.py"]
  /\ linesOf result
     = ["# virtualInclude './main.py'"; "# virtualInclude 'a.txt'";
        "# virtualIncludeStart - DO NOT EDIT CONTENT BELOW "; "hello";
        "# virtualIncludeEnd - DO NOT EDIT CONTENT ABOVE "; EmptyString; "x = 1"]
  /\ forall edit, (0, edit) ∉ editsOf result.
Proof.
  intros env document result.
  split; [vm_compute; reflexivity|].
  split; [vm_compute; reflexivity|].
  apply (self_include_rejected Posix.defaultConfig env Posix.emptyManager document
           Posix.python [] "# virtualInclude './main.py'"
           ["# virtualInclude 'a.txt'"; "x = 1"] "./main.py");
    vm_compute; reflexivity.
Defined.

End SelfIncludeProperties.

(** ** Edits and the lines of the document *)

Module EditFacts.
Import Text Regex LanguageService DocumentProcessor TextFacts.

(** The offset of the end of line [k]. *)
Lemma offsetIn_line_end (lines : list string) : forall k l,
  lines !! k = Some l ->
  offsetIn lines k (String.length l) = String.length (join (firstn (S k) lines)).
Proof.
  induction lines as [|x lines IH]; intros k l Hl; [discriminate|].
  destruct k as [|k].
  - injection Hl as ->. destruct lines; simpl; lia.
  - simpl in Hl. destruct lines as [|y lines]; [discriminate|].
    change (offsetIn (x :: y :: lines) (S k) (String.length l))
      with (String.length x + 1 + offsetIn (y :: lines) k (String.length l)).
    rewrite (IH k l Hl).
    change (firstn (S (S k)) (x :: y :: lines))
      with (x :: firstn (S k) (y :: lines)).
    simpl firstn. rewrite length_join_cons. reflexivity.
Qed.

(** The offset of the start of line [k], for a line of the document other
    than the first. *)
Lemma offsetIn_line_start (lines : list string) : forall k,
  0 < k < length lines ->
  offsetIn lines k 0 = String.length (join (firstn k lines)) + 1.
Proof.
  induction lines as [|x lines IH]; intros k Hk; [simpl in Hk; lia|].
  destruct k as [|k]; [lia|].
  destruct lines as [|y lines]; [simpl in Hk; lia|].
  change (offsetIn (x :: y :: lines) (S k) 0)
    with (String.length x + 1 + offsetIn (y :: lines) k 0).
  destruct k as [|k].
  - destruct lines; simpl; lia.
  - rewrite IH by (simpl in *; lia).
    change (firstn (S (S k)) (x :: y :: lines))
      with (x :: firstn (S k) (y :: lines)).
    simpl firstn. rewrite length_join_cons. lia.
Qed.

(** A position past the last line is the end of the text. *)
Lemma offsetIn_past (lines : list string) : forall k c,
  lines <> [] -> length lines <= k ->
  offsetIn lines k c = String.length (join lines).
Proof.
  induction lines as [|x lines IH]; intros k c Hne Hk; [congruence|].
  destruct k as [|k]; [simpl in Hk; lia|].
  destruct lines as [|y lines]; [reflexivity|].
  change (offsetIn (x :: y :: lines) (S k) c)
    with (String.length x + 1 + offsetIn (y :: lines) k c).
  rewrite IH by (congruence || (simpl in *; lia)).
  rewrite length_join_cons. reflexivity.
Qed.

(** Inserting at the end of line [i], which is not the last line. *)
Lemma applyEdit_insert txt i line inserted :
  split txt !! i = Some line ->
  S i < length (split txt) ->
  applyEdit (EInsert i (String.length line) inserted) txt
  = join (firstn (S i) (split txt)) +:+ inserted
    +:+ String newline (join (skipn (S i) (split txt))).
Proof.
  intros Hline Hlen. unfold applyEdit, offsetAt.
  rewrite (offsetIn_line_end _ _ _ Hline).
  rewrite <- (join_split txt) at 2 4.
  rewrite (join_take_drop (S i) (split txt)) by lia.
  rewrite take_append, drop_append. reflexivity.
Qed.

(** Replacing from the start of line [k] to the start of line [lo], or to
    the end of the text when there is no line [lo]. *)
Lemma applyEdit_replace txt k lo replacement :
  0 < k < length (split txt) ->
  k <= lo ->
  applyEdit (EReplace k lo replacement) txt
  = join (firstn k (split txt)) +:+ String newline replacement
    +:+ (if Nat.ltb lo (length (split txt))
         then join (skipn lo (split txt)) else EmptyString).
Proof.
  intros Hk Hlo. unfold applyEdit, offsetAt.
  rewrite (offsetIn_line_start _ k Hk).
  assert (Htake : take (String.length (join (firstn k (split txt))) + 1) txt
                  = join (firstn k (split txt)) +:+ String newline EmptyString).
  { rewrite <- (join_split txt) at 2.
    rewrite (join_take_drop k (split txt)) by lia. apply take_append_one. }
  assert (Hdrop : drop (offsetIn (split txt) lo 0) txt
                  = if Nat.ltb lo (length (split txt))
                    then join (skipn lo (split txt)) else EmptyString).
  { destruct (Nat.ltb_spec lo (length (split txt))) as [Hlt|Hge].
    - rewrite (offsetIn_line_start _ lo) by lia.
      rewrite <- (join_split txt) at 2.
      rewrite (join_take_drop lo (split txt)) by lia. apply drop_append_one.
    - rewrite offsetIn_past by (apply split_nonempty || lia).
      rewrite join_split. apply drop_all. }
  rewrite Htake, Hdrop, !append_assoc, append_cons, append_nil_l. reflexivity.
Qed.

Lemma split_regionText_append s c e tail :
  split (regionText s c e +:+ tail) = split s ++ split c ++ split e ++ split tail.
Proof.
  unfold regionText, newline_s.
  rewrite !append_assoc, !append_cons, !append_nil_l.
  rewrite !split_append_newline. reflexivity.
Qed.

(** The lines of the document after a region is inserted below line [i]:
    an empty line follows the end marker. *)
Lemma split_after_insert txt i line s c e :
  split txt !! i = Some line ->
  S i < length (split txt) ->
  split (applyEdit (EInsert i (String.length line) (newline_s +:+ regionText s c e)) txt)
  = firstn (S i) (split txt)
    ++ (split s ++ split c ++ split e)
    ++ EmptyString :: skipn (S i) (split txt).
Proof.
  intros Hline Hlen.
  rewrite (applyEdit_insert _ _ _ _ Hline Hlen).
  assert (Hsingle : forallb singleLine (split txt) = true) by apply split_singleLines.
  unfold newline_s. rewrite append_cons, append_nil_l, append_cons.
  rewrite split_append_newline, split_regionText_append.
  rewrite split_join
    by (first [apply firstn_nonempty; [lia|apply split_nonempty]
              |apply forallb_firstn, Hsingle]).
  change (split (String newline (join (skipn (S i) (split txt)))))
    with (EmptyString :: split (join (skipn (S i) (split txt)))).
  rewrite (split_join (skipn (S i) (split txt)))
    by (first [apply skipn_nonempty; lia|apply forallb_skipn, Hsingle]).
  rewrite <- !app_assoc. reflexivity.
Qed.

(** The lines of the document after the lines from [k] up to [lo] are
    replaced by a region: the lines from [lo] on follow the end marker, and
    an empty line does when there is no line [lo]. *)
Lemma split_after_replace txt k lo s c e :
  0 < k < length (split txt) ->
  k <= lo ->
  split (applyEdit (EReplace k lo (regionText s c e)) txt)
  = firstn k (split txt)
    ++ (split s ++ split c ++ split e)
    ++ (if Nat.ltb lo (length (split txt))
        then skipn lo (split txt) else [EmptyString]).
Proof.
  intros Hk Hlo.
  rewrite (applyEdit_replace _ _ _ _ Hk Hlo).
  assert (Hsingle : forallb singleLine (split txt) = true) by apply split_singleLines.
  rewrite append_cons, split_append_newline, split_regionText_append.
  rewrite split_join
    by (first [apply firstn_nonempty; [lia|apply split_nonempty]
              |apply forallb_firstn, Hsingle]).
  rewrite <- !app_assoc. do 4 f_equal.
  destruct (Nat.ltb_spec lo (length (split txt))) as [Hlt|Hge]; [|reflexivity].
  apply split_join; [apply skipn_nonempty; lia|apply forallb_skipn, Hsingle].
Qed.

Lemma withText_same document : withText document (text document) = document.
Proof. destruct document; reflexivity. Qed.

End EditFacts.

(** ** Regions *)

Module RegionProperties.
Import Text Regex LanguageService DocumentProcessor TextFacts UpdateProperties
  EditFacts.

Local Arguments DocumentProcessor.includeStep : simpl never.

Lemma findFrom_first p l : forall j e x,
  j <= e ->
  l !! (e - j) = Some x ->
  p x = true ->
  forallb (fun y => negb (p y)) (firstn (e - j) l) = true ->
  findFrom p j l = Some e.
Proof.
  induction l as [|y l IH]; intros j e x Hle Hx Hpx Hfirst; [discriminate|].
  simpl. destruct (decide (e = j)) as [->|Hne].
  - rewrite Nat.sub_diag in Hx. injection Hx as ->. rewrite Hpx. reflexivity.
  - replace (e - j) with (S (e - S j)) in Hx, Hfirst by lia.
    simpl in Hx, Hfirst. apply andb_true_iff in Hfirst as [Hy Hrest].
    apply negb_true_iff in Hy. rewrite Hy.
    apply (IH (S j) e x); [lia|assumption..].
Qed.

Lemma findFrom_ext p q l : forall j,
  (forall x, p x = q x) -> findFrom p j l = findFrom q j l.
Proof.
  induction l as [|y l IH]; intros j Hpq; simpl; [reflexivity|].
  rewrite Hpq, (IH (S j) Hpq). reflexivity.
Qed.

Section Region.
Variables (cfg : Config) (env : Env) (document : TextDocument).
Variable languageSettings : LanguageSettings.

(** A directive with a line after it is processed: the iteration neither
    skips it nor throws. *)
Lemma includeStep_progress st n content a includeLine ctx nextLine :
  (Z.of_nat n + lineOffset st)%Z = Z.of_nat a ->
  currentLines st !! a = Some includeLine ->
  getContextAwareSettings cfg (withText document (hostText st)) a includeLine
    (Some (stepResolvedPath env document includeLine)) = Ret ctx ->
  currentLines st !! (a + 1) = Some nextLine ->
  exists st', includeStep cfg env document languageSettings st (n, content) = Ret st'.
Proof.
  intros Ha Hline Hctx Hnext.
  pose proof (lookup_lt_Some _ _ _ Hline) as Hlen.
  unfold includeStep. rewrite Ha, Nat2Z.id.
  destruct (Z.leb_spec (Z.of_nat (length (currentLines st))) (Z.of_nat a)); [lia|].
  destruct (Z.ltb_spec (Z.of_nat a) 0); [lia|].
  rewrite Hline. fold (stepResolvedPath env document includeLine).
  rewrite Hctx. cbn [bindExc]. rewrite Hnext.
  destruct (_ || _); [|eauto].
  cbv zeta. destruct (findFrom _ _ _); eauto.
Qed.

(** What the iteration does to such a directive. *)
Lemma includeStep_edit st n content a includeLine ctx nextLine :
  (Z.of_nat n + lineOffset st)%Z = Z.of_nat a ->
  currentLines st !! a = Some includeLine ->
  getContextAwareSettings cfg (withText document (hostText st)) a includeLine
    (Some (stepResolvedPath env document includeLine)) = Ret ctx ->
  currentLines st !! (a + 1) = Some nextLine ->
  exists st' lo edit,
    includeStep cfg env document languageSettings st (n, content) = Ret st'
    /\ a + 1 <= lo <= length (currentLines st)
    /\ lineOffset st'
       = (lineOffset st
          + Z.of_nat (length (regionLines languageSettings ctx
                                (indentOf includeLine) content))
          - Z.of_nat (lo - (a + 1)))%Z
    /\ currentLines st'
       = firstn (a + 1) (currentLines st)
         ++ regionLines languageSettings ctx (indentOf includeLine) content
         ++ skipn lo (currentLines st)
    /\ hostText st' = applyEdit edit (hostText st)
    /\ applied st' = applied st ++ [(n, edit)]
    /\ ((isStartMarker languageSettings ctx nextLine = false
         /\ lo = a + 1
         /\ edit = EInsert a (String.length includeLine)
                     (newline_s +:+ regionTextOf languageSettings ctx
                                      (indentOf includeLine) content))
        \/ (isStartMarker languageSettings ctx nextLine = true
            /\ edit = EReplace (a + 1) lo
                        (regionTextOf languageSettings ctx
                           (indentOf includeLine) content)
            /\ match findFrom (isEndMarker languageSettings ctx) (a + 2)
                       (skipn (a + 2) (currentLines st)) with
               | Some endLine => lo = endLine + 1
               | None =>
                   lo = repairBound (includeDirectivePattern ctx) (a + 2)
                          (sliceLines (a + 2)
                             (Nat.min (length (currentLines st)) (a + 1 + 20))
                             (currentLines st))
                          (a + 2)
               end)).
Proof.
  intros Ha Hline Hctx Hnext.
  destruct (includeStep_progress st n content a includeLine ctx nextLine
              Ha Hline Hctx Hnext) as [st' Hstep].
  pose proof (lookup_lt_Some _ _ _ Hnext) as Hlen.
  destruct (includeStep_Ret _ _ _ _ _ _ _ _ Hstep)
    as [[_ [Hskip|Hskip]]
       |(a' & il & ctx' & nl & lo & edit & Ha' & Hil & Hctx' & Hnl & Hrest)].
  - lia.
  - rewrite Ha, Nat2Z.id, Hnext in Hskip. discriminate.
  - assert (a' = a) as -> by lia.
    rewrite Hline in Hil. injection Hil as <-.
    rewrite Hctx in Hctx'. injection Hctx' as <-.
    rewrite Hnext in Hnl. injection Hnl as <-.
    exists st', lo, edit. split; [exact Hstep|exact Hrest].
Qed.

(** C1, as the code has it. A region is bounded at the FIRST line after its
    start marker that is an end marker. The update step replaces the lines
    from the start marker through that line: it asks the editor for that
    replacement, its own copy of the lines keeps every line after the end
    marker, a later end marker included, and so does the document when the
    copy agreed with the document before the step, with an empty line added
    at the end when the end marker was the last line. The scan compares the
    lines between the start marker and that same line with the source. *)
Theorem region_bounded_at_first_end_marker
    st n content a includeLine ctx nextLine endLine endText :
  (Z.of_nat n + lineOffset st)%Z = Z.of_nat a ->
  currentLines st !! a = Some includeLine ->
  getContextAwareSettings cfg (withText document (hostText st)) a includeLine
    (Some (stepResolvedPath env document includeLine)) = Ret ctx ->
  currentLines st !! (a + 1) = Some nextLine ->
  isStartMarker languageSettings ctx nextLine = true ->
  a + 2 <= endLine ->
  currentLines st !! endLine = Some endText ->
  isEndMarker languageSettings ctx endText = true ->
  forallb (fun l => negb (isEndMarker languageSettings ctx l))
    (sliceLines (a + 2) endLine (currentLines st)) = true ->
  (exists st',
     includeStep cfg env document languageSettings st (n, content) = Ret st'
     /\ applied st'
        = applied st
          ++ [(n, EReplace (a + 1) (endLine + 1)
                    (regionTextOf languageSettings ctx (indentOf includeLine) content))]
     /\ currentLines st'
        = firstn (a + 1) (currentLines st)
          ++ regionLines languageSettings ctx (indentOf includeLine) content
          ++ skipn (endLine + 1) (currentLines st)
     /\ (split (hostText st) = currentLines st ->
         split (hostText st')
         = firstn (a + 1) (split (hostText st))
           ++ regionLines languageSettings ctx (indentOf includeLine) content
           ++ (if Nat.ltb (endLine + 1) (length (split (hostText st)))
               then skipn (endLine + 1) (split (hostText st))
               else [EmptyString])))
  /\ inspectRegion languageSettings ctx (currentLines st) a includeLine content
     = if String.eqb (join (sliceLines (a + 2) endLine (currentLines st)))
                     (indentContent (indentOf includeLine) content)
       then UpToDate else ContentChanged.
Proof.
  intros Ha Hline Hctx Hnext Hstart Hle Hend Hmarker Hfirst.
  assert (Hfind : findFrom (isEndMarker languageSettings ctx) (a + 2)
                    (skipn (a + 2) (currentLines st)) = Some endLine).
  { apply (findFrom_first _ _ _ _ endText); [lia| |assumption|exact Hfirst].
    rewrite lookup_drop. replace (a + 2 + (endLine - (a + 2))) with endLine by lia.
    exact Hend. }
  split.
  - destruct (includeStep_edit st n content a includeLine ctx nextLine
                Ha Hline Hctx Hnext)
      as (st' & lo & edit & Hstep & _ & _ & Hcur & Hhost & Happ
          & [(Hno & _)|(_ & Hedit & Hlo)]).
    + congruence.
    + rewrite Hfind in Hlo. subst lo edit.
      exists st'. repeat split; [exact Hstep|exact Happ|exact Hcur|].
      intros Hsync. rewrite Hhost. unfold regionTextOf, regionLines.
      pose proof (lookup_lt_Some _ _ _ Hnext) as Hlen. rewrite <- Hsync in Hlen.
      rewrite split_after_replace by lia.
      rewrite <- !app_assoc. reflexivity.
  - unfold inspectRegion. rewrite Hnext.
    unfold isStartMarker in Hstart. rewrite orb_comm in Hstart. rewrite Hstart.
    replace (a + 1 + 1) with (a + 2) by lia.
    assert (Hfind' : findFrom
                       (fun l => markerIs (endMarkerTemplate languageSettings) l
                                 || markerIs (endMarkerTemplate ctx) l)
                       (a + 2) (skipn (a + 2) (currentLines st)) = Some endLine).
    { rewrite <- Hfind. apply findFrom_ext. intros x. apply orb_comm. }
    rewrite Hfind'. reflexivity.
Qed.

End Region.

Lemma region_bounded_at_first_end_marker_witness :
  let env := Posix.env [("/w/a.txt", "hello")] in
  let document :=
    {| uri := "file:///w/main.py"; fsPath := "/w/main.py"; languageId := "python";
       text := join Posix.twoEndMarkers; isClosed := false |} in
  let python := Posix.python in
  let st0 := {| lineOffset := 0; currentLines := Posix.twoEndMarkers;
                hostText := text document; applied := [] |} in
  exists st',
    includeStep Posix.defaultConfig env document python st0 (0, "hello") = Ret st'
    /\ currentLines st'
       = ["# virtualInclude 'a.txt'"; Posix.startPy; "hello"; Posix.endPy; "junk";
          Posix.endPy; "tail"]
    /\ split (hostText st') = currentLines st'.
Proof.
  intros env document python st0.
  destruct (region_bounded_at_first_end_marker Posix.defaultConfig env document
              python st0 0 "hello" 0 "# virtualInclude 'a.txt'" python Posix.startPy 3 Posix.endPy)
    as [(st' & Hstep & _ & Hcur & Hdoc) _]; try (vm_compute; reflexivity).
  - vm_compute. lia.
  - exists st'. split; [exact Hstep|]. rewrite Hdoc, Hcur by (vm_compute; reflexivity).
    split; vm_compute; reflexivity.
Defined.

(** C1, as the specification states it, fails: the pass replaces the lines
    up to the first end marker, line 3, and leaves the stray line and the
    last end marker, line 5, in the document. *)
Lemma last_end_marker_not_used :
  let result :=
    processDocument Posix.defaultConfig (Posix.env [("/w/a.txt", "hello")])
      Posix.emptyManager (Posix.editorOn "main.py" "python" Posix.twoEndMarkers) in
  editsOf result
  = [(0, EReplace 1 4 (Posix.startPy +:+ newline_s +:+ "hello" +:+ newline_s
                        +:+ Posix.endPy +:+ newline_s))]
  /\ linesOf result
     = ["# virtualInclude 'a.txt'"; Posix.startPy; "hello"; Posix.endPy; "junk"; Posix.endPy; "tail"].
Proof. split; vm_compute; reflexivity. Qed.

End RegionProperties.

(** ** Repeated passes *)

Module IdempotenceProperties.
Import Text Regex LanguageService DocumentProcessor.

(** C3 fails on the code. The included file holds a directive; the first
    pass writes it neutralised, the scan of the second pass compares the
    region with the content that is not neutralised, classifies it as changed,
    and the second pass applies an edit, with the text the region already
    has. *)
Lemma second_pass_edits_again :
  let env := Posix.env Posix.nestedFiles in
  let first := processDocument Posix.defaultConfig env Posix.emptyManager
                 (Posix.editorOn "main.js" "javascript" Posix.nestedMain) in
  let second := processDocument Posix.defaultConfig env (managerOf first)
                  (editorOf first) in
  linesOf first
  = ["// virtualInclude 'b.js'";
     "// virtualIncludeStart - DO NOT EDIT CONTENT BELOW ";
     "// virtualInclude-nested (edit source file to modify) 'd.js'";
     "// virtualIncludeEnd - DO NOT EDIT CONTENT ABOVE "; EmptyString; "main()"]
  /\ editsOf second
     = [(0, EReplace 1 4
              ("// virtualIncludeStart - DO NOT EDIT CONTENT BELOW " +:+ newline_s
               +:+ "// virtualInclude-nested (edit source file to modify) 'd.js'"
               +:+ newline_s
               +:+ "// virtualIncludeEnd - DO NOT EDIT CONTENT ABOVE " +:+ newline_s))]
  /\ linesOf second = linesOf first.
Proof. repeat split; vm_compute; reflexivity. Qed.

End IdempotenceProperties.

(** ** Neutralisation of nested directives *)

Module NeutralizeProperties.
Import Text Regex LanguageService DocumentProcessor TextFacts RegexFacts.

Lemma matches_RSeq_inv r1 r2 pos w rest :
  matches (RSeq r1 r2) pos w rest ->
  exists w1 w2,
    w = w1 +:+ w2 /\ matches r1 pos w1 (w2 +:+ rest)
    /\ matches r2 (pos + String.length w1) w2 rest.
Proof. intros H. inversion H; subst. eauto. Qed.

Lemma matches_RChar_inv p pos w rest :
  matches (RChar p) pos w rest ->
  exists c, w = String c EmptyString /\ p c = true.
Proof. intros H. inversion H; subst. eauto. Qed.

Lemma search_sound g : forall s pos m,
  search g pos s = Some m ->
  exists pre s',
    s = pre +:+ s'
    /\ m_start m = pos + String.length pre
    /\ smatch g (m_start m) s' [] = Some (m_end m, m_groups m).
Proof.
  induction s as [|c s IH]; intros pos m; simpl.
  - destruct (smatch g pos EmptyString []) as [[e gs]|] eqn:Hs; [|discriminate].
    intros [= <-]. exists EmptyString, EmptyString. simpl.
    rewrite Nat.add_0_r. auto.
  - destruct (smatch g pos (String c s) []) as [[e gs]|] eqn:Hs.
    + intros [= <-]. exists EmptyString, (String c s). simpl.
      rewrite Nat.add_0_r. auto.
    + intros H. destruct (IH _ _ H) as (pre & s' & -> & Hstart & Hm).
      exists (String c pre), s'. rewrite append_cons. simpl.
      split; [reflexivity|]. split; [lia|exact Hm].
Qed.

Lemma liveKeyword_unfold s :
  liveKeyword s
  = keywordThenSpace s
    || match s with
       | EmptyString => false
       | String _ s' => liveKeyword s'
       end.
Proof. destruct s; reflexivity. Qed.

Lemma liveKeyword_intro a c b :
  is_ws c = true -> liveKeyword (a +:+ keyword +:+ String c b) = true.
Proof.
  intros Hc. induction a as [|x a IH].
  - rewrite append_nil_l.
    assert (H : keywordThenSpace (keyword +:+ String c b) = true).
    { unfold keywordThenSpace. rewrite startsWith_append, drop_append. exact Hc. }
    rewrite liveKeyword_unfold, H. reflexivity.
  - rewrite append_cons. simpl. rewrite IH. apply orb_true_r.
Qed.

(** A line that a default directive pattern matches holds the keyword
    followed by white space. *)
Lemma test_liveKeyword style line :
  test (includeDirectivePattern (createDefaultSettings style)) line = true ->
  liveKeyword line = true.
Proof.
  unfold test, exec. destruct (search _ 0 line) as [m|] eqn:Hs; [|discriminate].
  intros _. destruct (search_sound _ _ _ _ Hs) as (pre & s' & -> & _ & Hm).
  cbn [createDefaultSettings includeDirectivePattern smatch] in Hm.
  apply rmatch_sound in Hm as (w & rest & -> & Hw & _).
  apply matches_RSeq_inv in Hw as (w1 & w2 & -> & _ & Hw).
  apply matches_RSeq_inv in Hw as (w3 & w4 & -> & _ & Hw).
  apply matches_RSeq_inv in Hw as (w5 & w6 & -> & Hkw & Hw).
  apply matches_RLit in Hkw. subst w5.
  apply matches_RSeq_inv in Hw as (w7 & w8 & -> & Hw & _).
  apply matches_RSeq_inv in Hw as (w9 & w10 & -> & Hw & _).
  apply matches_RChar_inv in Hw as (c & -> & Hc).
  rewrite !append_assoc. rewrite <- (append_assoc pre), <- (append_assoc (pre +:+ w1)).
  rewrite append_cons, append_nil_l.
  apply liveKeyword_intro, Hc.
Qed.

Lemma slice_middle a w b :
  slice (String.length a) (String.length a + String.length w) (a +:+ w +:+ b) = w.
Proof.
  unfold slice. rewrite drop_append.
  replace (String.length a + String.length w - String.length a)
    with (String.length w) by lia.
  apply take_append.
Qed.

(** The replacement leaves the line alone or rewrites one occurrence of the
    keyword to the inert spelling. *)
Lemma replaceKeyword_shape line :
  replaceKeyword line = line
  \/ exists a b,
       line = a +:+ keyword +:+ b
       /\ replaceKeyword line = a +:+ inertKeyword +:+ b.
Proof.
  unfold replaceKeyword, exec.
  destruct (search NESTED_DIRECTIVE_REGEX 0 line) as [m|] eqn:Hs; [|left; reflexivity].
  destruct (search_sound _ _ _ _ Hs) as (pre & s' & -> & Hstart & Hm).
  cbn [NESTED_DIRECTIVE_REGEX smatch] in Hm. simpl in Hstart.
  apply rmatch_sound in Hm as (w1 & rest1 & -> & _ & Hm).
  apply rmatch_sound in Hm as (wk & rest2 & -> & Hwk & Hm).
  apply matches_RLit in Hwk. subst wk.
  apply rmatch_sound in Hm as (w2 & rest3 & -> & _ & Hm).
  injection Hm as Hend Hgroups. rewrite <- Hgroups. right.
  exists (pre +:+ w1), (w2 +:+ rest3).
  split; [rewrite !append_assoc; reflexivity|].
  rewrite <- Hend, Hstart. set (l := pre +:+ w1 +:+ keyword +:+ w2 +:+ rest3).
  assert (E0 : take (String.length pre) l = pre) by apply take_append.
  assert (E1 : slice (String.length pre) (String.length pre + String.length w1) l = w1)
    by apply slice_middle.
  assert (El : l = (pre +:+ w1 +:+ keyword) +:+ w2 +:+ rest3).
  { unfold l. rewrite !append_assoc. reflexivity. }
  assert (Hlen : String.length pre + String.length w1 + 14
                 = String.length (pre +:+ w1 +:+ keyword)).
  { rewrite !length_append. simpl. lia. }
  assert (E2 : slice (String.length pre + String.length w1 + 14)
                 (String.length pre + String.length w1 + 14 + String.length w2) l = w2).
  { rewrite Hlen, El. apply slice_middle. }
  assert (E3 : drop (String.length pre + String.length w1 + 14 + String.length w2) l
               = rest3).
  { rewrite Hlen, El, <- length_append.
    rewrite <- (append_assoc (pre +:+ w1 +:+ keyword) w2 rest3).
    apply drop_append. }
  rewrite E0, E1, E2, E3, !append_assoc. reflexivity.
Qed.

Lemma countKeyword_unfold s :
  countKeyword s
  = (if startsWith keyword s then 1 else 0)
    + match s with
      | EmptyString => 0
      | String _ s' => countKeyword s'
      end.
Proof. destruct s; reflexivity. Qed.

Lemma countKeyword_occurs a b : 1 <= countKeyword (a +:+ keyword +:+ b).
Proof.
  induction a as [|c a IH].
  - rewrite append_nil_l, countKeyword_unfold, startsWith_append. lia.
  - rewrite append_cons, countKeyword_unfold. lia.
Qed.

Lemma liveKeyword_counted s : liveKeyword s = true -> 1 <= countKeyword s.
Proof.
  induction s as [|c s IH].
  - discriminate.
  - rewrite liveKeyword_unfold, countKeyword_unfold. unfold keywordThenSpace.
    destruct (startsWith keyword (String c s)); [lia|].
    simpl. intros H. specialize (IH H). lia.
Qed.

(** A prefix test only reads as far as the prefix reaches. *)
Lemma startsWith_long t : forall u y z,
  String.length t <= String.length u ->
  startsWith t (u +:+ y) = startsWith t (u +:+ z).
Proof.
  induction t as [|c t IH]; intros u y z Hlen; [reflexivity|].
  destruct u as [|d u]; [simpl in Hlen; lia|].
  rewrite !append_cons. simpl. rewrite (IH u y z); [reflexivity|].
  simpl in Hlen. lia.
Qed.

Lemma inertKeyword_split : inertKeyword = keyword +:+ inertSuffix.
Proof. reflexivity. Qed.

(** Nothing in the inert spelling reads as a live keyword, whatever
    follows. *)
Lemma liveKeyword_inert b : liveKeyword (inertKeyword +:+ b) = liveKeyword b.
Proof.
  unfold inertKeyword. cbv [String.append]. 
  repeat (rewrite liveKeyword_unfold; 
          match goal with |- context [keywordThenSpace (String ?c ?s)] =>
            change (keywordThenSpace (String c s)) with false end;
          cbn [orb]).
  reflexivity.
Qed.

Lemma countKeyword_append x b : countKeyword b <= countKeyword (x +:+ b).
Proof.
  induction x as [|c x IH]; [rewrite append_nil_l; lia|].
  rewrite append_cons, (countKeyword_unfold (String c _)). lia.
Qed.

(** Once the only occurrence of the keyword is rewritten, no occurrence
    followed by white space is left. *)
Lemma rewritten_line_dead a b :
  countKeyword (a +:+ keyword +:+ b) <= 1 ->
  liveKeyword (a +:+ inertKeyword +:+ b) = false.
Proof.
  induction a as [|c a IH]; intros Hcount.
  - rewrite append_nil_l in *. rewrite liveKeyword_inert.
    destruct (liveKeyword b) eqn:Hb; [|reflexivity].
    apply liveKeyword_counted in Hb.
    rewrite countKeyword_unfold, startsWith_append in Hcount.
    unfold keyword in Hcount at 1. rewrite append_cons in Hcount.
    pose proof (countKeyword_append "irtualInclude" b). lia.
  - rewrite append_cons in *. rewrite countKeyword_unfold in Hcount.
    pose proof (countKeyword_occurs a b) as Hocc.
    destruct (startsWith keyword (String c (a +:+ keyword +:+ b))) eqn:Hstart; [lia|].
    rewrite liveKeyword_unfold, IH by lia.
    unfold keywordThenSpace.
    rewrite inertKeyword_split.
    assert (Hsame : startsWith keyword (String c (a +:+ (keyword +:+ inertSuffix) +:+ b))
                    = startsWith keyword (String c (a +:+ keyword +:+ b))).
    { rewrite <- !append_cons.
      rewrite (append_assoc keyword inertSuffix b).
      rewrite <- (append_assoc (String c a) keyword (inertSuffix +:+ b)).
      rewrite <- (append_assoc (String c a) keyword b).
      apply startsWith_long. rewrite length_append. simpl. lia. }
    rewrite Hsame, Hstart. reflexivity.
Qed.

Lemma replaceKeyword_dead line :
  countKeyword line <= 1 ->
  replaceKeyword line = line \/ liveKeyword (replaceKeyword line) = false.
Proof.
  intros Hcount. destruct (replaceKeyword_shape line) as [?|(a & b & -> & ->)];
    [left; assumption|].
  right. apply rewritten_line_dead, Hcount.
Qed.

(** The transform of a line is stable on its own output when the line holds
    the keyword at most once. *)
Lemma neutralizeLine_idempotent style languageSettings line :
  includeDirectivePattern languageSettings
  = includeDirectivePattern (createDefaultSettings style) ->
  countKeyword line <= 1 ->
  neutralizeLine languageSettings (neutralizeLine languageSettings line)
  = neutralizeLine languageSettings line.
Proof.
  intros Hpat Hcount.
  assert (Hfix : forall l,
            neutralizeLine languageSettings l = l ->
            neutralizeLine languageSettings (neutralizeLine languageSettings l)
            = neutralizeLine languageSettings l).
  { intros l H. rewrite H. exact H. }
  destruct (String.eqb (trim line) (trim (startMarkerTemplate languageSettings))
            || String.eqb (trim line) (trim (endMarkerTemplate languageSettings)))
    eqn:Hmarker.
  - apply Hfix. unfold neutralizeLine. rewrite Hmarker. reflexivity.
  - destruct (test (includeDirectivePattern languageSettings) line) eqn:Htest.
    + assert (E : neutralizeLine languageSettings line = replaceKeyword line).
      { unfold neutralizeLine. rewrite Hmarker, Htest. reflexivity. }
      destruct (replaceKeyword_dead line Hcount) as [Hsame|Hdead].
      * apply Hfix. rewrite E. exact Hsame.
      * rewrite E. unfold neutralizeLine.
        match goal with |- (if ?c then _ else _) = _ => destruct c end; [reflexivity|].
        destruct (test _ (replaceKeyword line)) eqn:Htest2; [|reflexivity].
        rewrite Hpat in Htest2. apply test_liveKeyword in Htest2. congruence.
    + apply Hfix. unfold neutralizeLine. rewrite Hmarker, Htest. reflexivity.
Qed.

Lemma replaceKeyword_singleLine line :
  singleLine line = true -> singleLine (replaceKeyword line) = true.
Proof.
  destruct (replaceKeyword_shape line) as [->|(a & b & -> & ->)]; [auto|].
  rewrite !singleLine_append. intros H.
  apply andb_true_iff in H as [Ha H]. apply andb_true_iff in H as [_ Hb].
  rewrite Ha, Hb. reflexivity.
Qed.

Lemma neutralizeLine_singleLine languageSettings line :
  singleLine line = true -> singleLine (neutralizeLine languageSettings line) = true.
Proof.
  intros H. unfold neutralizeLine.
  destruct (_ || _); [exact H|].
  destruct (test _ _); [apply replaceKeyword_singleLine, H|exact H].
Qed.

Lemma forallb_map_singleLine languageSettings lines :
  forallb singleLine lines = true ->
  forallb singleLine (map (neutralizeLine languageSettings) lines) = true.
Proof.
  induction lines as [|l lines IH]; [reflexivity|]. simpl.
  intros H. apply andb_true_iff in H as [Hl H].
  rewrite (neutralizeLine_singleLine _ _ Hl), (IH H). reflexivity.
Qed.

(** X6. On a text none of whose lines holds the keyword [virtualInclude] more
    than once, and for settings whose directive pattern is the one built
    from a comment style, the neutralisation applied to its own output
    returns that output; and a marker line passes through the
    neutralisation as it is, whatever the pattern. *)
Theorem neutralization_idempotent style languageSettings content :
  includeDirectivePattern languageSettings
  = includeDirectivePattern (createDefaultSettings style) ->
  forallb (fun line => Nat.leb (countKeyword line) 1) (split content) = true ->
  _neutralizeNestedIncludes (_neutralizeNestedIncludes content languageSettings)
    languageSettings
  = _neutralizeNestedIncludes content languageSettings
  /\ (forall line,
        markerIs (startMarkerTemplate languageSettings) line
        || markerIs (endMarkerTemplate languageSettings) line = true ->
        neutralizeLine languageSettings line = line).
Proof.
  intros Hpat Hcount. split.
  - unfold _neutralizeNestedIncludes.
    rewrite split_join.
    + f_equal. rewrite map_map.
      pose proof (split_nonempty content) as _.
      induction (split content) as [|l lines IH]; [reflexivity|].
      simpl in Hcount. apply andb_true_iff in Hcount as [Hl Hcount].
      apply Nat.leb_le in Hl. simpl.
      rewrite (neutralizeLine_idempotent style languageSettings l Hpat Hl).
      rewrite (IH Hcount). reflexivity.
    + destruct (split content) eqn:Hs; [destruct (split_nonempty _ Hs)|discriminate].
    + apply forallb_map_singleLine, split_singleLines.
  - intros line Hmarker. unfold neutralizeLine. unfold markerIs in Hmarker.
    rewrite Hmarker. reflexivity.
Qed.

Lemma neutralization_idempotent_witness :
  let python := Posix.python in
  let content := join ["import os"; "  # virtualInclude 'deep.py'"; "run()"] in
  _neutralizeNestedIncludes content python
  = join ["import os";
          "  # virtualInclude-nested (edit source file to modify) 'deep.py'";
          "run()"]
  /\ _neutralizeNestedIncludes (_neutralizeNestedIncludes content python) python
     = _neutralizeNestedIncludes content python.
Proof.
  intros python content. split; [vm_compute; reflexivity|].
  apply (neutralization_idempotent (line_style "#") python content);
    vm_compute; reflexivity.
Defined.

(** C7 fails on the code. The line holds two directives. The neutralisation
    rewrites the keyword of the first only: its output is still matched by
    the directive pattern, through the second directive with its path [b],
    and the neutralisation applied to that output rewrites the line again.
    In a pass the line reaches the region with the second directive alive,
    and the next pass takes it for a directive of the document: it sets the
    content of [b] in below it, inside the region. *)
Theorem neutralization_rewrites_twice :
  let python := Posix.python in
  let line := "# virtualInclude 'a' # virtualInclude 'b'" in
  let once := _neutralizeNestedIncludes line python in
  let twice := _neutralizeNestedIncludes once python in
  let env := Posix.env [("/w/s.txt", line); ("/w/b", "deep")] in
  let first :=
    processDocument Posix.defaultConfig env Posix.emptyManager
      (Posix.editorOn "main.py" "python" ["# virtualInclude 's.txt'"; "x = 1"]) in
  let second :=
    processDocument Posix.defaultConfig env (managerOf first) (editorOf first) in
  once = "# virtualInclude-nested (edit source file to modify) 'a' # virtualInclude 'b'"
  /\ test (includeDirectivePattern python) once = true
  /\ match exec (includeDirectivePattern python) once with
     | Some m => group once m 1
     | None => None
     end = Some "b"
  /\ twice = "# virtualInclude-nested (edit source file to modify) 'a' "
             +:+ "# virtualInclude-nested (edit source file to modify) 'b'"
  /\ twice <> once
  /\ linesOf first
     = ["# virtualInclude 's.txt'"; Posix.startPy; once; Posix.endPy; EmptyString;
        "x = 1"]
  /\ linesOf second
     = ["# virtualInclude 's.txt'"; Posix.startPy; once; Posix.startPy; "deep";
        Posix.endPy; EmptyString; Posix.endPy; EmptyString; "x = 1"].
Proof.
  intros python line once twice env first second.
  repeat split; try (vm_compute; reflexivity). vm_compute. discriminate.
Qed.

End NeutralizeProperties.

(** ** The round trip of an include *)

Module RoundTripProperties.
Import Text Regex LanguageService DocumentProcessor LanguageProperties TextFacts
  UpdateProperties EditFacts.

Lemma stripIndent_indentLine indentation line :
  stripIndent indentation (indentLine indentation line) = line.
Proof.
  unfold stripIndent, indentLine. destruct line as [|c line]; simpl.
  - destruct indentation; reflexivity.
  - rewrite startsWith_append, drop_append. reflexivity.
Qed.

Lemma split_indentContent indentation content :
  singleLine indentation = true ->
  split (indentContent indentation content)
  = map (indentLine indentation) (split content).
Proof.
  intros Hind. unfold indentContent. apply split_join.
  - destruct (split content) eqn:Hs; [destruct (split_nonempty _ Hs)|discriminate].
  - pose proof (split_singleLines content) as Hall.
    induction (split content) as [|l ls IH]; [reflexivity|].
    simpl in *. apply andb_true_iff in Hall as [Hl Hall].
    rewrite (IH Hall), andb_true_r. unfold indentLine.
    destruct (isEmpty l); [exact Hl|].
    rewrite singleLine_append, Hind, Hl. reflexivity.
Qed.

Section RoundTrip.
Variables (cfg : Config) (env : Env).

(** The lines of the document after a pass for one directive that has a
    line after it. *)
Lemma update_one_directive m document languageSettings i line content ctx :
  isClosed document = false ->
  getLanguageSettings cfg (languageId document) = Ret languageSettings ->
  split (text document) !! i = Some line ->
  S i < length (split (text document)) ->
  getContextAwareSettings cfg document i line
    (Some (stepResolvedPath env document line)) = Ret ctx ->
  exists rest,
    linesOf (updateDocument cfg env m (Editor document) [(i, content)])
    = firstn (S i) (split (text document))
      ++ regionLines languageSettings ctx (indentOf line) content
      ++ rest.
Proof.
  intros Hopen Hsettings Hline Hlen Hctx.
  set (ls := languageSettings).
  set (st0 := {| lineOffset := 0; currentLines := split (text document);
                 hostText := text document; applied := [] |}).
  assert (Hnext : exists nextLine, split (text document) !! (i + 1) = Some nextLine).
  { apply lookup_lt_is_Some_2. lia. }
  destruct Hnext as [nextLine Hnext].
  destruct (RegionProperties.includeStep_edit cfg env document ls st0 i content
              i line ctx nextLine)
    as (st' & lo & edit & Hstep & Hlo & _ & _ & Hhost & _ & Hkind).
  { simpl. lia. }
  { exact Hline. }
  { simpl. rewrite withText_same. exact Hctx. }
  { exact Hnext. }
  rewrite (GateProperties.updateDocument_resolved _ _ _ _ _ _ Hopen Hsettings).
  cbv zeta. fold ls. fold st0.
  change (sortEntries [(i, content)]) with [(i, content)].
  cbn [updateLoop]. rewrite Hstep. cbn [linesOf withText text].
  rewrite Hhost. cbn [hostText st0 currentLines] in *.
  set (lines := split (text document)) in *.
  assert (Hsingle : forallb singleLine lines = true) by apply split_singleLines.
  assert (Hhead : split (join (firstn (S i) lines)) = firstn (S i) lines).
  { apply split_join; [apply firstn_nonempty; [lia|apply split_nonempty]|].
    apply forallb_firstn, Hsingle. }
  unfold regionLines. fold ls.
  destruct Hkind as [(_ & -> & ->)|(_ & -> & _)].
  - (* insert *)
    rewrite (applyEdit_insert _ _ _ _ Hline Hlen). fold lines.
    unfold newline_s. rewrite append_cons, append_nil_l.
    rewrite append_cons.
    rewrite split_append_newline, Hhead.
    unfold regionTextOf. fold ls.
    rewrite split_regionText_append.
    eexists. rewrite <- !app_assoc. reflexivity.
  - (* replace *)
    rewrite applyEdit_replace by (fold lines; lia). fold lines.
    replace (i + 1) with (S i) by lia.
    rewrite append_cons.
    rewrite split_append_newline, Hhead.
    unfold regionTextOf. fold ls.
    rewrite split_regionText_append.
    eexists. rewrite <- !app_assoc. reflexivity.
Qed.

End RoundTrip.

Lemma inspectRegion_UpToDate languageSettings ctx lines i line content :
  inspectRegion languageSettings ctx lines i line content = UpToDate ->
  exists startLine between endLine rest,
    lines = firstn (S i) lines ++ startLine :: between ++ endLine :: rest
    /\ isStartMarker languageSettings ctx startLine = true
    /\ isEndMarker languageSettings ctx endLine = true
    /\ join between = indentContent (indentOf line) content.
Proof.
  unfold inspectRegion.
  destruct (lines !! (i + 1)) as [startLine|] eqn:Hstart; [|discriminate].
  destruct (_ || _) eqn:Hmarker; [|discriminate].
  destruct (findFrom _ _ _) as [e|] eqn:Hfind; [|discriminate].
  destruct (String.eqb_spec
              (join (sliceLines (i + 1 + 1) e lines))
              (indentContent (indentOf line) content)) as [Heq|]; [|discriminate].
  intros _.
  destruct (findFrom_Some _ _ _ _ Hfind) as (Hb & (endLine & Hend & Hp) & _).
  rewrite length_skipn in Hb. rewrite lookup_drop in Hend.
  replace (i + 1 + 1 + (e - (i + 1 + 1))) with e in Hend by lia.
  exists startLine, (sliceLines (i + 1 + 1) e lines), endLine, (skipn (S e) lines).
  split_and!.
  - replace (i + 1) with (S i) in Hstart by lia.
    rewrite <- (take_drop_middle lines (S i) startLine Hstart) at 1.
    do 2 f_equal.
    pose proof (take_drop_middle (skipn (S (S i)) lines) (e - S (S i)) endLine) as Hmid.
    rewrite lookup_drop in Hmid.
    replace (S (S i) + (e - S (S i))) with e in Hmid by lia.
    rewrite <- (Hmid Hend). unfold sliceLines.
    replace (i + 1 + 1) with (S (S i)) by lia.
    rewrite skipn_skipn. replace (S (e - S (S i)) + S (S i)) with (S e) by lia.
    reflexivity.
  - unfold isStartMarker. rewrite orb_comm. exact Hmarker.
  - unfold isEndMarker. rewrite orb_comm. exact Hp.
  - exact Heq.
Qed.

Lemma trimStart_indentOf line t : trimStart (indentOf line +:+ t) = trimStart t.
Proof.
  induction line as [|c line IH]; simpl; [apply f_equal, append_nil_l|].
  destruct (is_ws c) eqn:Hc; [|apply f_equal, append_nil_l].
  rewrite append_cons. simpl. rewrite Hc. exact IH.
Qed.

Lemma markerIs_indented line template :
  markerIs template (indentOf line +:+ template) = true.
Proof.
  unfold markerIs, trim. rewrite trimStart_indentOf. apply String.eqb_refl.
Qed.

Lemma join_nil_indentContent indentation content :
  indentContent indentation content = EmptyString -> content = EmptyString.
Proof.
  unfold indentContent. intros H. rewrite <- (join_split content).
  destruct (split content) as [|l [|l2 ls]] eqn:Hs.
  - destruct (split_nonempty _ Hs).
  - simpl in H. unfold indentLine in H. destruct l as [|c l]; [reflexivity|].
    simpl in H. destruct indentation; discriminate.
  - change (join (map (indentLine indentation) (l :: l2 :: ls)))
      with (indentLine indentation l
            +:+ String newline (join (map (indentLine indentation) (l2 :: ls)))) in H.
    destruct (indentLine indentation l); discriminate.
Qed.

(** Lines whose join is the indented content give the content back once
    the indentation is taken off them. *)
Lemma strip_between indentation content between :
  singleLine indentation = true ->
  forallb singleLine between = true ->
  join between = indentContent indentation content ->
  join (map (stripIndent indentation) between) = content.
Proof.
  intros Hind Hsingle Hjoin. destruct between as [|b bs].
  - simpl in *. symmetry in Hjoin. apply join_nil_indentContent in Hjoin.
    congruence.
  - rewrite <- (split_join (b :: bs)) by (congruence || assumption).
    rewrite Hjoin, (split_indentContent _ _ Hind), map_map.
    rewrite (map_ext _ (fun l => l)) by (intros l; apply stripIndent_indentLine).
    rewrite map_id. apply join_split.
Qed.

Section Pass.
Variables (cfg : Config) (env : Env) (document : TextDocument).
Variable ls : LanguageSettings.
Hypothesis Hsettings : getLanguageSettings cfg (languageId document) = Ret ls.

Local Abbreviation lines := (split (text document)).

Lemma scanLoop_no_directive st : forall rest i,
  i + length rest <= length lines ->
  (forall k l c,
     rest !! k = Some l ->
     getContextAwareSettings cfg document (i + k) l None = Ret c ->
     exec (includeDirectivePattern c) l = None) ->
  scanLoop cfg env document ls lines i rest st = (st, None).
Proof.
  induction rest as [|l rest IH]; intros i Hlen Hplain; [reflexivity|].
  simpl in *. unfold scanLine.
  destruct (getContextAwareSettings_in_range cfg document i l None ls Hsettings)
    as [c Hc]; [lia|].
  rewrite Hc. rewrite (Hplain 0 l c); [|reflexivity|rewrite Nat.add_0_r; exact Hc].
  apply IH; [lia|]. intros k l' c' Hk Hc'.
  apply (Hplain (S k) l' c'); [exact Hk|].
  replace (i + S k) with (S i + k) by lia. exact Hc'.
Qed.

Lemma scanLoop_app st : forall pre i rest st',
  scanLoop cfg env document ls lines i pre st = (st', None) ->
  scanLoop cfg env document ls lines i (pre ++ rest) st
  = scanLoop cfg env document ls lines (i + length pre) rest st'.
Proof.
  intros pre. revert st. induction pre as [|l pre IH]; intros st i rest st' H.
  - simpl in *. injection H as <-. rewrite Nat.add_0_r. reflexivity.
  - simpl in *. destruct (scanLine _ _ _ _ _ st i l) as [st1 [e|]]; [discriminate|].
    rewrite (IH st1 (S i) rest st' H). f_equal. lia.
Qed.


Lemma scan_one_directive i line filePath content scanned st0 :
  lines !! i = Some line ->
  (forall j l c,
     lines !! j = Some l -> j <> i ->
     getContextAwareSettings cfg document j l None = Ret c ->
     exec (includeDirectivePattern c) l = None) ->
  directivePath cfg document i line = Some filePath ->
  _isSelfInclude env document filePath = false ->
  fs_existsSync env (_resolveIncludePath env document filePath) = true ->
  fs_readFileSync env (_resolveIncludePath env document filePath) = Ret content ->
  getContextAwareSettings cfg document i line
    (Some (_resolveIncludePath env document filePath)) = Ret scanned ->
  includeMap st0 = [] ->
  needsEdit st0 = false ->
  exists st,
    scanLoop cfg env document ls lines 0 lines st0 = (st, None)
    /\ includeMap st = [(i, content)]
    /\ needsEdit st
       = statusNeedsEdit (inspectRegion ls scanned lines i line content).
Proof.
  intros Hline Hplain Hdir Hself Hexists Hread Hctx Hmap Hneeds.
  pose proof (lookup_lt_Some _ _ _ Hline) as Hi.
  assert (Hsplit : lines = firstn i lines ++ line :: skipn (S i) lines).
  { symmetry. apply take_drop_middle, Hline. }
  assert (Hpre : scanLoop cfg env document ls lines 0 (firstn i lines) st0 = (st0, None)).
  { apply scanLoop_no_directive.
    - rewrite length_firstn. lia.
    - intros k l c Hk Hc. apply lookup_take_Some in Hk as [Hk Hlt].
      apply (Hplain k l c Hk); [lia|exact Hc]. }
  assert (Hpost : forall st,
            scanLoop cfg env document ls lines (S i) (skipn (S i) lines) st = (st, None)).
  { intros st. apply scanLoop_no_directive.
    - rewrite length_skipn. lia.
    - intros k l c Hk Hc. rewrite lookup_drop in Hk.
      apply (Hplain (S i + k) l c Hk); [lia|exact Hc]. }
  assert (Hat : exists st,
            scanLine cfg env document ls lines st0 i line = (st, None)
            /\ includeMap st = [(i, content)]
            /\ needsEdit st
               = statusNeedsEdit (inspectRegion ls scanned lines i line content)).
  { unfold directivePath in Hdir. unfold scanLine.
    destruct (getContextAwareSettings cfg document i line None) as [c|e]; [|discriminate].
    destruct (exec (includeDirectivePattern c) line) as [mt|]; [|discriminate].
    rewrite Hdir, Hself. unfold scanInclude. rewrite Hexists, Hread, Hctx.
    eexists. split; [reflexivity|]. simpl. rewrite Hmap, Hneeds. split; reflexivity. }
  destruct Hat as (st & Hat & Hm & Hn). exists st. split; [|split; assumption].
  rewrite Hsplit at 2.
  rewrite (scanLoop_app _ _ _ _ _ Hpre). rewrite length_firstn.
  replace (0 + i `min` length lines) with i by lia.
  simpl. rewrite Hat. apply Hpost.
Qed.

(** A pass over a document with one directive line: nothing is edited when
    the region is found up to date, and the update is run for that one
    directive otherwise. *)
Lemma processDocument_one_directive m i line filePath content scanned :
  lines !! i = Some line ->
  (forall j l c,
     lines !! j = Some l -> j <> i ->
     getContextAwareSettings cfg document j l None = Ret c ->
     exec (includeDirectivePattern c) l = None) ->
  directivePath cfg document i line = Some filePath ->
  _isSelfInclude env document filePath = false ->
  fs_existsSync env (_resolveIncludePath env document filePath) = true ->
  fs_readFileSync env (_resolveIncludePath env document filePath) = Ret content ->
  getContextAwareSettings cfg document i line
    (Some (_resolveIncludePath env document filePath)) = Ret scanned ->
  exists m',
    processDocument cfg env m (Editor document)
    = if statusNeedsEdit (inspectRegion ls scanned lines i line content)
      then updateDocument cfg env m' (Editor document) [(i, content)]
      else (m', Editor document, []).
Proof.
  intros Hline Hplain Hdir Hself Hexists Hread Hctx.
  rewrite (ScanProperties.processDocument_resolved _ _ _ _ _ Hsettings). cbv zeta.
  match goal with
  | |- context [scanLoop _ _ _ _ _ _ _ ?st0] =>
      destruct (scan_one_directive i line filePath content scanned st0
                  Hline Hplain Hdir Hself Hexists Hread Hctx eq_refl eq_refl)
        as (st & Hscan & Hmap & Hneeds)
  end.
  rewrite Hscan, Hmap, Hneeds. eexists. reflexivity.
Qed.

End Pass.

(** C6, as the code has it. For a document whose only directive line has a
    line after it and names a file that exists and reads as the content,
    rules whose marker templates are single lines, and a content that
    neutralisation leaves as it is once indented: after one pass the
    document holds, right after the directive line, a start marker, lines
    whose join is the content with the indentation of the directive line
    before every line that is not empty, and an end marker; taking the
    indentation off the lines between the markers gives the content back.
    When the pass had to write the region, the markers are the templates of
    the rules in force behind the indentation of the directive line. *)
Theorem include_round_trip
    cfg env m document languageSettings i line filePath content scanned ctx :
  isClosed document = false ->
  getLanguageSettings cfg (languageId document) = Ret languageSettings ->
  split (text document) !! i = Some line ->
  S i < length (split (text document)) ->
  (forall j l c,
     split (text document) !! j = Some l -> j <> i ->
     getContextAwareSettings cfg document j l None = Ret c ->
     exec (includeDirectivePattern c) l = None) ->
  directivePath cfg document i line = Some filePath ->
  _isSelfInclude env document filePath = false ->
  fs_existsSync env (_resolveIncludePath env document filePath) = true ->
  fs_readFileSync env (_resolveIncludePath env document filePath) = Ret content ->
  getContextAwareSettings cfg document i line
    (Some (_resolveIncludePath env document filePath)) = Ret scanned ->
  getContextAwareSettings cfg document i line
    (Some (stepResolvedPath env document line)) = Ret ctx ->
  singleLine (startMarkerTemplate ctx) && singleLine (endMarkerTemplate ctx) = true ->
  _neutralizeNestedIncludes (indentContent (indentOf line) content)
    languageSettings
  = indentContent (indentOf line) content ->
  let indentation := indentOf line in
  exists startLine between endLine rest,
    linesOf (processDocument cfg env m (Editor document))
    = firstn (S i) (split (text document))
      ++ startLine :: between ++ endLine :: rest
    /\ isStartMarker languageSettings scanned startLine
       || isStartMarker languageSettings ctx startLine = true
    /\ isEndMarker languageSettings scanned endLine
       || isEndMarker languageSettings ctx endLine = true
    /\ join between = indentContent indentation content
    /\ join (map (stripIndent indentation) between) = content
    /\ (inspectRegion languageSettings scanned (split (text document)) i line content
        <> UpToDate ->
        startLine = indentation +:+ startMarkerTemplate ctx
        /\ between = map (indentLine indentation) (split content)
        /\ endLine = indentation +:+ endMarkerTemplate ctx).
Proof.
  intros Hopen Hsettings Hline Hlen Hplain Hdir Hself Hexists Hread Hscanned Hctx
    Hsingle Hneutral indentation.
  subst indentation.
  set (ls := languageSettings) in *.
  set (indentation := indentOf line) in *.
  apply andb_true_iff in Hsingle as [Hs He].
  assert (Hind : singleLine indentation = true).
  { apply singleLine_indentOf.
    exact (forallb_lookup _ _ _ _ (split_singleLines (text document)) Hline). }
  destruct (processDocument_one_directive cfg env document ls Hsettings m i line
              filePath content scanned Hline Hplain Hdir Hself Hexists Hread Hscanned)
    as [m' Hpass].
  rewrite Hpass. clear Hpass. fold ls.
  destruct (inspectRegion ls scanned (split (text document)) i line content)
    eqn:Hstatus.
  1: { destruct (inspectRegion_UpToDate _ _ _ _ _ _ Hstatus)
         as (startLine & between & endLine & rest & Hlines & Hstart & Hend & Hjoin).
       exists startLine, between, endLine, rest.
       assert (Hbetween : forallb singleLine between = true).
       { pose proof (split_singleLines (text document)) as Hall.
         rewrite Hlines in Hall. rewrite forallb_app in Hall.
         apply andb_true_iff in Hall as [_ Hall]. simpl in Hall.
         apply andb_true_iff in Hall as [_ Hall]. rewrite forallb_app in Hall.
         apply andb_true_iff in Hall as [Hall _]. exact Hall. }
       split_and!.
       - simpl. exact Hlines.
       - rewrite Hstart. reflexivity.
       - rewrite Hend. reflexivity.
       - exact Hjoin.
       - apply strip_between; assumption.
       - congruence. }
  all: simpl statusNeedsEdit; cbv iota; subst ls indentation.
  all: destruct (update_one_directive cfg env m' document languageSettings i line
                   content ctx Hopen Hsettings Hline Hlen Hctx) as [rest Hrest].
  all: exists (indentOf line +:+ startMarkerTemplate ctx),
         (map (indentLine (indentOf line)) (split content)),
         (indentOf line +:+ endMarkerTemplate ctx), rest.
  all: split_and!;
    [ rewrite Hrest; unfold regionLines; rewrite Hneutral;
      rewrite (split_singleLine (indentOf line +:+ startMarkerTemplate ctx))
        by (rewrite singleLine_append, Hind, Hs; reflexivity);
      rewrite (split_singleLine (indentOf line +:+ endMarkerTemplate ctx))
        by (rewrite singleLine_append, Hind, He; reflexivity);
      rewrite (split_indentContent _ _ Hind);
      rewrite <- !app_assoc; reflexivity
    | unfold isStartMarker; rewrite markerIs_indented;
      rewrite orb_true_r; reflexivity
    | unfold isEndMarker; rewrite markerIs_indented;
      rewrite orb_true_r; reflexivity
    | reflexivity
    | rewrite map_map;
      rewrite (map_ext _ (fun l => l)) by (intros l; apply stripIndent_indentLine);
      rewrite map_id; apply join_split
    | intros _; split_and!; reflexivity ].
Qed.

(** The scenario of the specification: the document is the directive and an
    empty last line, the file holds [hello]. *)
Lemma include_round_trip_witness :
  let env := Posix.env [("/w/a.txt", "hello")] in
  let document :=
    {| uri := "file:///w/main.py"; fsPath := "/w/main.py"; languageId := "python";
       text := join ["# virtualInclude 'a.txt'"; EmptyString]; isClosed := false |} in
  (exists rest,
     linesOf (processDocument Posix.defaultConfig env Posix.emptyManager
                (Editor document))
     = ["# virtualInclude 'a.txt'"; Posix.startPy; "hello"; Posix.endPy] ++ rest)
  /\ join (map (stripIndent EmptyString) ["hello"]) = "hello"
  /\ linesOf (processDocument Posix.defaultConfig env Posix.emptyManager
                (Editor document))
     = ["# virtualInclude 'a.txt'"; Posix.startPy; "hello"; Posix.endPy;
        EmptyString; EmptyString].
Proof.
  intros env document.
  split; [|split; vm_compute; reflexivity].
  destruct (include_round_trip Posix.defaultConfig env Posix.emptyManager document
              Posix.python 0 "# virtualInclude 'a.txt'" "a.txt" "hello"
              Posix.python
              Posix.python)
    as (startLine & between & endLine & rest & Hlines & _ & _ & _ & _ & Hfresh);
    try (vm_compute; reflexivity).
  - intros [|[|j]] l c Hl Hj Hc; [contradiction| |discriminate].
    injection Hl as <-. vm_compute in Hc. injection Hc as <-.
    vm_compute. reflexivity.
  - destruct Hfresh as (-> & -> & ->); [vm_compute; discriminate|].
    exists rest. rewrite Hlines. vm_compute. reflexivity.
Defined.

(** C6, as the specification states it, fails twice: a directive on the
    last line gets no region at all, and a content that holds a directive is
    written neutralised, so that the lines between the markers are not the
    content. *)
Lemma round_trip_fails :
  linesOf (processDocument Posix.defaultConfig (Posix.env [("/w/a.txt", "hello")])
             Posix.emptyManager
             (Posix.editorOn "main.py" "python" ["# virtualInclude 'a.txt'"]))
  = ["# virtualInclude 'a.txt'"]
  /\ linesOf (processDocument Posix.defaultConfig (Posix.env Posix.nestedFiles)
                Posix.emptyManager
                (Posix.editorOn "main.js" "javascript" Posix.nestedMain))
     = ["// virtualInclude 'b.js'";
        "// virtualIncludeStart - DO NOT EDIT CONTENT BELOW ";
        "// virtualInclude-nested (edit source file to modify) 'd.js'";
        "// virtualIncludeEnd - DO NOT EDIT CONTENT ABOVE "; EmptyString; "main()"]
  /\ "// virtualInclude-nested (edit source file to modify) 'd.js'"
     <> "// virtualInclude 'd.js'".
Proof.
  split; [vm_compute; reflexivity|]. split; [vm_compute; reflexivity|]. discriminate.
Qed.

End RoundTripProperties.

(** ** The running offset *)

Module OffsetProperties.
Import Text Regex LanguageService DocumentProcessor TextFacts UpdateProperties
  EditFacts RoundTripProperties.

(** The defect behind C5, for any document: when the first update of a
    pass inserts a region, the document grows by one line more than the
    running offset and than the processor's copy of the lines. *)
Lemma insert_outruns_offset
    cfg env document languageSettings i line nextLine content ctx :
  split (text document) !! i = Some line ->
  split (text document) !! (i + 1) = Some nextLine ->
  getContextAwareSettings cfg document i line
    (Some (stepResolvedPath env document line)) = Ret ctx ->
  isStartMarker languageSettings ctx nextLine = false ->
  let added := length (regionLines languageSettings ctx (indentOf line) content) in
  exists st',
    includeStep cfg env document languageSettings
      {| lineOffset := 0; currentLines := split (text document);
         hostText := text document; applied := [] |} (i, content) = Ret st'
    /\ lineOffset st' = Z.of_nat added
    /\ length (currentLines st') = length (split (text document)) + added
    /\ length (split (hostText st')) = length (split (text document)) + added + 1.
Proof.
  intros Hline Hnext Hctx Hfresh added. set (ls := languageSettings) in *.
  set (st0 := {| lineOffset := 0; currentLines := split (text document);
                 hostText := text document; applied := [] |}).
  pose proof (lookup_lt_Some _ _ _ Hnext) as Hlen.
  destruct (RegionProperties.includeStep_edit cfg env document ls st0 i content
              i line ctx nextLine)
    as (st' & lo & edit & Hstep & Hlo & Hoff & Hcur & Hhost & _ & Hkind).
  { simpl. lia. }
  { exact Hline. }
  { simpl. rewrite withText_same. exact Hctx. }
  { exact Hnext. }
  destruct Hkind as [(_ & -> & ->)|(Hstart & _)]; [|congruence].
  exists st'. split; [exact Hstep|].
  cbn [st0 lineOffset currentLines hostText] in *.
  subst added. clear Hstep. clearbody ls. clear st0.
  split_and!.
  - rewrite Hoff. lia.
  - rewrite Hcur, !length_app, length_firstn, length_skipn. lia.
  - rewrite Hhost. unfold regionTextOf.
    rewrite (split_after_insert _ _ _ _ _ _ Hline) by lia.
    unfold regionLines.
    rewrite !length_app, length_firstn, length_cons, length_skipn. lia.
Qed.

(** C5 fails on the code. The document has two directives that are not yet
    expanded. The first insertion adds four lines to the document (the text
    inserted at the end of the directive line starts and ends with a line
    feed), the running offset grows by three, and the second update goes to
    line 5 while its directive is on line 6: the region of the second
    directive is put above it. *)
Lemma second_update_misses_its_directive :
  let editor := Posix.editorOn "main.py" "python" Posix.twoDirectives in
  let result := processDocument Posix.defaultConfig (Posix.env Posix.twoFiles)
                  Posix.emptyManager editor in
  let first := EInsert 0 24 (newline_s +:+ Posix.regionPy "hello") in
  editsOf result
  = [(0, first); (2, EInsert 5 24 (newline_s +:+ Posix.regionPy "world"))]
  /\ length (split (applyEdit first (join Posix.twoDirectives))) = length Posix.twoDirectives + 4
  /\ split (applyEdit first (join Posix.twoDirectives)) !! 5 = Some "print('0123456789abcde')"
  /\ split (applyEdit first (join Posix.twoDirectives)) !! 6 = Some "# virtualInclude 'b.txt'"
  /\ linesOf result
     = ["# virtualInclude 'a.txt'"; Posix.startPy; "hello"; Posix.endPy; EmptyString;
        "print('0123456789abcde')"; Posix.startPy; "world"; Posix.endPy; EmptyString;
        "# virtualInclude 'b.txt'"; "done()"].
Proof. repeat split; vm_compute; reflexivity. Qed.

End OffsetProperties.

(** ** More on matching *)

Module MatchFacts.
Import Text Regex TextFacts RegexFacts Diagnostics.

Lemma startsWith_prefix t : forall s,
  startsWith t s = true -> exists b, s = t +:+ b.
Proof.
  induction t as [|c t IH]; intros s H.
  - exists s. rewrite append_nil_l. reflexivity.
  - destruct s as [|d s]; [discriminate|]. simpl in H.
    apply andb_true_iff in H as [Hc H]. apply Ascii.eqb_eq in Hc as ->.
    destruct (IH s H) as [b ->]. exists b. rewrite append_cons. reflexivity.
Qed.

(** [indexOf] answers with an offset where the needle stands. *)
Lemma indexOfFrom_sound needle : forall hay pos i,
  indexOfFrom needle hay pos = Some i ->
  exists a b, hay = a +:+ needle +:+ b /\ i = pos + String.length a.
Proof.
  induction hay as [|c hay IH]; intros pos i; simpl.
  - destruct (startsWith needle EmptyString) eqn:Hs; [|discriminate].
    intros [= <-]. apply startsWith_prefix in Hs as [b Hb].
    exists EmptyString, b. rewrite append_nil_l. split; [exact Hb|simpl; lia].
  - destruct (startsWith needle (String c hay)) eqn:Hs.
    + intros [= <-]. apply startsWith_prefix in Hs as [b Hb].
      exists EmptyString, b. rewrite append_nil_l. split; [exact Hb|simpl; lia].
    + intros H. destruct (IH _ _ H) as (a & b & -> & ->).
      exists (String c a), b. rewrite append_cons. split; [reflexivity|simpl; lia].
Qed.

(** It finds the needle wherever the needle stands, at the first place. *)
Lemma indexOfFrom_complete needle b : forall a pos,
  exists i,
    indexOfFrom needle (a +:+ needle +:+ b) pos = Some i
    /\ pos <= i <= pos + String.length a.
Proof.
  induction a as [|c a IH]; intros pos.
  - rewrite append_nil_l. exists pos.
    split; [|simpl; lia].
    destruct (needle +:+ b) eqn:E; simpl; rewrite <- E, startsWith_append;
      reflexivity.
  - rewrite append_cons. simpl.
    destruct (startsWith needle (String c (a +:+ needle +:+ b))).
    + exists pos. split; [reflexivity|lia].
    + destruct (IH (S pos)) as (i & Hi & Hb). exists i. split; [exact Hi|lia].
Qed.

(** What a successful match of the segments says: the match is a prefix of
    the subject, and the spans of the groups it adds are as many as the
    pattern has groups. *)
Lemma smatch_sound g : forall pos s acc e gs,
  smatch g pos s acc = Some (e, gs) ->
  exists w rest new,
    s = w +:+ rest /\ e = pos + String.length w
    /\ gs = acc ++ new /\ length new = groupCount g.
Proof.
  induction g as [|[r|r] g IH]; intros pos s acc e gs H; simpl in H.
  - injection H as <- <-. exists EmptyString, s, []. rewrite append_nil_l, app_nil_r.
    simpl. split_and!; try reflexivity. lia.
  - apply rmatch_sound in H as (w & rest & -> & _ & H).
    destruct (IH _ _ _ _ _ H) as (w' & rest' & new & -> & -> & -> & Hn).
    exists (w +:+ w'), rest', new. rewrite append_assoc, length_append.
    split_and!; try reflexivity; [lia|exact Hn].
  - apply rmatch_sound in H as (w & rest & -> & _ & H).
    destruct (IH _ _ _ _ _ H) as (w' & rest' & new & -> & -> & -> & Hn).
    exists (w +:+ w'), rest', ((pos, pos + String.length w) :: new).
    rewrite append_assoc, length_append, <- app_assoc. simpl.
    split_and!; try reflexivity; [lia|rewrite Hn; reflexivity].
Qed.

(** The match of [exec]: where it stands in the subject, its text, and
    the number of its groups. *)
Lemma exec_sound g s m :
  exec g s = Some m ->
  exists pre w rest,
    s = pre +:+ w +:+ rest
    /\ m_start m = String.length pre
    /\ m_end m = String.length pre + String.length w
    /\ matched s m = w
    /\ length (m_groups m) = groupCount g.
Proof.
  unfold exec. intros H.
  destruct (NeutralizeProperties.search_sound _ _ _ _ H) as (pre & s' & -> & Hstart & Hm).
  simpl in Hstart.
  destruct (smatch_sound _ _ _ _ _ _ Hm) as (w & rest & new & -> & He & Hg & Hn).
  exists pre, w, rest. split; [reflexivity|]. split; [exact Hstart|].
  split; [lia|]. split.
  - unfold matched. rewrite He, Hstart. apply NeutralizeProperties.slice_middle.
  - rewrite Hg. exact Hn.
Qed.

End MatchFacts.

Module MatcherCompleteness.
Import Text Regex TextFacts RegexFacts.

Lemma starLoop_None {A : Type}
    (body : nat -> string -> (nat -> string -> option A) -> option A)
    lazy k fuel pos s :
  starLoop body lazy k fuel pos s = None ->
  k pos s = None
  /\ match fuel with
     | O => True
     | S fuel' =>
         body pos s (fun pos' s' =>
           if Nat.ltb (String.length s') (String.length s)
           then starLoop body lazy k fuel' pos' s' else None) = None
     end.
Proof.
  destruct fuel as [|fuel]; simpl; destruct lazy.
  - destruct (k pos s); [discriminate|auto].
  - auto.
  - destruct (k pos s); [discriminate|]. auto.
  - destruct (body pos s _); [discriminate|]. auto.
Qed.

(** The matcher is complete: when it fails, the continuation refuses the
    rest after everything the expression can match. *)
Lemma rmatch_complete {A : Type} r : forall pos s (k : nat -> string -> option A),
  rmatch r pos s k = None ->
  forall w rest,
    s = w +:+ rest -> matches r pos w rest ->
    k (pos + String.length w) rest = None.
Proof.
  induction r as [| | |p|r1 IH1 r2 IH2|r1 IH1 r2 IH2|lazy r IH];
    intros pos s k Hnone w rest Hs Hm; simpl in Hnone.
  - inversion Hm; subst. rewrite append_nil_l in Hnone. simpl.
    rewrite Nat.add_0_r. exact Hnone.
  - inversion Hm; subst. rewrite append_nil_l in Hnone. exact Hnone.
  - inversion Hm; subst. rewrite append_nil_l in Hnone. simpl in *.
    rewrite Nat.add_0_r. exact Hnone.
  - inversion Hm as [| | |p' pos' c rest' Hc| | | | |]; subst.
    rewrite append_cons, append_nil_l in Hnone. rewrite Hc in Hnone.
    simpl. rewrite Nat.add_1_r. exact Hnone.
  - inversion Hm as [| | | |r1' r2' pos' w1 w2 rest' H1 H2| | | |]; subst.
    rewrite append_assoc in Hnone.
    pose proof (IH1 _ _ _ Hnone w1 (w2 +:+ rest) eq_refl H1) as Hk.
    simpl in Hk.
    pose proof (IH2 _ _ _ Hk w2 rest eq_refl H2) as Hk2.
    rewrite length_append, Nat.add_assoc. exact Hk2.
  - destruct (rmatch r1 pos s k) eqn:H1; [discriminate|].
    inversion Hm as [| | | | |r1' r2' pos' w' rest' Hl|r1' r2' pos' w' rest' Hr| |];
      subst; [exact (IH1 _ _ _ H1 _ _ eq_refl Hl)|
              exact (IH2 _ _ _ Hnone _ _ eq_refl Hr)].
  - remember (String.length s) as fuel eqn:Hfuel.
    assert (Hle : String.length s <= fuel) by lia. clear Hfuel.
    remember (RStar lazy r) as rs eqn:Hrs.
    revert fuel s Hs Hle Hnone.
    induction Hm as [| | | | | | |lazy' r' pos rest
                     |lazy' r' pos w1 w2 rest H1 _ H2 IHstar];
      try discriminate; intros fuel s Hs Hle Hnone;
      injection Hrs as -> ->.
    + subst s. rewrite append_nil_l in Hnone. simpl. rewrite Nat.add_0_r.
      exact (proj1 (starLoop_None _ _ _ _ _ _ Hnone)).
    + destruct w1 as [|c w1].
      * rewrite append_nil_l in *. simpl in IHstar. rewrite Nat.add_0_r in IHstar.
        exact (IHstar eq_refl fuel s Hs Hle Hnone).
      * subst s. destruct fuel as [|fuel];
          [rewrite !append_cons in Hle; simpl in Hle; lia|].
        destruct (starLoop_None _ _ _ _ _ _ Hnone) as [_ Hmore].
        rewrite append_assoc in Hmore.
        pose proof (IH _ _ _ Hmore (String c w1) (w2 +:+ rest) eq_refl H1) as Hk.
        cbv beta in Hk.
        assert (Hlt : Nat.ltb (String.length (w2 +:+ rest))
                        (String.length (String c w1 +:+ w2 +:+ rest)) = true).
        { apply Nat.ltb_lt. rewrite (length_append (String c w1)). simpl. lia. }
        rewrite Hlt in Hk.
        rewrite length_append, Nat.add_assoc.
        apply (IHstar eq_refl fuel (w2 +:+ rest) eq_refl); [|exact Hk].
        rewrite append_assoc, (length_append (String c w1)) in Hle.
        simpl in Hle. simpl. lia.
Qed.

End MatcherCompleteness.

(** ** Recognition of directives *)

Module RecognitionProperties.
Import Text Regex LanguageService TextFacts RegexFacts MatchFacts MatchSpec
  MatcherCompleteness.

Lemma allChars_append p a b :
  allChars p (a +:+ b) = allChars p a && allChars p b.
Proof.
  induction a as [|c a IH]; [rewrite append_nil_l; reflexivity|].
  rewrite append_cons. simpl. rewrite IH, andb_assoc. reflexivity.
Qed.

Lemma allChars_impl (p q : ascii -> bool) s :
  (forall c, p c = true -> q c = true) -> allChars p s = true -> allChars q s = true.
Proof.
  intros Hpq. induction s as [|c s IH]; [reflexivity|]. simpl.
  intros H. apply andb_true_iff in H as [Hc H]. rewrite (Hpq c Hc), (IH H).
  reflexivity.
Qed.

Lemma ws_noQuote s : allChars is_ws s = true -> noQuote s = true.
Proof.
  apply allChars_impl. intros c Hc.
  destruct c as [[] [] [] [] [] [] [] []]; try discriminate; reflexivity.
Qed.

Lemma matches_RLit_intro t : forall pos rest, matches (RLit t) pos t rest.
Proof.
  induction t as [|c t IH]; intros pos rest; simpl; [constructor|].
  change (String c t) with (String c EmptyString +:+ t).
  constructor.
  - constructor. apply Ascii.eqb_refl.
  - apply IH.
Qed.

Lemma matches_star_intro lazy p : forall w pos rest,
  allChars p w = true -> matches (RStar lazy (RChar p)) pos w rest.
Proof.
  induction w as [|c w IH]; intros pos rest H; [constructor|].
  simpl in H. apply andb_true_iff in H as [Hc H].
  change (String c w) with (String c EmptyString +:+ w).
  apply MStarStep; [constructor; exact Hc|apply IH, H].
Qed.

Lemma matches_plus_intro lazy p w pos rest :
  w <> EmptyString -> allChars p w = true ->
  matches (RPlus lazy (RChar p)) pos w rest.
Proof.
  destruct w as [|c w]; [congruence|]. intros _ H. simpl in H.
  apply andb_true_iff in H as [Hc H].
  change (String c w) with (String c EmptyString +:+ w).
  unfold RPlus. constructor; [constructor; exact Hc|].
  apply matches_star_intro, H.
Qed.

Lemma matches_star_chars lazy p pos w rest :
  matches (RStar lazy (RChar p)) pos w rest -> allChars p w = true.
Proof.
  remember (RStar lazy (RChar p)) as r eqn:Hr. intros H.
  induction H as [| | | | | | | |lazy' r' pos w1 w2 rest H1 _ H2 IH];
    try discriminate; [reflexivity|].
  injection Hr as -> ->.
  inversion H1 as [| | |p' pos' c rest' Hc| | | | |]; subst.
  rewrite allChars_append. simpl. rewrite Hc, (IH eq_refl). reflexivity.
Qed.

Lemma matches_plus_chars lazy p pos w rest :
  matches (RPlus lazy (RChar p)) pos w rest ->
  w <> EmptyString /\ allChars p w = true.
Proof.
  unfold RPlus. intros H.
  inversion H as [| | | |r1 r2 pos' w1 w2 rest' H1 H2| | | |]; subst.
  inversion H1 as [| | |p' pos'' c rest'' Hc| | | | |]; subst.
  apply matches_star_chars in H2.
  rewrite append_cons, append_nil_l. split; [discriminate|].
  simpl. rewrite Hc, H2. reflexivity.
Qed.

(** A search that fails has failed at every offset. *)
Lemma search_None g s' : forall a pos,
  search g pos (a +:+ s') = None ->
  smatch g (pos + String.length a) s' [] = None.
Proof.
  induction a as [|c a IH]; intros pos H.
  - rewrite append_nil_l in H. simpl. rewrite Nat.add_0_r.
    destruct s'; simpl in H; destruct (smatch g pos _ []) as [[e gs]|];
      try discriminate; reflexivity.
  - rewrite append_cons in H. simpl in H.
    destruct (smatch g pos (String c (a +:+ s')) []) as [[e gs]|]; [discriminate|].
    apply IH in H. simpl. rewrite <- H. f_equal. lia.
Qed.

(** Where the first quote stands decides how a text splits around a
    quote. *)
Lemma quote_split a : forall x q1 qa m n,
  noQuote a = true -> is_quote qa = true ->
  a +:+ String q1 m = x +:+ String qa n ->
  (x = a /\ qa = q1 /\ n = m)
  \/ exists y, x = a +:+ String q1 y /\ m = y +:+ String qa n.
Proof.
  induction a as [|c a IH]; intros x q1 qa m n Ha Hqa H.
  - rewrite append_nil_l in H. destruct x as [|d x].
    + rewrite append_nil_l in H. injection H as -> ->. left. auto.
    + rewrite append_cons in H. injection H as -> ->. right. exists x.
      rewrite append_nil_l. auto.
  - simpl in Ha. apply andb_true_iff in Ha as [Hc Ha].
    rewrite append_cons in H. destruct x as [|d x].
    + rewrite append_nil_l in H. injection H as -> _.
      rewrite Hqa in Hc. discriminate.
    + rewrite append_cons in H. injection H as -> H.
      destruct (IH _ _ _ _ _ Ha Hqa H) as [(-> & -> & ->)|(y & -> & ->)].
      * left. auto.
      * right. exists y. rewrite append_cons. auto.
Qed.

Lemma noQuote_no_quote a q b : is_quote q = true -> noQuote (a +:+ String q b) = false.
Proof.
  intros Hq. unfold noQuote. rewrite allChars_append. simpl. rewrite Hq. simpl.
  apply andb_false_r.
Qed.


(** X7. A directive is recognised and its path is read back: a line that holds
    the comment token, optional white space, the keyword, white space and a
    path between quotes is matched by the pattern built for the token, and
    the first group of the match is the path, when the token, the path and
    the text around the directive hold no quote. *)
Theorem directive_path_extracted style pre w1 w2 q1 p q2 post :
  allChars is_ws w1 = true ->
  allChars is_ws w2 = true -> w2 <> EmptyString ->
  is_quote q1 = true -> is_quote q2 = true ->
  p <> EmptyString -> allChars is_dot p = true ->
  noQuote pre = true -> noQuote (cs_start style) = true ->
  noQuote p = true -> noQuote post = true ->
  let line :=
    pre +:+ cs_start style +:+ w1 +:+ keyword +:+ w2
      +:+ String q1 p +:+ String q2 post in
  exists m,
    exec (includeDirectivePattern (createDefaultSettings style)) line = Some m
    /\ group line m 1 = Some p.
Proof.
  intros Hw1 Hw2 Hw2ne Hq1 Hq2 Hpne Hpdot Hpre Htoken Hp Hpost line.
  set (T := cs_start style) in *.
  destruct (exec (includeDirectivePattern (createDefaultSettings style)) line)
    as [m|] eqn:He.
  2: { exfalso. unfold exec in He. unfold line in He.
       apply search_None in He.
       cbn [createDefaultSettings includeDirectivePattern smatch] in He.
       fold T in He.
       assert (Hsplit :
                 T +:+ w1 +:+ keyword +:+ w2 +:+ String q1 p +:+ String q2 post
                 = (T +:+ w1 +:+ keyword +:+ w2 +:+ String q1 EmptyString)
                   +:+ p +:+ String q2 post).
       { rewrite !append_assoc. reflexivity. }
       assert (Hhead :
                 matches (RSeq (RLit T) (RSeq (RStar false ws) directiveHead))
                   (0 + String.length pre)
                   (T +:+ w1 +:+ keyword +:+ w2 +:+ String q1 EmptyString)
                   (p +:+ String q2 post)).
       { constructor; [apply matches_RLit_intro|].
         constructor; [apply matches_star_intro, Hw1|].
         unfold directiveHead.
         constructor; [apply matches_RLit_intro|].
         constructor; [apply matches_plus_intro; assumption|].
         constructor. exact Hq1. }
       pose proof (rmatch_complete _ _ _ _ He _ _ Hsplit Hhead) as He2.
       cbv beta in He2.
       assert (Hpath : matches (RPlus true dot)
                         (0 + String.length pre
                          + String.length
                              (T +:+ w1 +:+ keyword +:+ w2 +:+ String q1 EmptyString))
                         p (String q2 post))
         by (apply matches_plus_intro; assumption).
       pose proof (rmatch_complete _ _ _ _ He2 _ _ eq_refl Hpath) as He3.
       cbv beta in He3. simpl in He3. rewrite Hq2 in He3. discriminate. }
  exists m. split; [reflexivity|].
  unfold exec in He.
  destruct (NeutralizeProperties.search_sound _ _ _ _ He) as (pre' & s' & Hline & Hstart & Hm).
  cbn [createDefaultSettings includeDirectivePattern smatch] in Hm. fold T in Hm.
  simpl in Hstart.
  apply rmatch_sound in Hm as (ws1 & rest1 & -> & Hs1 & Hm).
  apply rmatch_sound in Hm as (g & rest2 & -> & Hg & Hm).
  apply rmatch_sound in Hm as (wq & rest3 & -> & Hwq & Hm).
  injection Hm as Hend Hgroups.
  apply NeutralizeProperties.matches_RSeq_inv in Hs1 as (wT & x1 & -> & HwT & Hs1).
  apply matches_RLit in HwT. subst wT.
  apply NeutralizeProperties.matches_RSeq_inv in Hs1 as (wa & x2 & -> & Hwa & Hs1).
  apply matches_star_chars in Hwa.
  unfold directiveHead in Hs1.
  apply NeutralizeProperties.matches_RSeq_inv in Hs1 as (wk & x3 & -> & Hwk & Hs1).
  apply matches_RLit in Hwk. subst wk.
  apply NeutralizeProperties.matches_RSeq_inv in Hs1 as (wb & x4 & -> & Hwb & Hs1).
  apply matches_plus_chars in Hwb as [_ Hwb].
  apply NeutralizeProperties.matches_RChar_inv in Hs1 as (qa & -> & Hqa).
  apply NeutralizeProperties.matches_RChar_inv in Hwq as (qb & -> & Hqb).
  set (seg1 := T +:+ wa +:+ keyword +:+ wb +:+ String qa EmptyString) in *.
  assert (Hgroup : group line m 1 = Some g).
  { unfold group. rewrite <- Hgroups. simpl. f_equal. rewrite Hline, Hstart.
    replace (String.length pre' + String.length seg1)
      with (String.length (pre' +:+ seg1)) by apply length_append.
    rewrite <- (append_assoc pre' seg1).
    apply NeutralizeProperties.slice_middle. }
  rewrite Hgroup. f_equal.
  (* the two readings of the line *)
  set (a := pre +:+ T +:+ w1 +:+ keyword +:+ w2).
  set (x := pre' +:+ T +:+ wa +:+ keyword +:+ wb).
  assert (Ha : noQuote a = true).
  { unfold a, noQuote. rewrite !allChars_append.
    fold (noQuote pre) (noQuote T) (noQuote w1) (noQuote w2).
    rewrite Hpre, Htoken, (ws_noQuote _ Hw1), (ws_noQuote _ Hw2). reflexivity. }
  assert (Heq : a +:+ String q1 (p +:+ String q2 post)
                = x +:+ String qa (g +:+ String qb rest3)).
  { transitivity line.
    - unfold a, line. rewrite !append_assoc. reflexivity.
    - rewrite Hline. unfold x, seg1. rewrite !append_assoc. reflexivity. }
  destruct (quote_split _ _ _ _ _ _ Ha Hqa Heq) as [(_ & _ & Hn)|(y & _ & Hm')].
  - symmetry in Hn.
    destruct (quote_split _ _ _ _ _ _ Hp Hqb Hn) as [(Hgp & _)|(y & _ & Hpost')];
      [exact Hgp|].
    rewrite Hpost' in Hpost. rewrite (noQuote_no_quote _ _ _ Hqb) in Hpost.
    discriminate.
  - destruct (quote_split _ _ _ _ _ _ Hp Hqa Hm') as [(_ & _ & Hpost')|(y' & _ & Hpost')].
    + rewrite <- Hpost' in Hpost. rewrite (noQuote_no_quote _ _ _ Hqb) in Hpost.
      discriminate.
    + rewrite Hpost' in Hpost. rewrite (noQuote_no_quote _ _ _ Hqa) in Hpost.
      discriminate.
Qed.

Lemma directive_path_extracted_witness :
  exists m,
    exec (includeDirectivePattern (createDefaultSettings (line_style "//")))
      "  // virtualInclude 'lib/a.js' // shared"
    = Some m
    /\ group "  // virtualInclude 'lib/a.js' // shared" m 1 = Some "lib/a.js".
Proof.
  apply (directive_path_extracted (line_style "//") "  " " " " " "'"%char
           "lib/a.js" "'"%char " // shared");
    (vm_compute; reflexivity) || discriminate.
Defined.

End RecognitionProperties.

(** ** Edit protection *)

Module EditProtectionProperties.
Import Text Regex LanguageService DocumentProcessor EditProtection TextFacts
  EditFacts RoundTripProperties.

Section Regions.
Variables (languageSettings : LanguageSettings) (lines : list string).

Local Abbreviation isStart := (isStart languageSettings).
Local Abbreviation isEnd := (isEnd languageSettings).
Local Abbreviation wellFormed := (wellFormed languageSettings lines).
Local Abbreviation scanInvariant := (scanInvariant languageSettings lines).

Lemma wellFormed_mono i j r : i <= j -> wellFormed i r -> wellFormed j r.
Proof. unfold wellFormed. intros Hle (H1 & H2). split; [lia|exact H2]. Qed.

Lemma ascending_snoc regions r :
  ascending regions ->
  Forall (fun r' => r_end r' < r_start r) regions ->
  ascending (regions ++ [r]).
Proof.
  intros Hasc Hall k r1 r2 H1 H2.
  destruct (decide (S k < length regions)) as [Hlt|Hge].
  - rewrite lookup_app_l in H1, H2 by lia. exact (Hasc k r1 r2 H1 H2).
  - pose proof (lookup_lt_Some _ _ _ H2) as Hb. rewrite length_app in Hb.
    simpl in Hb. assert (S k = length regions) as Hk by lia.
    rewrite lookup_app_l in H1 by lia.
    rewrite lookup_app_r in H2 by lia. rewrite Hk, Nat.sub_diag in H2.
    injection H2 as <-.
    rewrite Forall_forall in Hall. apply Hall.
    apply list_elem_of_lookup. eauto.
Qed.

Lemma regionStep_invariant i l st :
  lines !! i = Some l ->
  scanInvariant i st ->
  scanInvariant (S i) (regionStep languageSettings st i l).
Proof.
  intros Hl (Hwf & Hasc & Hcur). unfold regionStep.
  assert (Hwf' : Forall (wellFormed (S i)) (protectedRegions st)).
  { eapply Forall_impl; [exact Hwf|]. intros r. apply wellFormed_mono. lia. }
  change (String.eqb (trim l) (trim (startMarkerTemplate languageSettings)))
    with (isStart l).
  change (String.eqb (trim l) (trim (endMarkerTemplate languageSettings)))
    with (isEnd l).
  destruct (isStart l) eqn:Hs.
  - split; [exact Hwf'|]. split; [exact Hasc|]. simpl.
    exists i. split; [reflexivity|]. split; [lia|]. split; [eauto|].
    split; [intros k l' Hk; lia|].
    destruct (inProtectedRegion st).
    + destruct Hcur as (s & _ & Hsi & _ & _ & Hall).
      eapply Forall_impl; [exact Hall|]. intros r Hr. simpl in Hr. lia.
    + eapply Forall_impl; [exact Hwf|]. intros r [[_ Hr] _]. exact Hr.
  - destruct (isEnd l) eqn:He; simpl.
    + destruct (inProtectedRegion st) eqn:Hin; simpl.
      * destruct Hcur as (s & -> & Hsi & Hstart & Hbetween & Hall).
        split; [|split; [|reflexivity]].
        -- apply Forall_app. split; [exact Hwf'|]. constructor; [|constructor].
           unfold wellFormed. simpl. split; [lia|]. split; [exact Hstart|].
           split; [eauto|]. exact Hbetween.
        -- apply ascending_snoc; assumption.
      * split; [exact Hwf'|]. split; [exact Hasc|]. rewrite Hin. exact Hcur.
    + split; [exact Hwf'|]. split; [exact Hasc|].
      destruct (inProtectedRegion st); [|exact Hcur].
      destruct Hcur as (s & Hc & Hsi & Hstart & Hbetween & Hall).
      exists s. split; [exact Hc|]. split; [lia|]. split; [exact Hstart|].
      split; [|exact Hall].
      intros k l' Hk Hl'. destruct (decide (k = i)) as [->|Hne].
      * rewrite Hl in Hl'. injection Hl' as <-. auto.
      * apply (Hbetween k l'); [lia|exact Hl'].
Qed.

Lemma regionLoop_invariant : forall rest i st,
  skipn i lines = rest ->
  scanInvariant i st ->
  scanInvariant (length lines) (regionLoop languageSettings i rest st).
Proof.
  induction rest as [|l rest IH]; intros i st Hrest Hinv.
  - simpl. assert (length lines <= i) as Hle.
    { apply (f_equal (@length string)) in Hrest. rewrite length_skipn in Hrest.
      simpl in Hrest. lia. }
    destruct Hinv as (Hwf & Hasc & Hcur).
    assert (Hi : i <= length lines \/ length lines < i) by lia.
    destruct Hi as [Hi|Hi].
    + assert (i = length lines) as -> by lia. split; [exact Hwf|]. split; assumption.
    + (* the loop never starts past the end *)
      split; [|split; [exact Hasc|]].
      * eapply Forall_impl; [exact Hwf|]. intros r ((H1 & H2) & Hs & (le & Hle' & He) & Hb).
        split; [|eauto]. split; [lia|]. apply lookup_lt_Some in Hle'. lia.
      * destruct (inProtectedRegion st); [|exact Hcur].
        destruct Hcur as (s & Hc & Hsi & (ls & Hls & Hst) & Hbetween & Hall).
        exists s. split; [exact Hc|]. split; [apply lookup_lt_Some in Hls; lia|].
        split; [eauto|]. split; [|exact Hall].
        intros k l' Hk. apply Hbetween. lia.
  - simpl. apply (IH (S i)).
    + rewrite <- (Nat.add_1_l i), <- skipn_skipn, Hrest. reflexivity.
    + apply regionStep_invariant; [|exact Hinv].
      rewrite <- (Nat.add_0_r i), <- lookup_drop. unfold drop in *.
      rewrite Hrest. reflexivity.
Qed.

End Regions.

(** What the loop has established at the end of the document. *)
Lemma findProtectedRegions_invariant languageSettings lines :
  Forall (wellFormed languageSettings lines (length lines))
    (findProtectedRegions languageSettings lines)
  /\ ascending (findProtectedRegions languageSettings lines).
Proof.
  assert (Hinit : scanInvariant languageSettings lines 0
                    {| inProtectedRegion := false; currentStart := None;
                       protectedRegions := [] |}).
  { split; [constructor|]. split; [intros k r1 r2 H; discriminate|reflexivity]. }
  destruct (regionLoop_invariant languageSettings lines lines 0 _ eq_refl Hinit)
    as (Hwf & Hasc & _).
  split; assumption.
Qed.

(** X1. The regions the protection finds are well formed: each opens at a start
    marker and closes at an end marker further down, no marker of either
    kind lies strictly between the two, and the regions follow one another
    without overlap. *)
Theorem protected_regions_well_formed languageSettings lines :
  (forall r,
     r ∈ findProtectedRegions languageSettings lines ->
     r_start r < r_end r < length lines
     /\ (exists l, lines !! r_start r = Some l /\ isStart languageSettings l = true)
     /\ (exists l, lines !! r_end r = Some l /\ isEnd languageSettings l = true)
     /\ (forall k l,
           r_start r < k < r_end r -> lines !! k = Some l ->
           isStart languageSettings l = false /\ isEnd languageSettings l = false))
  /\ (forall k r1 r2,
        findProtectedRegions languageSettings lines !! k = Some r1 ->
        findProtectedRegions languageSettings lines !! S k = Some r2 ->
        r_end r1 < r_start r2).
Proof.
  destruct (findProtectedRegions_invariant languageSettings lines) as (Hwf & Hasc).
  split; [|exact Hasc].
  intros r Hr. rewrite Forall_forall in Hwf.
  destruct (Hwf r Hr) as (Hb & Hs & (l & Hl & He & _) & Hbetween).
  split; [exact Hb|]. split; [exact Hs|]. split; [exists l; auto|exact Hbetween].
Qed.

Lemma affects_overlap r s e :
  s <= e ->
  affects r s e = true
  <-> (exists l, s <= l <= e /\ r_start r < l < r_end r)
      \/ (s <= r_start r /\ r_end r <= e).
Proof.
  intros Hse. unfold affects.
  rewrite !orb_true_iff, !andb_true_iff, !Z.leb_le, !Z.ltb_lt. split.
  - intros [[H|H]|H].
    + left. exists s. lia.
    + left. exists e. lia.
    + right. lia.
  - intros [(l & H1 & H2)|H]; lia.
Qed.

Lemma regionsAffected_exists regions s e :
  regionsAffected regions s e = true
  <-> exists region, region ∈ regions /\ affects region s e = true.
Proof.
  induction regions as [|r regions IH]; simpl.
  - split; [discriminate|]. intros (r & Hr & _). inversion Hr.
  - destruct (affects r s e) eqn:Ha.
    + split; [|reflexivity]. intros _. exists r. split; [left|exact Ha].
    + rewrite IH. split.
      * intros (r' & Hr' & Ha'). exists r'. split; [right; exact Hr'|exact Ha'].
      * intros (r' & Hr' & Ha'). apply elem_of_cons in Hr' as [->|Hr'];
          [congruence|eauto].
Qed.

Lemma changesLoop_result regions changes m :
  (changesLoop regions changes m = (showWarningMessage protectedEditWarning m, true)
   /\ exists change,
        change ∈ changes
        /\ regionsAffected regions (pos_line (range_start change))
             (pos_line (range_end change)) = true)
  \/ (changesLoop regions changes m = (m, false)
      /\ forall change,
           change ∈ changes ->
           regionsAffected regions (pos_line (range_start change))
             (pos_line (range_end change)) = false).
Proof.
  induction changes as [|c changes IH]; simpl.
  - right. split; [reflexivity|]. intros c Hc. inversion Hc.
  - destruct (regionsAffected regions _ _) eqn:Ha.
    + left. split; [reflexivity|]. exists c. split; [left|exact Ha].
    + destruct IH as [(-> & c' & Hc' & Ha')|(-> & Hnone)].
      * left. split; [reflexivity|]. exists c'. split; [right; exact Hc'|exact Ha'].
      * right. split; [reflexivity|]. intros c' Hc'.
        apply elem_of_cons in Hc' as [->|Hc']; [exact Ha|exact (Hnone c' Hc')].
Qed.

(** What the handler answers, with the settings of the language
    resolved. *)
Lemma handleProtectedEdits_outcome cfg m e languageSettings :
  getLanguageSettings cfg (languageId (ev_document e)) = Ret languageSettings ->
  let regions :=
    findProtectedRegions languageSettings (split (text (ev_document e))) in
  let flagged :=
    exists change region,
      change ∈ ev_contentChanges e /\ region ∈ regions
      /\ affects region (pos_line (range_start change))
           (pos_line (range_end change)) = true in
  (isPerformingUpdate m = false -> flagged ->
   handleProtectedEdits cfg m e
   = Ret (showWarningMessage protectedEditWarning m, true))
  /\ (~ flagged -> handleProtectedEdits cfg m e = Ret (m, false)).
Proof.
  intros Hsettings regions flagged. unfold handleProtectedEdits.
  rewrite Hsettings. cbn [bindExc]. fold regions.
  assert (Hloop : Nat.ltb 0 (length (ev_contentChanges e)) = false ->
                  ev_contentChanges e = []).
  { destruct (ev_contentChanges e); [reflexivity|discriminate]. }
  split.
  - intros -> (change & region & Hc & Hr & Ha).
    destruct (Nat.ltb 0 (length (ev_contentChanges e))) eqn:Hlen.
    + destruct (changesLoop_result regions (ev_contentChanges e) m)
        as [[-> _]|[_ Hnone]]; [reflexivity|].
      specialize (Hnone change Hc).
      assert (regionsAffected regions (pos_line (range_start change))
                (pos_line (range_end change)) = true) as Ht
        by (apply regionsAffected_exists; eauto).
      congruence.
    + rewrite (Hloop eq_refl) in Hc. inversion Hc.
  - intros Hnot. destruct (isPerformingUpdate m); [reflexivity|].
    destruct (Nat.ltb 0 (length (ev_contentChanges e))); [|reflexivity].
    destruct (changesLoop_result regions (ev_contentChanges e) m)
      as [[_ (change & Hc & Ha)]|[-> _]]; [|reflexivity].
    apply regionsAffected_exists in Ha as (region & Hr & Ha).
    exfalso. apply Hnot. exists change, region. auto.
Qed.

(** X2. One change event is answered by at most one warning: none while a
    programmatic update is in progress, and otherwise exactly one, with the
    restoring pass scheduled, when some change of the event affects some
    protected region, and nothing at all when none does. The settings of
    the language are read after the test of the gate and outside any [try]:
    when they cannot be resolved, the call throws. *)
Theorem protected_edits_warned_once cfg m e :
  (isPerformingUpdate m = true -> handleProtectedEdits cfg m e = Ret (m, false))
  /\ (forall languageSettings,
        getLanguageSettings cfg (languageId (ev_document e)) = Ret languageSettings ->
        let regions :=
          findProtectedRegions languageSettings (split (text (ev_document e))) in
        let flagged :=
          exists change region,
            change ∈ ev_contentChanges e /\ region ∈ regions
            /\ affects region (pos_line (range_start change))
                 (pos_line (range_end change)) = true in
        (isPerformingUpdate m = false -> flagged ->
         handleProtectedEdits cfg m e
         = Ret (showWarningMessage protectedEditWarning m, true))
        /\ (~ flagged -> handleProtectedEdits cfg m e = Ret (m, false)))
  /\ (forall error,
        isPerformingUpdate m = false ->
        getLanguageSettings cfg (languageId (ev_document e)) = Throw error ->
        handleProtectedEdits cfg m e = Throw error).
Proof.
  split_and!.
  - unfold handleProtectedEdits. intros ->. reflexivity.
  - intros languageSettings Hsettings.
    apply (handleProtectedEdits_outcome cfg m e languageSettings Hsettings).
  - intros error Hgate Hsettings. unfold handleProtectedEdits.
    rewrite Hgate, Hsettings. reflexivity.
Qed.

(** X3. The protection covers the content of a region and not its markers: a
    change that starts on a line strictly between the markers of a region
    is flagged, and an event whose only change stays on one marker line is
    not. *)
Theorem protection_covers_content_only cfg m e languageSettings change :
  isPerformingUpdate m = false ->
  getLanguageSettings cfg (languageId (ev_document e)) = Ret languageSettings ->
  change ∈ ev_contentChanges e ->
  let lines := split (text (ev_document e)) in
  (forall region,
     region ∈ findProtectedRegions languageSettings lines ->
     r_start region < pos_line (range_start change) < r_end region ->
     handleProtectedEdits cfg m e
     = Ret (showWarningMessage protectedEditWarning m, true))
  /\ (forall l,
        ev_contentChanges e = [change] ->
        pos_line (range_end change) = pos_line (range_start change) ->
        lines !! pos_line (range_start change) = Some l ->
        isStart languageSettings l || isEnd languageSettings l = true ->
        handleProtectedEdits cfg m e = Ret (m, false)).
Proof.
  intros Hgate Hsettings Hchange lines. set (ls := languageSettings).
  destruct (handleProtectedEdits_outcome cfg m e ls Hsettings) as (Hflag & Hquiet).
  split.
  - intros region Hregion Hin. apply (Hflag Hgate).
    exists change, region. split; [exact Hchange|]. split; [exact Hregion|].
    unfold affects. rewrite !orb_true_iff, !andb_true_iff, !Z.leb_le. left. left. lia.
  - intros l Hone Hsame Hl Hmarker. apply Hquiet.
    intros (c & region & Hc & Hregion & Ha).
    rewrite Hone in Hc. apply list_elem_of_singleton in Hc as ->.
    rewrite Hsame in Ha.
    destruct (findProtectedRegions_invariant ls lines) as [Hwf _].
    rewrite Forall_forall in Hwf.
    destruct (Hwf region Hregion) as (Hb & _ & _ & Hbetween).
    apply affects_overlap in Ha as [(k & Hk1 & Hk2)|Hcover]; [|lia|lia].
    assert (k = pos_line (range_start change)) as -> by lia.
    destruct (Hbetween _ l Hk2 Hl) as [H1 H2]. rewrite H1, H2 in Hmarker.
    discriminate.
Qed.

Lemma protection_covers_content_only_witness :
  let document :=
    {| uri := "file:///w/main.py"; fsPath := "/w/main.py"; languageId := "python";
       text := join ["# virtualInclude 'a.txt'"; Posix.startPy; "hello";
                     Posix.endPy; "x = 1"];
       isClosed := false |} in
  let on (i : nat) :=
    {| range_start := {| pos_line := i; pos_character := 0 |};
       range_end := {| pos_line := i; pos_character := 1 |};
       change_text := "y" |} in
  handleProtectedEdits Posix.defaultConfig Posix.emptyManager
    {| ev_document := document; ev_contentChanges := [on 2] |}
  = Ret (showWarningMessage protectedEditWarning Posix.emptyManager, true)
  /\ handleProtectedEdits Posix.defaultConfig Posix.emptyManager
       {| ev_document := document; ev_contentChanges := [on 1] |}
     = Ret (Posix.emptyManager, false).
Proof.
  intros document on. split.
  - apply (protection_covers_content_only Posix.defaultConfig Posix.emptyManager
             {| ev_document := document; ev_contentChanges := [on 2] |}
             Posix.python (on 2) eq_refl eq_refl (list_elem_of_here _ _))
      with (region := {| r_start := 1; r_end := 3 |}).
    + vm_compute. apply list_elem_of_here.
    + simpl. lia.
  - apply (protection_covers_content_only Posix.defaultConfig Posix.emptyManager
             {| ev_document := document; ev_contentChanges := [on 1] |}
             Posix.python (on 1) eq_refl eq_refl (list_elem_of_here _ _))
      with (l := Posix.startPy); vm_compute; reflexivity.
Defined.

(** *** Saving *)

Lemma saveLoop_app languageSettings : forall pre i rest st,
  saveLoop languageSettings i (pre ++ rest) st
  = saveLoop languageSettings (i + length pre) rest
      (saveLoop languageSettings i pre st).
Proof.
  induction pre as [|l pre IH]; intros i rest st; simpl.
  - rewrite Nat.add_0_r. reflexivity.
  - rewrite IH. f_equal. lia.
Qed.

(** Before line [i] of the loop of [preventProtectedEdits]: an open region
    began at a start marker above, and no marker follows that line. *)
Lemma saveLoop_open languageSettings (lines : list string) : forall rest i st,
  skipn i lines = rest ->
  (sv_inProtectedRegion st = true ->
   exists s l, sv_protectedStart st = Some s /\ s < i /\ lines !! s = Some l
               /\ isStart languageSettings l = true
               /\ forall k l', s < k < i -> lines !! k = Some l' ->
                    isStart languageSettings l' = false
                    /\ isEnd languageSettings l' = false) ->
  sv_inProtectedRegion (saveLoop languageSettings i rest st) = true ->
  exists s l,
    sv_protectedStart (saveLoop languageSettings i rest st) = Some s
    /\ lines !! s = Some l
    /\ isStart languageSettings l = true
    /\ forall k l', s < k -> lines !! k = Some l' ->
         isStart languageSettings l' = false /\ isEnd languageSettings l' = false.
Proof.
  induction rest as [|l rest IH]; intros i st Hrest Hst Hopen; simpl in *.
  - destruct (Hst Hopen) as (s & ls & Hs & Hsi & Hls & Hstart & Hbetween).
    exists s, ls. split; [exact Hs|]. split; [exact Hls|]. split; [exact Hstart|].
    intros k l' Hk Hl'. apply (Hbetween k l'); [|exact Hl'].
    apply lookup_lt_Some in Hl'.
    apply (f_equal (@length string)) in Hrest. rewrite length_skipn in Hrest.
    simpl in Hrest. lia.
  - assert (Hl : lines !! i = Some l).
    { rewrite <- (Nat.add_0_r i), <- lookup_drop. unfold drop. rewrite Hrest.
      reflexivity. }
    apply (IH (S i)); [| |exact Hopen].
    + rewrite <- (Nat.add_1_l i), <- skipn_skipn, Hrest. reflexivity.
    + unfold saveStep.
      change (String.eqb (trim l) (trim (startMarkerTemplate languageSettings)))
        with (isStart languageSettings l).
      change (String.eqb (trim l) (trim (endMarkerTemplate languageSettings)))
        with (isEnd languageSettings l).
      destruct (isStart languageSettings l) eqn:Hs; simpl.
      * intros _. exists i, l. split; [reflexivity|]. split; [lia|].
        split; [exact Hl|]. split; [exact Hs|]. intros k l' Hk. lia.
      * destruct (isEnd languageSettings l) eqn:He; simpl; [discriminate|].
        intros Hin. destruct (Hst Hin) as (s & ls & Hps & Hsi & Hls & Hstart & Hb).
        exists s, ls. split; [exact Hps|]. split; [lia|]. split; [exact Hls|].
        split; [exact Hstart|]. intros k l' Hk Hl'.
        destruct (decide (k = i)) as [->|Hne].
        -- rewrite Hl in Hl'. injection Hl' as <-. auto.
        -- apply (Hb k l'); [lia|exact Hl'].
Qed.

(** X4. What a save asks for. The call reads the settings of the language of
    the document outside any [try], and throws when they cannot be
    resolved. When they resolve it asks for nothing, or for one insertion
    at the end of the document of an end marker behind the indentation of
    the last start marker, when no marker follows that start marker. When
    the two marker templates differ once trimmed, the start template is not
    blank and the end template is a single line, the document with the
    insertion applied has no open region left: a second save asks for
    nothing. *)
Theorem save_closes_open_region cfg document :
  (forall error,
     getLanguageSettings cfg (languageId document) = Throw error ->
     preventProtectedEdits cfg document = Throw error)
  /\ forall languageSettings,
  getLanguageSettings cfg (languageId document) = Ret languageSettings ->
  let lines := split (text document) in
  exists edits,
    preventProtectedEdits cfg document = Ret edits
    /\ (edits = []
        \/ exists s startLine,
             lines !! s = Some startLine
             /\ isStart languageSettings startLine = true
             /\ (forall k l, s < k -> lines !! k = Some l ->
                   isStart languageSettings l = false
                   /\ isEnd languageSettings l = false)
             /\ edits
                = [EInsert (length lines) 0
                     (newline_s
                      +:+ (indentOf startLine +:+ endMarkerTemplate languageSettings)
                      +:+ newline_s)]
             /\ applyEdit
                  (EInsert (length lines) 0
                     (newline_s
                      +:+ (indentOf startLine +:+ endMarkerTemplate languageSettings)
                      +:+ newline_s))
                  (text document)
                = text document +:+ newline_s
                  +:+ (indentOf startLine +:+ endMarkerTemplate languageSettings)
                  +:+ newline_s)
    /\ (trim (startMarkerTemplate languageSettings)
        <> trim (endMarkerTemplate languageSettings) ->
        trim (startMarkerTemplate languageSettings) <> EmptyString ->
        singleLine (endMarkerTemplate languageSettings) = true ->
        preventProtectedEdits cfg
          (withText document
             (fold_left (fun txt edit => applyEdit edit txt) edits (text document)))
        = Ret []).
Proof.
  split.
  { intros error Hsettings. unfold preventProtectedEdits.
    rewrite Hsettings. reflexivity. }
  intros ls Hsettings lines. unfold preventProtectedEdits.
  rewrite Hsettings. cbn [bindExc]. fold lines.
  set (st0 := {| sv_inProtectedRegion := false; sv_protectedStart := None |}).
  destruct (sv_inProtectedRegion (saveLoop ls 0 lines st0)) eqn:Hopen.
  2: { exists []. split; [reflexivity|]. split; [left; reflexivity|].
       intros _ _ _. cbn [fold_left]. rewrite withText_same.
       unfold preventProtectedEdits. rewrite Hsettings. cbn [bindExc].
       fold lines. fold st0. rewrite Hopen. reflexivity. }
  destruct (saveLoop_open ls lines lines 0 st0 eq_refl) as (s & l & Hs & Hl & Hstart & Hafter).
  { discriminate. }
  { exact Hopen. }
  rewrite Hs, Hl. eexists. split; [reflexivity|].
  assert (Hne : lines <> []) by apply split_nonempty.
  assert (Happly :
            applyEdit
              (EInsert (length lines) 0
                 (newline_s +:+ (indentOf l +:+ endMarkerTemplate ls) +:+ newline_s))
              (text document)
            = text document +:+ newline_s
              +:+ (indentOf l +:+ endMarkerTemplate ls) +:+ newline_s).
  { unfold applyEdit, offsetAt. fold lines.
    rewrite (offsetIn_past lines _ _ Hne (Nat.le_refl _)).
    unfold lines. rewrite join_split, take_all, drop_all, append_nil_r.
    reflexivity. }
  split.
  { right. exists s, l. split_and!; auto. }
  intros Hdiff Hblank Hsingle. cbn [fold_left]. rewrite Happly.
  unfold preventProtectedEdits. simpl text. simpl languageId.
  rewrite Hsettings. cbn [bindExc].
  assert (Hsplit :
            split (text document +:+ newline_s
                   +:+ (indentOf l +:+ endMarkerTemplate ls) +:+ newline_s)
            = lines ++ [indentOf l +:+ endMarkerTemplate ls; EmptyString]).
  { unfold newline_s. rewrite !append_cons, !append_nil_l.
    rewrite split_append_newline. fold lines.
    rewrite split_newline_end. rewrite split_singleLine; [reflexivity|].
    rewrite singleLine_append, Hsingle, andb_true_r.
    apply singleLine_indentOf.
    exact (forallb_lookup _ _ _ _ (split_singleLines (text document)) Hl). }
  rewrite Hsplit. rewrite saveLoop_app. fold st0.
  assert (Hend : isEnd ls (indentOf l +:+ endMarkerTemplate ls) = true)
    by apply markerIs_indented.
  assert (Hnotstart : isStart ls (indentOf l +:+ endMarkerTemplate ls) = false).
  { unfold isStart, markerIs. unfold isEnd, markerIs in Hend.
    apply String.eqb_eq in Hend. rewrite Hend. apply String.eqb_neq. congruence. }
  simpl saveLoop. unfold saveStep at 2.
  change (String.eqb (trim (indentOf l +:+ endMarkerTemplate ls))
            (trim (startMarkerTemplate ls)))
    with (isStart ls (indentOf l +:+ endMarkerTemplate ls)).
  change (String.eqb (trim (indentOf l +:+ endMarkerTemplate ls))
            (trim (endMarkerTemplate ls)))
    with (isEnd ls (indentOf l +:+ endMarkerTemplate ls)).
  rewrite Hnotstart, Hend. unfold saveStep.
  replace (String.eqb (trim EmptyString) (trim (startMarkerTemplate ls)))
    with false.
  2: { symmetry. apply String.eqb_neq. change (trim EmptyString) with EmptyString.
       intros H. apply Hblank. symmetry. exact H. }
  destruct (String.eqb (trim EmptyString) (trim (endMarkerTemplate ls)));
    reflexivity.
Qed.

Lemma save_closes_open_region_witness :
  let document :=
    {| uri := "file:///w/main.py"; fsPath := "/w/main.py"; languageId := "python";
       text := join ["# virtualInclude 'a.txt'"; "  " +:+ Posix.startPy; "  hello"];
       isClosed := false |} in
  preventProtectedEdits Posix.defaultConfig document
  = Ret [EInsert 3 0 (newline_s +:+ ("  " +:+ Posix.endPy) +:+ newline_s)]
  /\ preventProtectedEdits Posix.defaultConfig
       (withText document
          (join ["# virtualInclude 'a.txt'"; "  " +:+ Posix.startPy; "  hello";
                 "  " +:+ Posix.endPy; EmptyString]))
     = Ret [].
Proof.
  intros document.
  destruct (save_closes_open_region Posix.defaultConfig document)
    as (_ & Hsave).
  destruct (Hsave Posix.python eq_refl) as (edits & Hedits & _ & Hclosed).
  assert (Hfirst : preventProtectedEdits Posix.defaultConfig document
                   = Ret [EInsert 3 0
                            (newline_s +:+ ("  " +:+ Posix.endPy) +:+ newline_s)])
    by (vm_compute; reflexivity).
  split; [exact Hfirst|].
  rewrite Hfirst in Hedits. injection Hedits as <-.
  rewrite <- Hclosed; [vm_compute; reflexivity|vm_compute; discriminate..| ].
  vm_compute. reflexivity.
Defined.

End EditProtectionProperties.

(** ** Diagnostics *)

Module DiagnosticsProperties.
Import Text Regex LanguageService DocumentProcessor Diagnostics TextFacts MatchFacts.

Section Check.
Variables (env : Env) (document : TextDocument) (languageSettings : LanguageSettings).

Local Abbreviation lines := (split (text document)).

(** What a diagnostic of line [i] says. *)
Local Abbreviation reports d :=
  (exists l m filePath,
     lines !! d_line d = Some l
     /\ exec (includeDirectivePattern languageSettings) l = Some m
     /\ group l m 1 = Some filePath
     /\ fs_existsSync env (resolveIncludePath env document filePath) = false
     /\ d_message d = "Cannot find included file: " +:+ filePath
     /\ slice (d_startIndex d) (d_endIndex d) l = matched l m
     /\ d_startIndex d <= m_start m
     /\ d_endIndex d <= String.length l).

Lemma getIncludeRange_Ret i l m range :
  lines !! i = Some l ->
  exec (includeDirectivePattern languageSettings) l = Some m ->
  getIncludeRange document i (matched l m) = Ret range ->
  slice (fst range) (snd range) l = matched l m
  /\ fst range <= m_start m
  /\ snd range <= String.length l.
Proof.
  intros Hl Hm. unfold getIncludeRange. rewrite Hl.
  destruct (exec_sound _ _ _ Hm) as (pre & w & rest & -> & Hs & He & Hw & _).
  rewrite Hw. unfold indexOf.
  destruct (indexOfFrom_complete w rest pre 0) as (i0 & Hi & Hb).
  rewrite Hi. intros [= <-]. simpl fst. simpl snd.
  destruct (indexOfFrom_sound _ _ _ _ Hi) as (a & b & Hab & ->).
  simpl in Hb. simpl Nat.add. rewrite Hab.
  split; [apply NeutralizeProperties.slice_middle|].
  split; [lia|]. rewrite !length_append. lia.
Qed.

Lemma checkLoop_Ret : forall rest i acc ds,
  skipn i lines = rest ->
  checkLoop env document languageSettings i rest acc = Ret ds ->
  exists new,
    ds = acc ++ new
    /\ Forall (fun d => i <= d_line d /\ reports d) new
    /\ (forall j k d1 d2, j < k -> new !! j = Some d1 -> new !! k = Some d2 ->
          d_line d1 < d_line d2)
    /\ (forall j l m filePath,
          i <= j -> lines !! j = Some l ->
          exec (includeDirectivePattern languageSettings) l = Some m ->
          group l m 1 = Some filePath ->
          fs_existsSync env (resolveIncludePath env document filePath) = false ->
          exists d, d ∈ new /\ d_line d = j).
Proof.
  induction rest as [|l rest IH]; intros i acc ds Hrest H; simpl in H.
  - injection H as <-. exists []. rewrite app_nil_r. split; [reflexivity|].
    split; [constructor|]. split; [intros j k d1 d2 _ Hd; discriminate|].
    intros j l m fp Hij Hl. apply lookup_lt_Some in Hl.
    apply (f_equal (@length string)) in Hrest. rewrite length_skipn in Hrest.
    simpl in Hrest. lia.
  - assert (Hl : lines !! i = Some l).
    { rewrite <- (Nat.add_0_r i), <- lookup_drop. unfold drop. rewrite Hrest.
      reflexivity. }
    assert (Hrest' : skipn (S i) lines = rest).
    { rewrite <- (Nat.add_1_l i), <- skipn_skipn, Hrest. reflexivity. }
    destruct (exec (includeDirectivePattern languageSettings) l) as [m|] eqn:Hm.
    2: { destruct (IH _ _ _ Hrest' H) as (new & -> & Hall & Hasc & Hcomplete).
         exists new. split; [reflexivity|]. split.
         { eapply Forall_impl; [exact Hall|]. intros d [Hd Hr]. split; [lia|exact Hr]. }
         split; [exact Hasc|].
         intros j l' m' fp Hij Hl' Hm' Hg Hex.
         destruct (decide (j = i)) as [->|Hne]; [congruence|].
         apply (Hcomplete j l' m' fp); auto. lia. }
    destruct (group l m 1) as [filePath|] eqn:Hg; [|discriminate].
    destruct (getIncludeRange document i (matched l m)) as [range|err] eqn:Hrange;
      [|discriminate].
    simpl in H.
    destruct (getIncludeRange_Ret _ _ _ _ Hl Hm Hrange) as (Hslice & Hstart & Hend).
    destruct (fs_existsSync env (resolveIncludePath env document filePath)) eqn:Hex.
    + destruct (IH _ _ _ Hrest' H) as (new & -> & Hall & Hasc & Hcomplete).
      exists new. split; [reflexivity|]. split.
      { eapply Forall_impl; [exact Hall|]. intros d [Hd Hr]. split; [lia|exact Hr]. }
      split; [exact Hasc|].
      intros j l' m' fp Hij Hl' Hm' Hg' Hex'.
      destruct (decide (j = i)) as [->|Hne]; [congruence|].
      apply (Hcomplete j l' m' fp); auto. lia.
    + destruct (IH _ _ _ Hrest' H) as (new & -> & Hall & Hasc & Hcomplete).
      set (d0 := {| d_line := i; d_startIndex := fst range; d_endIndex := snd range;
                    d_message := "Cannot find included file: " +:+ filePath |}) in *.
      exists (d0 :: new). rewrite <- app_assoc. split; [reflexivity|]. split.
      { constructor.
        - split; [simpl; lia|]. exists l, m, filePath. simpl. split_and!; auto.
        - eapply Forall_impl; [exact Hall|]. intros d [Hd Hr]. split; [lia|exact Hr]. }
      split.
      { intros j k d1 d2 Hjk H1 H2. destruct k as [|k]; [lia|]. simpl in H2.
        destruct j as [|j].
        - injection H1 as <-. simpl.
          rewrite Forall_forall in Hall.
          assert (d2 ∈ new) as Hin by (apply list_elem_of_lookup; eauto).
          destruct (Hall d2 Hin) as [Hd _]. lia.
        - simpl in H1. apply (Hasc j k); [lia|assumption..]. }
      intros j l' m' fp Hij Hl' Hm' Hg' Hex'.
      destruct (decide (j = i)) as [->|Hne].
      * exists d0. split; [left|reflexivity].
      * destruct (Hcomplete j l' m' fp) as (d & Hd & Hline); auto; [lia|].
        exists d. split; [right; exact Hd|exact Hline].
Qed.

End Check.

(** X5. The diagnostics of a document are the directive lines of its language
    whose file is missing, one for each such line and in line order: each
    one stands on a line that the directive pattern of the language matches
    and whose file does not exist, names the path as written, and its range
    lies within the line and holds the text of the directive. *)
Theorem diagnostics_report_missing_files cfg env document ds :
  checkDocument cfg env document = Ret ds ->
  exists languageSettings,
  getLanguageSettings cfg (languageId document) = Ret languageSettings /\
  let lines := split (text document) in
  let directive := includeDirectivePattern languageSettings in
  (forall d,
     d ∈ ds ->
     exists l m filePath,
       lines !! d_line d = Some l
       /\ exec directive l = Some m
       /\ group l m 1 = Some filePath
       /\ fs_existsSync env (resolveIncludePath env document filePath) = false
       /\ d_message d = "Cannot find included file: " +:+ filePath
       /\ slice (d_startIndex d) (d_endIndex d) l = matched l m
       /\ d_startIndex d <= m_start m
       /\ d_endIndex d <= String.length l)
  /\ (forall j k d1 d2,
        j < k -> ds !! j = Some d1 -> ds !! k = Some d2 -> d_line d1 < d_line d2)
  /\ (forall i l m filePath,
        lines !! i = Some l ->
        exec directive l = Some m ->
        group l m 1 = Some filePath ->
        fs_existsSync env (resolveIncludePath env document filePath) = false ->
        exists d, d ∈ ds /\ d_line d = i).
Proof.
  intros H. unfold checkDocument in H.
  destruct (getLanguageSettings cfg (languageId document)) as [languageSettings|e];
    [|discriminate].
  cbn [bindExc] in H. exists languageSettings. split; [reflexivity|].
  intros lines directive.
  destruct (checkLoop_Ret env document _ _ 0 [] ds eq_refl H)
    as (new & -> & Hall & Hasc & Hcomplete).
  simpl. split; [|split; [exact Hasc|]].
  - intros d Hd. rewrite Forall_forall in Hall.
    destruct (Hall d Hd) as [_ Hr]. exact Hr.
  - intros i l m fp. apply Hcomplete. lia.
Qed.

Lemma diagnostics_report_missing_files_witness :
  let env := Posix.env [("/w/a.txt", "hello")] in
  let document :=
    {| uri := "file:///w/main.py"; fsPath := "/w/main.py"; languageId := "python";
       text := join ["# virtualInclude 'a.txt'"; "x = 1  # virtualInclude 'b.txt'"];
       isClosed := false |} in
  checkDocument Posix.defaultConfig env document
  = Ret [{| d_line := 1; d_startIndex := 7; d_endIndex := 31;
            d_message := "Cannot find included file: b.txt" |}]
  /\ exists d,
       d ∈ [{| d_line := 1; d_startIndex := 7; d_endIndex := 31;
               d_message := "Cannot find included file: b.txt" |}]
       /\ d_line d = 1.
Proof.
  intros env document.
  assert (Hcheck : checkDocument Posix.defaultConfig env document
                   = Ret [{| d_line := 1; d_startIndex := 7; d_endIndex := 31;
                             d_message := "Cannot find included file: b.txt" |}])
    by (vm_compute; reflexivity).
  split; [exact Hcheck|].
  destruct (diagnostics_report_missing_files _ _ _ _ Hcheck)
    as (languageSettings & Hsettings & _ & _ & Hcomplete).
  vm_compute in Hsettings. injection Hsettings as <-.
  apply (Hcomplete 1 "x = 1  # virtualInclude 'b.txt'"
           {| m_start := 7; m_end := 31; m_groups := [(25, 30)] |} "b.txt");
    vm_compute; reflexivity.
Defined.

End DiagnosticsProperties.

(** ** The manager, the change handler and the code lenses *)

Module ManagerProperties.
Import Text Regex LanguageService DocumentProcessor EditProtection Diagnostics
  CodeLensProvider VirtualIncludeManager TextFacts RegexFacts MatchFacts MatchSpec
  RecognitionProperties LanguageProperties.

(** *** The status bar *)

(** X9. After a pass of the manager the status bar does not show the processing
    text any more: it is idle exactly when the check of the document ran
    and found no issue, and shows the number of issues, or one issue for an
    exception, otherwise. The diagnostics found are those stored for the
    document. *)
Theorem status_bar_settles cfg env st editor :
  let st' := fst (fst (processDocument cfg env st editor)) in
  sb_text (statusBar st') <> sb_text (setProcessing (statusBar st))
  /\ (forall document diagnostics,
        editor = Editor document ->
        checkDocument cfg env document = Ret diagnostics ->
        diagnosticCollection st' !! uri document = Some diagnostics
        /\ statusBar st'
           = (if Nat.ltb 0 (length diagnostics)
              then setIssues (length diagnostics) (setProcessing (statusBar st))
              else setIdle (setProcessing (statusBar st))))
  /\ (statusBar st' = setIdle (setProcessing (statusBar st))
      <-> exists document,
            editor = Editor document /\ checkDocument cfg env document = Ret [])
  /\ ((forall document, editor = Editor document ->
         exists error, checkDocument cfg env document = Throw error) ->
      sb_text (statusBar st') = sb_text (setIssues 1 (statusBar st))).
Proof.
  intros st'. subst st'. unfold processDocument.
  assert (Htext : forall n item,
            sb_text (setIssues n item) <> sb_text (setProcessing (statusBar st))).
  { intros n item. unfold setIssues. simpl. rewrite !append_cons. congruence. }
  assert (Hitem : forall n item,
            setIssues n item <> setIdle (setProcessing (statusBar st))).
  { intros n item. unfold setIssues, setIdle. congruence. }
  destruct editor as [| |document].
  - simpl. split; [exact (Htext 1 (setProcessing (statusBar st)))|]. split; [intros d ds [=]|].
    split; [|intros _; reflexivity].
    split; [intros H; destruct (Hitem 1 (setProcessing (statusBar st)) H)|intros (d & [=] & _)].
  - simpl. split; [exact (Htext 1 (setProcessing (statusBar st)))|]. split; [intros d ds [=]|].
    split; [|intros _; reflexivity].
    split; [intros H; destruct (Hitem 1 (setProcessing (statusBar st)) H)|intros (d & [=] & _)].
  - destruct (checkDocument cfg env document) as [ds|err] eqn:Hcheck.
    + destruct (DocumentProcessor.processDocument cfg env _ (Editor document))
        as [[m editor'] edits] eqn:Hpass.
      simpl. split.
      { destruct ds as [|d0 ds]; [simpl; discriminate|]. exact (Htext (length (d0 :: ds)) (setProcessing (statusBar st))). }
      split.
      { intros d ds' [= <-] Hd. rewrite Hcheck in Hd. injection Hd as <-.
        destruct ds; (split; [apply lookup_insert_eq|reflexivity]). }
      split.
      { split.
        - intros H. exists document. split; [reflexivity|].
          destruct ds as [|d0 ds]; [exact Hcheck|].
          destruct (Hitem (length (d0 :: ds)) (setProcessing (statusBar st)) H).
        - intros (d & [= <-] & Hd). rewrite Hcheck in Hd. injection Hd as ->.
          reflexivity. }
      intros H. destruct (H document eq_refl) as [error He]. congruence.
    + simpl. split; [exact (Htext 1 (setProcessing (statusBar st)))|]. split; [intros d ds [= <-]; congruence|].
      split; [|intros _; reflexivity].
      split; [intros H; destruct (Hitem 1 (setProcessing (statusBar st)) H)
             |intros (d & [= <-] & Hd); congruence].
Qed.


(** *** The handler of document changes *)

Lemma matches_RBol_inv pos w rest :
  matches RBol pos w rest -> pos = 0 /\ w = EmptyString.
Proof. intros H. inversion H; subst. auto. Qed.

(** A line that [VIRTUAL_INCLUDE_REGEX] matches is white space followed by
    the token [#], one space and the keyword. *)
Lemma test_VIRTUAL_INCLUDE_REGEX l :
  test VIRTUAL_INCLUDE_REGEX l = true ->
  exists indent tail,
    l = indent +:+ "# virtualInclude" +:+ tail /\ allChars is_ws indent = true.
Proof.
  unfold test, exec. destruct (search _ 0 l) as [m|] eqn:Hs; [|discriminate].
  intros _.
  destruct (NeutralizeProperties.search_sound _ _ _ _ Hs) as (pre & s' & -> & Hstart & Hm).
  cbn [VIRTUAL_INCLUDE_REGEX smatch] in Hm.
  apply rmatch_sound in Hm as (w & rest & -> & Hw & _).
  apply NeutralizeProperties.matches_RSeq_inv in Hw as (w0 & w1 & -> & Hbol & Hw).
  apply matches_RBol_inv in Hbol as [Hpos ->].
  apply NeutralizeProperties.matches_RSeq_inv in Hw as (indent & w2 & -> & Hindent & Hw).
  apply matches_star_chars in Hindent.
  apply NeutralizeProperties.matches_RSeq_inv in Hw as (wk & w3 & -> & Hwk & _).
  apply matches_RLit in Hwk. subst wk.
  simpl in Hstart. rewrite Hpos in Hstart.
  destruct pre; [|discriminate].
  exists indent, (w3 +:+ rest). split; [|exact Hindent].
  rewrite !append_nil_l, !append_assoc. reflexivity.
Qed.

(** X10. A pass is scheduled while the user types only for a directive written
    with the token [#]: the document is a file, some change holds [#], the
    keyword or a double quote, and the line of the cursor is white space
    followed by [# virtualInclude]. The edit protection is not consulted
    for such an event. *)
Theorem typing_trigger_needs_hash_directive cfg m isFile cursorLine e :
  co_processScheduled (onDidChangeTextDocument cfg m isFile cursorLine e) = true ->
  isFile = true
  /\ existsb mightInclude (ev_contentChanges e) = true
  /\ (exists cursor currentLine indent tail,
        cursorLine = Some cursor
        /\ split (text (ev_document e)) !! cursor = Some currentLine
        /\ currentLine = indent +:+ "# virtualInclude" +:+ tail
        /\ allChars is_ws indent = true)
  /\ co_shared (onDidChangeTextDocument cfg m isFile cursorLine e) = m
  /\ co_restoreScheduled (onDidChangeTextDocument cfg m isFile cursorLine e) = false.
Proof.
  unfold onDidChangeTextDocument.
  destruct isFile; [|discriminate]. simpl negb. cbv iota.
  destruct (existsb mightInclude (ev_contentChanges e)).
  - destruct cursorLine as [cursor|]; [|discriminate].
    destruct (split (text (ev_document e)) !! cursor) as [currentLine|] eqn:Hl;
      [|discriminate].
    destruct (test VIRTUAL_INCLUDE_REGEX currentLine) eqn:Ht; [|discriminate].
    intros _. apply test_VIRTUAL_INCLUDE_REGEX in Ht as (indent & tail & Hshape & Hws).
    split; [reflexivity|]. split; [reflexivity|]. split; [|split; reflexivity].
    exists cursor, currentLine, indent, tail. auto.
  - destruct (handleProtectedEdits cfg m e) as [[m' restore]|error]; discriminate.
Qed.

Lemma typing_trigger_needs_hash_directive_witness :
  let document :=
    {| uri := "file:///w/main.py"; fsPath := "/w/main.py"; languageId := "python";
       text := join ["x = 1"; "  # virtualInclude 'a.txt'"]; isClosed := false |} in
  let typed :=
    {| range_start := {| pos_line := 1; pos_character := 25 |};
       range_end := {| pos_line := 1; pos_character := 25 |};
       change_text := "'" |} in
  let typedQuote :=
    {| range_start := {| pos_line := 1; pos_character := 25 |};
       range_end := {| pos_line := 1; pos_character := 25 |};
       change_text := doubleQuote |} in
  co_processScheduled
    (onDidChangeTextDocument Posix.defaultConfig Posix.emptyManager true (Some 1)
       {| ev_document := document; ev_contentChanges := [typed] |}) = false
  /\ exists cursor currentLine indent tail,
       Some 1 = Some cursor
       /\ split (text document) !! cursor = Some currentLine
       /\ currentLine = indent +:+ "# virtualInclude" +:+ tail
       /\ allChars is_ws indent = true.
Proof.
  intros document typed typedQuote. split; [vm_compute; reflexivity|].
  apply (typing_trigger_needs_hash_directive Posix.defaultConfig Posix.emptyManager
           true (Some 1)
           {| ev_document := document; ev_contentChanges := [typedQuote] |}).
  vm_compute. reflexivity.
Defined.

(** X11. An event with a change whose text holds [#], the keyword or a double
    quote never reaches the edit protection: no warning is shown and no
    restoring pass is scheduled, whatever the change touches. Any other
    event of a file is answered by the protection alone, whose exception,
    if any, is logged and changes nothing. *)
Theorem marked_changes_escape_protection cfg m cursorLine e :
  (existsb mightInclude (ev_contentChanges e) = true ->
   forall isFile,
     co_shared (onDidChangeTextDocument cfg m isFile cursorLine e) = m
     /\ co_restoreScheduled (onDidChangeTextDocument cfg m isFile cursorLine e)
        = false)
  /\ (existsb mightInclude (ev_contentChanges e) = false ->
      onDidChangeTextDocument cfg m true cursorLine e
      = match handleProtectedEdits cfg m e with
        | Ret (m', restore) =>
            {| co_shared := m'; co_processScheduled := false;
               co_restoreScheduled := restore |}
        | Throw _ =>
            {| co_shared := m; co_processScheduled := false;
               co_restoreScheduled := false |}
        end).
Proof.
  unfold onDidChangeTextDocument. split.
  - intros -> [|]; simpl; [|auto].
    destruct cursorLine as [cursor|]; [|auto].
    destruct (split (text (ev_document e)) !! cursor) as [currentLine|]; [|auto].
    destruct (test VIRTUAL_INCLUDE_REGEX currentLine); auto.
  - intros ->. simpl.
    destruct (handleProtectedEdits cfg m e) as [[m' restore]|error]; reflexivity.
Qed.

Lemma marked_changes_escape_protection_witness :
  let document :=
    {| uri := "file:///w/main.py"; fsPath := "/w/main.py"; languageId := "python";
       text := join ["# virtualInclude 'a.txt'"; Posix.startPy; "hello # x";
                     Posix.endPy; "x = 1"];
       isClosed := false |} in
  let typed (t : string) :=
    {| range_start := {| pos_line := 2; pos_character := 5 |};
       range_end := {| pos_line := 2; pos_character := 5 |};
       change_text := t |} in
  onDidChangeTextDocument Posix.defaultConfig Posix.emptyManager true (Some 2)
    {| ev_document := document; ev_contentChanges := [typed " # x"] |}
  = {| co_shared := Posix.emptyManager; co_processScheduled := false;
       co_restoreScheduled := false |}
  /\ onDidChangeTextDocument Posix.defaultConfig Posix.emptyManager true (Some 2)
       {| ev_document := document; ev_contentChanges := [typed " x"] |}
     = {| co_shared := showWarningMessage protectedEditWarning Posix.emptyManager;
          co_processScheduled := false; co_restoreScheduled := true |}.
Proof.
  intros document typed.
  destruct (marked_changes_escape_protection Posix.defaultConfig Posix.emptyManager
              (Some 2)
              {| ev_document := document; ev_contentChanges := [typed " # x"] |})
    as [Hmarked _].
  destruct (marked_changes_escape_protection Posix.defaultConfig Posix.emptyManager
              (Some 2)
              {| ev_document := document; ev_contentChanges := [typed " x"] |})
    as [_ Hplain].
  split.
  - destruct (Hmarked eq_refl true) as [Hshared Hrestore].
    vm_compute. reflexivity.
  - rewrite (Hplain eq_refl). vm_compute. reflexivity.
Defined.


(** *** Code lenses *)

Section Lenses.
Variables (cfg : Config) (env : Env) (document : TextDocument).

Variables documentSettings languageSettings : LanguageSettings.
Hypothesis Hsettings :
  getLanguageSettings cfg (languageId document) = Ret documentSettings.

Local Abbreviation lines := (split (text document)).

(** The lines the scan treats as directives: the pattern in force for the
    line matches it. *)
Local Abbreviation isDirective i l :=
  (exists ctx m,
     getContextAwareSettings cfg document i l None = Ret ctx
     /\ exec (includeDirectivePattern ctx) l = Some m).

Lemma lensLoop_Ret : forall rest i acc,
  skipn i lines = rest ->
  exists new,
    lensLoop cfg document i rest acc = Ret (acc ++ new)
    /\ Forall (fun lens =>
                 i <= cl_line lens
                 /\ exists l, lines !! cl_line lens = Some l
                              /\ isDirective (cl_line lens) l
                              /\ cl_endCharacter lens = String.length l
                              /\ cl_document lens = uri document) new
    /\ (forall j k l1 l2, j < k -> new !! j = Some l1 -> new !! k = Some l2 ->
          cl_line l1 < cl_line l2)
    /\ (forall j l, i <= j -> lines !! j = Some l -> isDirective j l ->
          exists lens, lens ∈ new /\ cl_line lens = j).
Proof.
  induction rest as [|l rest IH]; intros i acc Hrest; simpl.
  - exists []. rewrite app_nil_r. split; [reflexivity|]. split; [constructor|].
    split; [intros j k l1 l2 _ H; discriminate|].
    intros j l Hij Hl. apply lookup_lt_Some in Hl.
    apply (f_equal (@length string)) in Hrest. rewrite length_skipn in Hrest.
    simpl in Hrest. lia.
  - assert (Hl : lines !! i = Some l).
    { rewrite <- (Nat.add_0_r i), <- lookup_drop. unfold drop. rewrite Hrest.
      reflexivity. }
    assert (Hrest' : skipn (S i) lines = rest).
    { rewrite <- (Nat.add_1_l i), <- skipn_skipn, Hrest. reflexivity. }
    destruct (getContextAwareSettings_in_range cfg document i l None _ Hsettings)
      as [ctx Hctx]; [apply lookup_lt_Some in Hl; exact Hl|].
    rewrite Hctx. simpl.
    destruct (exec (includeDirectivePattern ctx) l) as [m|] eqn:Hm.
    + set (lens0 := {| cl_line := i; cl_endCharacter := String.length l;
                       cl_document := uri document; cl_filePath := group l m 1 |}).
      destruct (IH (S i) (acc ++ [lens0]) Hrest') as (new & -> & Hall & Hasc & Hcomplete).
      exists (lens0 :: new). rewrite <- app_assoc. split; [reflexivity|]. split.
      { constructor.
        - split; [simpl; lia|]. exists l. simpl. split_and!; eauto.
        - eapply Forall_impl; [exact Hall|]. intros lens [Hle H]. split; [lia|exact H]. }
      split.
      { intros j k l1 l2 Hjk H1 H2. destruct k as [|k]; [lia|]. simpl in H2.
        destruct j as [|j].
        - injection H1 as <-. simpl. rewrite Forall_forall in Hall.
          assert (l2 ∈ new) as Hin by (apply list_elem_of_lookup; eauto).
          destruct (Hall l2 Hin) as [Hle _]. lia.
        - simpl in H1. apply (Hasc j k); [lia|assumption..]. }
      intros j l' Hij Hl' Hd. destruct (decide (j = i)) as [->|Hne].
      * exists lens0. split; [left|reflexivity].
      * destruct (Hcomplete j l') as (lens & Hin & Hline); auto; [lia|].
        exists lens. split; [right; exact Hin|exact Hline].
    + destruct (IH (S i) acc Hrest') as (new & -> & Hall & Hasc & Hcomplete).
      exists new. split; [reflexivity|]. split.
      { eapply Forall_impl; [exact Hall|]. intros lens [Hle H]. split; [lia|exact H]. }
      split; [exact Hasc|].
      intros j l' Hij Hl' Hd. destruct (decide (j = i)) as [->|Hne].
      * rewrite Hl in Hl'. injection Hl' as <-.
        destruct Hd as (ctx' & m' & Hc' & Hm'). congruence.
      * apply (Hcomplete j l'); auto. lia.
Qed.

(** What a directive line adds to the state of the scan: a message or an
    entry of the include map. *)
Local Abbreviation weight st :=
  (length (warningMessages (manager st)) + length (errorMessages (manager st))
   + length (includeMap st)).

Lemma scanInclude_weight i l resolvedPath st :
  weight st
  < weight (scanInclude cfg env document languageSettings lines i l resolvedPath st).
Proof.
  unfold scanInclude.
  destruct (fs_existsSync env resolvedPath); [|simpl; rewrite length_app; simpl; lia].
  destruct (fs_readFileSync env resolvedPath) as [content|err];
    [|simpl; rewrite length_app; simpl; lia].
  destruct (getContextAwareSettings cfg document i l (Some resolvedPath));
    simpl; rewrite ?length_app; simpl; lia.
Qed.

Lemma scanLine_directive i l st :
  isDirective i l ->
  scanLine cfg env document languageSettings lines st i l <> (st, None).
Proof.
  intros (ctx & m & Hctx & Hm). unfold scanLine. rewrite Hctx, Hm.
  destruct (match exec COMMENT_OVERRIDE_REGEX l with
            | Some overrideMatch => group l overrideMatch 1
            | None => group l m 1
            end) as [filePath|]; [|discriminate].
  destruct (_isSelfInclude env document filePath).
  - intros [= H]. apply (f_equal (fun s => length (warningMessages (manager s)))) in H.
    simpl in H. rewrite length_app in H. simpl in H. lia.
  - intros [= H].
    pose proof (scanInclude_weight i l (_resolveIncludePath env document filePath) st)
      as Hw.
    rewrite H in Hw. lia.
Qed.

Lemma scanLine_plain i l st :
  lines !! i = Some l ->
  ~ isDirective i l ->
  scanLine cfg env document languageSettings lines st i l = (st, None).
Proof.
  intros Hl Hnot. unfold scanLine.
  destruct (getContextAwareSettings_in_range cfg document i l None _ Hsettings)
    as [ctx Hctx]; [apply lookup_lt_Some in Hl; exact Hl|].
  rewrite Hctx.
  destruct (exec (includeDirectivePattern ctx) l) as [m|] eqn:Hm; [|reflexivity].
  exfalso. apply Hnot. eauto.
Qed.

End Lenses.

(** X12. The code lenses that the provider returns stand on the lines that
    the scan of the processor treats as directives, one for each and in
    line order, each over its whole line: a line with a lens makes the scan
    show a message, record an include or stop, and the scan passes over
    every other line without a trace, whatever the settings the scan runs
    with. *)
Theorem lenses_mark_the_scanned_directives cfg env document lenses :
  provideCodeLenses cfg true document = Ret lenses ->
  let lines := split (text document) in
  (forall lens,
     lens ∈ lenses ->
     exists l, lines !! cl_line lens = Some l
               /\ cl_endCharacter lens = String.length l
               /\ cl_document lens = uri document)
  /\ (forall j k l1 l2,
        j < k -> lenses !! j = Some l1 -> lenses !! k = Some l2 ->
        cl_line l1 < cl_line l2)
  /\ (forall languageSettings i l st,
        lines !! i = Some l ->
        (exists lens, lens ∈ lenses /\ cl_line lens = i) ->
        scanLine cfg env document languageSettings lines st i l <> (st, None))
  /\ (forall languageSettings i l st,
        lines !! i = Some l ->
        ~ (exists lens, lens ∈ lenses /\ cl_line lens = i) ->
        scanLine cfg env document languageSettings lines st i l = (st, None)).
Proof.
  intros Hret lines. unfold provideCodeLenses in Hret. simpl negb in Hret.
  cbv iota in Hret.
  destruct (getLanguageSettings cfg (languageId document)) as [ds|error] eqn:Hsettings;
    [|discriminate].
  cbn [bindExc] in Hret.
  destruct (lensLoop_Ret cfg document ds Hsettings lines 0 [] eq_refl)
    as (lenses' & Hret' & Hall & Hasc & Hcomplete).
  simpl in Hret'. fold lines in Hret. rewrite Hret' in Hret. injection Hret as <-.
  rewrite Forall_forall in Hall. split.
  { intros lens Hin. destruct (Hall lens Hin) as (_ & l & Hl & _ & He & Hd). eauto. }
  split; [exact Hasc|]. split.
  - intros languageSettings i l st Hl (lens & Hin & <-).
    destruct (Hall lens Hin) as (_ & l' & Hl' & Hd & _).
    fold lines in Hl'. rewrite Hl in Hl'. injection Hl' as <-.
    apply scanLine_directive, Hd.
  - intros languageSettings i l st Hl Hnone.
    apply (scanLine_plain cfg env document ds languageSettings Hsettings);
      [exact Hl|].
    intros Hd. apply Hnone. apply (Hcomplete i l); [lia|exact Hl|exact Hd].
Qed.

Lemma lenses_mark_the_scanned_directives_witness :
  let document :=
    {| uri := "file:///w/main.py"; fsPath := "/w/main.py"; languageId := "python";
       text := join ["x = 1"; "  # virtualInclude 'a.txt'"]; isClosed := false |} in
  provideCodeLenses Posix.defaultConfig true document
  = Ret [{| cl_line := 1; cl_endCharacter := 26;
            cl_document := "file:///w/main.py"; cl_filePath := Some "a.txt" |}]
  /\ forall st,
       scanLine Posix.defaultConfig (Posix.env []) document Posix.python
         (split (text document)) st 0 "x = 1"
       = (st, None).
Proof.
  intros document.
  assert (Hret : provideCodeLenses Posix.defaultConfig true document
                 = Ret [{| cl_line := 1; cl_endCharacter := 26;
                           cl_document := "file:///w/main.py";
                           cl_filePath := Some "a.txt" |}])
    by (vm_compute; reflexivity).
  split; [exact Hret|]. intros st.
  destruct (lenses_mark_the_scanned_directives Posix.defaultConfig (Posix.env [])
              document _ Hret) as (_ & _ & _ & Hplain).
  apply Hplain; [vm_compute; reflexivity|].
  intros (lens & Hin & Hline).
  apply list_elem_of_singleton in Hin as ->. discriminate Hline.
Defined.

End ManagerProperties.

(** ** What a pass records and when it edits *)

Module PassProperties.
Import Text Regex LanguageService DocumentProcessor TextFacts UpdateProperties
  RoundTripProperties LanguageProperties PassSpec.

Section Trace.
Variables (cfg : Config) (env : Env) (document : TextDocument).
Variable ls : LanguageSettings.

Local Abbreviation lines := (split (text document)).
Local Abbreviation resolved := (_resolveIncludePath env document).
Local Abbreviation accepted := (accepted cfg env document).
Local Abbreviation watched := (watched cfg env document).
Local Abbreviation stale := (stale cfg env document ls).
Local Abbreviation traced := (traced cfg env document ls).

Lemma statusNeedsEdit_true status : statusNeedsEdit status = true -> status <> UpToDate.
Proof. destruct status; [discriminate|congruence..]. Qed.

Lemma scanLine_traced st i l :
  lines !! i = Some l ->
  traced i st ->
  traced (S i) (fst (scanLine cfg env document ls lines st i l)).
Proof.
  intros Hl (Hmap & Hasc & Hw & Hneed & Hstore).
  assert (Hmap' : Forall (fun e => fst e < S i /\ accepted (fst e) (snd e))
                    (includeMap st)).
  { eapply Forall_impl; [exact Hmap|]. intros e [Hlt H]. split; [lia|exact H]. }
  assert (Hst : traced (S i) st).
  { split; [exact Hmap'|]. split; [exact Hasc|]. split; [exact Hw|].
    split; [exact Hneed|exact Hstore]. }
  assert (Hsame : forall f,
            traced (S i) (onManager (showErrorMessage f) st)
            /\ traced (S i) (onManager (showWarningMessage f) st)).
  { intros f. split; (split; [exact Hmap'|]; split; [exact Hasc|];
                      split; [exact Hw|]; split; [exact Hneed|exact Hstore]). }
  unfold scanLine.
  destruct (getContextAwareSettings cfg document i l None) as [c|err] eqn:Hc;
    [|exact Hst].
  destruct (exec (includeDirectivePattern c) l) as [m|] eqn:Hm; [|exact Hst].
  destruct (match exec COMMENT_OVERRIDE_REGEX l with
            | Some overrideMatch => group l overrideMatch 1
            | None => group l m 1
            end) as [filePath|] eqn:Hpath; [|exact Hst].
  assert (Hdir : directivePath cfg document i l = Some filePath).
  { unfold directivePath. rewrite Hc, Hm. exact Hpath. }
  destruct (_isSelfInclude env document filePath) eqn:Hself;
    [exact (proj2 (Hsame _))|].
  cbn [fst]. unfold scanInclude.
  destruct (fs_existsSync env (resolved filePath)) eqn:Hex;
    [|exact (proj1 (Hsame _))].
  destruct (fs_readFileSync env (resolved filePath)) as [content|err] eqn:Hread;
    [|exact (proj1 (Hsame _))].
  assert (Hacc : accepted i content) by (exists l, filePath; auto).
  assert (Hmap2 : Forall (fun e => fst e < S i /\ accepted (fst e) (snd e))
                    (includeMap st ++ [(i, content)])).
  { apply Forall_app. split; [exact Hmap'|]. constructor; [|constructor].
    split; [simpl; lia|exact Hacc]. }
  assert (Hasc2 : forall j k e1 e2, j < k ->
            (includeMap st ++ [(i, content)]) !! j = Some e1 ->
            (includeMap st ++ [(i, content)]) !! k = Some e2 -> fst e1 < fst e2).
  { intros j k e1 e2 Hjk H1 H2.
    destruct (decide (k < length (includeMap st))) as [Hk|Hk].
    - rewrite lookup_app_l in H1, H2 by lia. exact (Hasc j k e1 e2 Hjk H1 H2).
    - pose proof (lookup_lt_Some _ _ _ H2) as Hb. rewrite length_app in Hb.
      simpl in Hb. rewrite lookup_app_r in H2 by lia.
      replace (k - length (includeMap st)) with 0 in H2 by lia.
      injection H2 as <-. rewrite lookup_app_l in H1 by lia.
      rewrite Forall_forall in Hmap.
      assert (e1 ∈ includeMap st) as Hin by (apply list_elem_of_lookup; eauto).
      destruct (Hmap e1 Hin) as [Hlt _]. simpl. lia. }
  destruct (getContextAwareSettings cfg document i l (Some (resolved filePath)))
    as [ctx|err] eqn:Hctx.
  - split; [exact Hmap2|]. split; [exact Hasc2|]. split.
    { simpl. apply Forall_app. split; [exact Hw|]. constructor; [|constructor].
      exists i, l, filePath, content. auto. }
    split.
    { simpl. intros Hn. apply orb_true_iff in Hn as [Hn|Hn]; [exact (Hneed Hn)|].
      exists i, l, filePath, content, ctx. split_and!; auto.
      apply statusNeedsEdit_true, Hn. }
    simpl. apply lookup_insert_eq.
  - split; [exact Hmap2|]. split; [exact Hasc2|]. split; [exact Hw|].
    split; [exact Hneed|]. simpl. apply lookup_insert_eq.
Qed.

Lemma scanLoop_traced : forall rest i st,
  skipn i lines = rest ->
  traced i st ->
  traced (length lines) (fst (scanLoop cfg env document ls lines i rest st)).
Proof.
  induction rest as [|l rest IH]; intros i st Hrest Htr.
  - simpl. destruct Htr as (Hmap & Htr). split; [|exact Htr].
    eapply Forall_impl; [exact Hmap|]. intros e [_ H]. split; [|exact H].
    destruct H as (l & fp & Hl & _). apply lookup_lt_Some in Hl. exact Hl.
  - assert (Hl : lines !! i = Some l).
    { rewrite <- (Nat.add_0_r i), <- lookup_drop. unfold drop. rewrite Hrest.
      reflexivity. }
    assert (Hrest' : skipn (S i) lines = rest).
    { rewrite <- (Nat.add_1_l i), <- skipn_skipn, Hrest. reflexivity. }
    pose proof (scanLine_traced st i l Hl Htr) as Hstep.
    simpl. destruct (scanLine cfg env document ls lines st i l) as [st' [err|]].
    + simpl in *. destruct Hstep as (Hmap & Hstep). split; [|exact Hstep].
      eapply Forall_impl; [exact Hmap|]. intros e [_ H]. split; [|exact H].
      destruct H as (l' & fp & Hl' & _). apply lookup_lt_Some in Hl'. exact Hl'.
    + apply (IH (S i) st' Hrest' Hstep).
Qed.

End Trace.

Lemma updateDocument_documentIncludes cfg env m editor includeMap :
  documentIncludes (managerOf (updateDocument cfg env m editor includeMap))
  = documentIncludes m.
Proof.
  unfold updateDocument, managerOf.
  destruct editor as [| |document]; try reflexivity.
  destruct (isClosed document); [reflexivity|].
  destruct (getLanguageSettings _ _) as [languageSettings|e]; [|reflexivity].
  destruct (updateLoop _ _ _ _ _ _) as [st [error|]]; reflexivity.
Qed.

(** The state in which [processDocument] leaves the scan, and what it does
    next. *)
Lemma processDocument_scan cfg env m document ls :
  getLanguageSettings cfg (languageId document) = Ret ls ->
  exists st0 st err,
    scanLoop cfg env document ls
      (split (text document)) 0 (split (text document)) st0 = (st, err)
    /\ traced cfg env document ls (length (split (text document))) st
    /\ documentWatchers (manager st) !! uri document = None
    /\ processDocument cfg env m (Editor document)
       = match err with
         | Some error =>
             (showErrorMessage ("Extension error: " +:+ error) (manager st),
              Editor document, [])
         | None =>
             if needsEdit st
             then updateDocument cfg env
                    (setDocumentWatchers (uri document) (watchers st) (manager st))
                    (Editor document) (includeMap st)
             else (setDocumentWatchers (uri document) (watchers st) (manager st),
                   Editor document, [])
         end.
Proof.
  intros Hsettings.
  rewrite (ScanProperties.processDocument_resolved _ _ _ _ _ Hsettings). cbv zeta.
  set (m1 := match documentWatchers m !! uri document with
             | Some _ => deleteDocumentWatchers (uri document) m
             | None => m
             end).
  set (st0 := {| manager := setDocumentIncludes (uri document) [] m1;
                 includeMap := []; watchers := []; needsEdit := false |}).
  assert (Htr0 : traced cfg env document ls 0 st0).
  { split; [constructor|]. split; [intros j k e1 e2 _ H; discriminate|].
    split; [constructor|]. split; [discriminate|]. simpl. apply lookup_insert_eq. }
  pose proof (scanLoop_traced cfg env document ls _ 0 st0 eq_refl Htr0) as Htr.
  pose proof (ScanProperties.scanLoop_documentWatchers cfg env document ls
                (split (text document)) (split (text document)) 0 st0) as Hw.
  destruct (scanLoop _ _ _ _ _ _ _ st0) as [st err] eqn:Hscan.
  exists st0, st, err. split; [exact Hscan|]. split; [exact Htr|]. split.
  - simpl in Hw. rewrite Hw. unfold m1.
    destruct (documentWatchers m !! uri document) eqn:Hd; simpl;
      [apply lookup_delete_eq|exact Hd].
  - destruct err; reflexivity.
Qed.

(** X13. What a pass records for a document is backed by files: every entry of
    the include map stored for the document stands for a directive of that
    line which is not a self-include and whose file exists, and holds what
    was read from that file; the entries are in line order; and every path
    watched for the document is the resolved path of a directive whose file
    exists and was read. When the settings of the language cannot be
    resolved, the pass reports it and records nothing. *)
Theorem records_backed_by_files cfg env m document :
  let lines := split (text document) in
  let result := processDocument cfg env m (Editor document) in
  (forall languageSettings,
     getLanguageSettings cfg (languageId document) = Ret languageSettings ->
     (exists entries,
        documentIncludes (managerOf result) !! uri document = Some entries
        /\ (forall k content,
              (k, content) ∈ entries ->
              exists l filePath,
                lines !! k = Some l
                /\ directivePath cfg document k l = Some filePath
                /\ _isSelfInclude env document filePath = false
                /\ fs_existsSync env (_resolveIncludePath env document filePath)
                   = true
                /\ fs_readFileSync env (_resolveIncludePath env document filePath)
                   = Ret content)
        /\ (forall j k e1 e2,
              j < k -> entries !! j = Some e1 -> entries !! k = Some e2 ->
              fst e1 < fst e2))
     /\ (forall ws p,
           documentWatchers (managerOf result) !! uri document = Some ws ->
           p ∈ ws ->
           exists k l filePath content,
             lines !! k = Some l
             /\ directivePath cfg document k l = Some filePath
             /\ p = _resolveIncludePath env document filePath
             /\ fs_existsSync env p = true
             /\ fs_readFileSync env p = Ret content))
  /\ (forall error,
        getLanguageSettings cfg (languageId document) = Throw error ->
        result
        = (showErrorMessage ("Extension error: " +:+ error) m, Editor document, [])).
Proof.
  intros lines result. split;
    [|intros error Hsettings; apply ScanProperties.processDocument_unresolved, Hsettings].
  intros ls Hsettings.
  destruct (processDocument_scan cfg env m document ls Hsettings)
    as (st0 & st & err & _ & (Hmap & Hasc & Hw & _ & Hstore) & Hnone & Hpass).
  subst result. rewrite Hpass. clear Hpass.
  assert (Hentries : forall k content,
            (k, content) ∈ includeMap st ->
            exists l filePath,
              lines !! k = Some l
              /\ directivePath cfg document k l = Some filePath
              /\ _isSelfInclude env document filePath = false
              /\ fs_existsSync env (_resolveIncludePath env document filePath) = true
              /\ fs_readFileSync env (_resolveIncludePath env document filePath)
                 = Ret content).
  { intros k content Hin. rewrite Forall_forall in Hmap.
    destruct (Hmap _ Hin) as [_ H]. exact H. }
  assert (Hwatched : forall p,
            p ∈ watchers st ->
            exists k l filePath content,
              lines !! k = Some l
              /\ directivePath cfg document k l = Some filePath
              /\ p = _resolveIncludePath env document filePath
              /\ fs_existsSync env p = true
              /\ fs_readFileSync env p = Ret content).
  { intros p Hin. rewrite Forall_forall in Hw. exact (Hw p Hin). }
  destruct err as [error|].
  - split.
    + exists (includeMap st). split; [exact Hstore|]. split; assumption.
    + intros ws p Hws. unfold managerOf in Hws.
      cbn [fst showErrorMessage documentWatchers] in Hws.
      rewrite Hnone in Hws. discriminate.
  - destruct (needsEdit st).
    + split.
      * exists (includeMap st). rewrite updateDocument_documentIncludes.
        split; [exact Hstore|]. split; assumption.
      * intros ws p Hws.
        rewrite ScanProperties.updateDocument_documentWatchers in Hws.
        cbn [setDocumentWatchers documentWatchers] in Hws.
        rewrite lookup_insert_eq in Hws. injection Hws as <-.
        apply Hwatched.
    + split.
      * exists (includeMap st). split; [exact Hstore|]. split; assumption.
      * intros ws p Hws. unfold managerOf in Hws.
        cbn [fst setDocumentWatchers documentWatchers] in Hws.
        rewrite lookup_insert_eq in Hws. injection Hws as <-. apply Hwatched.
Qed.

(** X14. A pass touches the document only for a region that is out of date: when
    it applies an edit or changes the text, some directive that the scan
    accepted has a region that is missing, unclosed or different from its
    source. *)
Theorem edits_only_for_stale_regions cfg env m document :
  let lines := split (text document) in
  let result := processDocument cfg env m (Editor document) in
  editsOf result <> [] \/ editorOf result <> Editor document ->
  exists languageSettings k l filePath content ctx,
    getLanguageSettings cfg (languageId document) = Ret languageSettings
    /\ lines !! k = Some l
    /\ directivePath cfg document k l = Some filePath
    /\ fs_readFileSync env (_resolveIncludePath env document filePath) = Ret content
    /\ getContextAwareSettings cfg document k l
         (Some (_resolveIncludePath env document filePath)) = Ret ctx
    /\ inspectRegion languageSettings ctx lines k l content <> UpToDate.
Proof.
  intros lines result.
  destruct (getLanguageSettings cfg (languageId document)) as [ls|error] eqn:Hsettings.
  2: { subst result.
       rewrite (ScanProperties.processDocument_unresolved _ _ _ _ _ Hsettings).
       intros [H|H]; exfalso; apply H; reflexivity. }
  destruct (processDocument_scan cfg env m document ls Hsettings)
    as (st0 & st & err & _ & (_ & _ & _ & Hneed & _) & _ & Hpass).
  subst result. rewrite Hpass. clear Hpass.
  destruct err as [error|];
    [intros [H|H]; exfalso; apply H; reflexivity|].
  destruct (needsEdit st) eqn:Hn;
    [|intros [H|H]; exfalso; apply H; reflexivity].
  intros _. exists ls. destruct (Hneed eq_refl) as (k & l & fp & c & ctx & H).
  exists k, l, fp, c, ctx. split; [reflexivity|exact H].
Qed.

Lemma edits_only_for_stale_regions_witness :
  let env := Posix.env [("/w/a.txt", "hello")] in
  let document :=
    {| uri := "file:///w/main.py"; fsPath := "/w/main.py"; languageId := "python";
       text := join ["# virtualInclude 'a.txt'"; Posix.startPy; "old"; Posix.endPy;
                     "x = 1"];
       isClosed := false |} in
  exists languageSettings k l filePath content ctx,
    getLanguageSettings Posix.defaultConfig (languageId document)
    = Ret languageSettings
    /\ split (text document) !! k = Some l
    /\ directivePath Posix.defaultConfig document k l = Some filePath
    /\ fs_readFileSync env (_resolveIncludePath env document filePath) = Ret content
    /\ getContextAwareSettings Posix.defaultConfig document k l
         (Some (_resolveIncludePath env document filePath)) = Ret ctx
    /\ inspectRegion languageSettings ctx (split (text document)) k l content
       <> UpToDate.
Proof.
  intros env document.
  apply (edits_only_for_stale_regions Posix.defaultConfig env Posix.emptyManager
           document).
  left. vm_compute. discriminate.
Defined.


(** X15. A directive whose file does not exist is reported and dropped: the scan
    shows one error that names the resolved path and changes nothing else,
    and the pass records no include and no watcher for it and makes no edit
    for its line. *)
Theorem missing_file_reported cfg env m document languageSettings i line filePath :
  getLanguageSettings cfg (languageId document) = Ret languageSettings ->
  split (text document) !! i = Some line ->
  directivePath cfg document i line = Some filePath ->
  _isSelfInclude env document filePath = false ->
  fs_existsSync env (_resolveIncludePath env document filePath) = false ->
  let resolvedPath := _resolveIncludePath env document filePath in
  let result := processDocument cfg env m (Editor document) in
  (forall st,
     scanLine cfg env document languageSettings (split (text document)) st i line
     = (onManager (showErrorMessage ("File not found: " +:+ resolvedPath)) st, None))
  /\ (forall entries content,
        documentIncludes (managerOf result) !! uri document = Some entries ->
        (i, content) ∉ entries)
  /\ (forall ws,
        documentWatchers (managerOf result) !! uri document = Some ws ->
        resolvedPath ∉ ws)
  /\ (forall edit, (i, edit) ∉ editsOf result).
Proof.
  intros Hsettings Hline Hdir Hself Hmissing resolvedPath result.
  set (ls := languageSettings).
  destruct (processDocument_scan cfg env m document ls Hsettings)
    as (st0 & st & err & _ & (Hmap & _ & Hw & _ & Hstore) & Hnone & Hpass).
  assert (Hnot : forall content, (i, content) ∉ includeMap st).
  { intros content Hin. rewrite Forall_forall in Hmap.
    destruct (Hmap _ Hin) as (_ & l & fp & Hl & Hd & _ & Hex & _).
    simpl in Hl, Hd. rewrite Hline in Hl. injection Hl as <-.
    rewrite Hdir in Hd. injection Hd as <-. congruence. }
  assert (Hnotw : resolvedPath ∉ watchers st).
  { intros Hin. rewrite Forall_forall in Hw.
    destruct (Hw _ Hin) as (k & l & fp & content & _ & _ & _ & Hex & _).
    unfold resolvedPath in Hex. congruence. }
  split.
  { intros st1. unfold directivePath in Hdir. unfold scanLine.
    destruct (getContextAwareSettings cfg document i line None) as [c|e];
      [|discriminate].
    destruct (exec (includeDirectivePattern c) line) as [mt|]; [|discriminate].
    rewrite Hdir, Hself. unfold scanInclude. rewrite Hmissing. reflexivity. }
  subst result. rewrite Hpass. clear Hpass.
  destruct err as [error|]; [|destruct (needsEdit st)].
  - split; [|split].
    + intros entries content Hs. unfold managerOf in Hs.
      cbn [fst showErrorMessage documentIncludes] in Hs.
      rewrite Hstore in Hs. injection Hs as <-. apply Hnot.
    + intros ws Hs. unfold managerOf in Hs.
      cbn [fst showErrorMessage documentWatchers] in Hs.
      rewrite Hnone in Hs. discriminate.
    + intros edit Hin. inversion Hin.
  - split; [|split].
    + intros entries content Hs. rewrite updateDocument_documentIncludes in Hs.
      cbn [setDocumentWatchers documentIncludes] in Hs.
      rewrite Hstore in Hs. injection Hs as <-. apply Hnot.
    + intros ws Hs. rewrite ScanProperties.updateDocument_documentWatchers in Hs.
      cbn [setDocumentWatchers documentWatchers] in Hs.
      rewrite lookup_insert_eq in Hs. injection Hs as <-. exact Hnotw.
    + intros edit Hin. apply updateDocument_edits in Hin as [[content Hc] _].
      exact (Hnot content Hc).
  - split; [|split].
    + intros entries content Hs. unfold managerOf in Hs.
      cbn [fst setDocumentWatchers documentIncludes] in Hs.
      rewrite Hstore in Hs. injection Hs as <-. apply Hnot.
    + intros ws Hs. unfold managerOf in Hs.
      cbn [fst setDocumentWatchers documentWatchers] in Hs.
      rewrite lookup_insert_eq in Hs. injection Hs as <-. exact Hnotw.
    + intros edit Hin. inversion Hin.
Qed.

Lemma missing_file_reported_witness :
  let env := Posix.env [("/w/a.txt", "hello")] in
  let document :=
    {| uri := "file:///w/main.py"; fsPath := "/w/main.py"; languageId := "python";
       text := join ["# virtualInclude 'gone.txt'"; "# virtualInclude 'a.txt'"; "x = 1"];
       isClosed := false |} in
  let result := processDocument Posix.defaultConfig env Posix.emptyManager (Editor document) in
  errorMessages (managerOf result) = ["File not found: /w/gone.txt"]
  /\ forall edit, (0, edit) ∉ editsOf result.
Proof.
  intros env document result. split; [vm_compute; reflexivity|].
  apply (missing_file_reported Posix.defaultConfig env Posix.emptyManager document
           Posix.python 0 "# virtualInclude 'gone.txt'" "gone.txt");
    vm_compute; reflexivity.
Defined.

End PassProperties.

(** ** Insertion and repair *)

Module UpdatePassProperties.
Import Text Regex LanguageService DocumentProcessor TextFacts UpdateProperties
  EditFacts RoundTripProperties.

Lemma findFrom_None p l : forall j,
  (forall k x, l !! k = Some x -> p x = false) -> findFrom p j l = None.
Proof.
  induction l as [|y l IH]; intros j H; simpl; [reflexivity|].
  rewrite (H 0 y eq_refl). apply IH. intros k x Hk. exact (H (S k) x Hk).
Qed.

(** The lines that the repair loop passes before it stops hold no directive. *)
Lemma repairBound_passed d l : forall j acc k x,
  acc <= j ->
  j <= k < repairBound d j l acc ->
  l !! (k - j) = Some x ->
  test d x = false.
Proof.
  induction l as [|y l IH]; intros j acc k x Hacc Hk Hx; simpl in Hk; [lia|].
  destruct (test d y) eqn:Hy; [lia|].
  destruct (decide (k = j)) as [->|Hne].
  - rewrite Nat.sub_diag in Hx. injection Hx as <-. exact Hy.
  - replace (k - j) with (S (k - S j)) in Hx by lia. simpl in Hx.
    apply (IH (S j) j k x); [lia|lia|exact Hx].
Qed.

Section OneDirective.
Variables (cfg : Config) (env : Env) (m : Manager) (document : TextDocument).
Variable ls : LanguageSettings.
Variables (i : nat) (line nextLine content : string) (ctx : LanguageSettings).

Local Abbreviation lines := (split (text document)).

Hypothesis Hopen : isClosed document = false.
Hypothesis Hsettings : getLanguageSettings cfg (languageId document) = Ret ls.
Hypothesis Hline : lines !! i = Some line.
Hypothesis Hnext : lines !! (i + 1) = Some nextLine.
Hypothesis Hctx :
  getContextAwareSettings cfg document i line
    (Some (stepResolvedPath env document line)) = Ret ctx.

(** The one edit of a pass for one directive that has a line after it, and
    the lines of the document after it. *)
Lemma update_one_directive_edit :
  exists lo edit,
    editsOf (updateDocument cfg env m (Editor document) [(i, content)]) = [(i, edit)]
    /\ linesOf (updateDocument cfg env m (Editor document) [(i, content)])
       = split (applyEdit edit (text document))
    /\ i + 1 <= lo <= length lines
    /\ ((isStartMarker ls ctx nextLine = false
         /\ edit = EInsert i (String.length line)
                     (newline_s +:+ regionTextOf ls ctx (indentOf line) content))
        \/ (isStartMarker ls ctx nextLine = true
            /\ edit = EReplace (i + 1) lo (regionTextOf ls ctx (indentOf line) content)
            /\ match findFrom (isEndMarker ls ctx) (i + 2) (skipn (i + 2) lines) with
               | Some endLine => lo = endLine + 1
               | None =>
                   lo = repairBound (includeDirectivePattern ctx) (i + 2)
                          (sliceLines (i + 2) (Nat.min (length lines) (i + 1 + 20))
                             lines)
                          (i + 2)
               end)).
Proof.
  set (st0 := {| lineOffset := 0; currentLines := lines;
                 hostText := text document; applied := [] |}).
  destruct (RegionProperties.includeStep_edit cfg env document ls st0 i content
              i line ctx nextLine)
    as (st' & lo & edit & Hstep & Hlo & _ & _ & Hhost & Happ & Hkind).
  { simpl. lia. }
  { exact Hline. }
  { simpl. rewrite withText_same. exact Hctx. }
  { exact Hnext. }
  exists lo, edit.
  rewrite (GateProperties.updateDocument_resolved _ _ _ _ _ _ Hopen Hsettings).
  cbv zeta. fold st0.
  change (sortEntries [(i, content)]) with [(i, content)].
  cbn [updateLoop]. rewrite Hstep. cbn [linesOf editsOf snd withText text].
  rewrite Hhost, Happ. split; [reflexivity|]. split; [reflexivity|].
  split; [exact Hlo|]. cbn [st0 currentLines] in Hkind.
  destruct Hkind as [(H1 & _ & H2)|(H1 & H2 & H3)]; [left|right]; auto.
Qed.

End OneDirective.

Lemma insertion_lines cfg env m document languageSettings i line nextLine content ctx :
  isClosed document = false ->
  getLanguageSettings cfg (languageId document) = Ret languageSettings ->
  split (text document) !! i = Some line ->
  split (text document) !! (i + 1) = Some nextLine ->
  getContextAwareSettings cfg document i line
    (Some (stepResolvedPath env document line)) = Ret ctx ->
  isStartMarker languageSettings ctx nextLine = false ->
  let result := updateDocument cfg env m (Editor document) [(i, content)] in
  editsOf result
  = [(i, EInsert i (String.length line)
           (newline_s +:+ regionTextOf languageSettings ctx (indentOf line) content))]
  /\ linesOf result
     = firstn (S i) (split (text document))
       ++ regionLines languageSettings ctx (indentOf line) content
       ++ EmptyString :: skipn (S i) (split (text document)).
Proof.
  intros Hopen Hsettings Hline Hnext Hctx Hfresh result.
  destruct (update_one_directive_edit cfg env m document languageSettings i line
              nextLine content ctx Hopen Hsettings Hline Hnext Hctx)
    as (lo & edit & Hedits & Hlines & _ & [(_ & ->)|(Hstart & _)]);
    [|congruence].
  subst result. rewrite Hedits, Hlines. split; [reflexivity|].
  unfold regionTextOf, regionLines.
  apply split_after_insert; [exact Hline|].
  apply lookup_lt_Some in Hnext. lia.
Qed.

(** *** One step of the update *)

(** X16. The insertion of a region keeps every line of the document. An update
    step whose directive has a line below it that is no start marker asks
    for one insertion, at the end of the directive line, and sets the region
    in below the directive in its own copy of the lines. When that copy
    agreed with the document before the step, as it does at the first step
    of a pass, the document afterwards is its old lines with the region and
    one empty line set in below the directive: the document is then one
    line longer than the copy. *)
Theorem insertion_keeps_every_line
    cfg env document languageSettings st n content a includeLine ctx nextLine :
  (Z.of_nat n + lineOffset st)%Z = Z.of_nat a ->
  currentLines st !! a = Some includeLine ->
  getContextAwareSettings cfg (withText document (hostText st)) a includeLine
    (Some (stepResolvedPath env document includeLine)) = Ret ctx ->
  currentLines st !! (a + 1) = Some nextLine ->
  isStartMarker languageSettings ctx nextLine = false ->
  exists st',
    includeStep cfg env document languageSettings st (n, content) = Ret st'
    /\ applied st'
       = applied st
         ++ [(n, EInsert a (String.length includeLine)
                   (newline_s +:+ regionTextOf languageSettings ctx
                                    (indentOf includeLine) content))]
    /\ currentLines st'
       = firstn (a + 1) (currentLines st)
         ++ regionLines languageSettings ctx (indentOf includeLine) content
         ++ skipn (a + 1) (currentLines st)
    /\ (split (hostText st) = currentLines st ->
        split (hostText st')
        = firstn (a + 1) (split (hostText st))
          ++ regionLines languageSettings ctx (indentOf includeLine) content
          ++ EmptyString :: skipn (a + 1) (split (hostText st))).
Proof.
  intros Ha Hline Hctx Hnext Hfresh.
  destruct (RegionProperties.includeStep_edit cfg env document languageSettings
              st n content a includeLine ctx nextLine Ha Hline Hctx Hnext)
    as (st' & lo & edit & Hstep & _ & _ & Hcur & Hhost & Happ
        & [(_ & -> & ->)|(Hstart & _)]); [|congruence].
  exists st'. repeat split; [exact Hstep|exact Happ|exact Hcur|].
  intros Hsync. rewrite Hhost. unfold regionTextOf, regionLines.
  pose proof (lookup_lt_Some _ _ _ Hnext) as Hlen.
  rewrite <- Hsync in Hline, Hlen.
  replace (a + 1) with (S a) by lia.
  rewrite (split_after_insert _ _ _ _ _ _ Hline) by lia.
  rewrite <- !app_assoc. reflexivity.
Qed.

Lemma insertion_keeps_every_line_witness :
  let env := Posix.env [("/w/a.txt", "hello")] in
  let document :=
    {| uri := "file:///w/main.py"; fsPath := "/w/main.py"; languageId := "python";
       text := join ["import os"; "# virtualInclude 'a.txt'"; "x = 1"; "y = 2"];
       isClosed := false |} in
  let st0 := {| lineOffset := 0; currentLines := split (text document);
                hostText := text document; applied := [] |} in
  exists st',
    includeStep Posix.defaultConfig env document Posix.python st0 (1, "hello") = Ret st'
    /\ split (hostText st')
       = ["import os"; "# virtualInclude 'a.txt'"; Posix.startPy; "hello";
          Posix.endPy; EmptyString; "x = 1"; "y = 2"]
    /\ currentLines st'
       = ["import os"; "# virtualInclude 'a.txt'"; Posix.startPy; "hello";
          Posix.endPy; "x = 1"; "y = 2"].
Proof.
  intros env document st0.
  destruct (insertion_keeps_every_line Posix.defaultConfig env document Posix.python
              st0 1 "hello" 1 "# virtualInclude 'a.txt'" Posix.python "x = 1"
              eq_refl
              ltac:(vm_compute; reflexivity) ltac:(vm_compute; reflexivity)
              ltac:(vm_compute; reflexivity) ltac:(vm_compute; reflexivity))
    as (st' & Hstep & _ & Hcur & Hdoc).
  exists st'. split; [exact Hstep|].
  rewrite Hcur, Hdoc by (vm_compute; reflexivity).
  split; vm_compute; reflexivity.
Defined.

(** X17. The repair of a region without end marker is bounded. An update step
    whose directive has a start marker below it, and no end marker on any
    line after that, replaces the start marker and at most eighteen lines
    after it by the fresh region. No line it overwrites after the start
    marker is matched by the directive pattern of the rules resolved for
    the directive under repair, and its own copy of the lines keeps every
    line from the bound on; so does the document when the copy agreed with
    the document before the step, with an empty line added at the end when
    the bound is the end of the document. *)
Theorem repair_overwrites_a_bounded_span
    cfg env document languageSettings st n content a includeLine ctx nextLine :
  (Z.of_nat n + lineOffset st)%Z = Z.of_nat a ->
  currentLines st !! a = Some includeLine ->
  getContextAwareSettings cfg (withText document (hostText st)) a includeLine
    (Some (stepResolvedPath env document includeLine)) = Ret ctx ->
  currentLines st !! (a + 1) = Some nextLine ->
  isStartMarker languageSettings ctx nextLine = true ->
  (forall k l, a + 2 <= k -> currentLines st !! k = Some l ->
     isEndMarker languageSettings ctx l = false) ->
  exists st' lo,
    includeStep cfg env document languageSettings st (n, content) = Ret st'
    /\ a + 2 <= lo <= length (currentLines st)
    /\ lo <= a + 20
    /\ (forall k l, a + 2 <= k < lo -> currentLines st !! k = Some l ->
          test (includeDirectivePattern ctx) l = false)
    /\ applied st'
       = applied st
         ++ [(n, EReplace (a + 1) lo
                   (regionTextOf languageSettings ctx (indentOf includeLine) content))]
    /\ currentLines st'
       = firstn (a + 1) (currentLines st)
         ++ regionLines languageSettings ctx (indentOf includeLine) content
         ++ skipn lo (currentLines st)
    /\ (split (hostText st) = currentLines st ->
        split (hostText st')
        = firstn (a + 1) (split (hostText st))
          ++ regionLines languageSettings ctx (indentOf includeLine) content
          ++ (if Nat.ltb lo (length (split (hostText st)))
              then skipn lo (split (hostText st)) else [EmptyString])).
Proof.
  intros Ha Hline Hctx Hnext Hstart Hnoend.
  set (lines := currentLines st) in *.
  pose proof (lookup_lt_Some _ _ _ Hnext) as Hlen.
  destruct (RegionProperties.includeStep_edit cfg env document languageSettings
              st n content a includeLine ctx nextLine Ha Hline Hctx Hnext)
    as (st' & lo & edit & Hstep & Hlo & _ & Hcur & Hhost & Happ
        & [(Hfresh & _)|(_ & -> & Hbound)]); [congruence|].
  fold lines in Hbound, Hlo, Hcur.
  rewrite findFrom_None in Hbound.
  2: { intros k x Hk. rewrite lookup_drop in Hk. apply (Hnoend (a + 2 + k) x); [lia|].
       exact Hk. }
  set (l := sliceLines (a + 2) (Nat.min (length lines) (a + 1 + 20)) lines) in *.
  assert (Hl : length l = Nat.min (Nat.min (length lines) (a + 1 + 20) - (a + 2))
                            (length lines - (a + 2)))
    by apply length_sliceLines.
  pose proof (repairBound_bounds (includeDirectivePattern ctx) l (a + 2) (a + 2)
                (Nat.le_refl _)) as Hb.
  rewrite <- Hbound in Hb.
  exists st', lo. split; [exact Hstep|]. split; [lia|]. split; [lia|]. split.
  { intros k x Hk Hx.
    apply (repairBound_passed (includeDirectivePattern ctx) l (a + 2) (a + 2) k x);
      [lia|rewrite <- Hbound; lia|].
    unfold l, sliceLines. rewrite lookup_take_lt by lia. rewrite lookup_drop.
    replace (a + 2 + (k - (a + 2))) with k by lia. exact Hx. }
  split; [exact Happ|]. split; [exact Hcur|].
  intros Hsync. rewrite Hhost. unfold regionTextOf, regionLines.
  rewrite split_after_replace by (rewrite ?Hsync; lia).
  rewrite <- !app_assoc. reflexivity.
Qed.

Lemma repair_overwrites_a_bounded_span_witness :
  let env := Posix.env [("/w/a.txt", "hello")] in
  let document :=
    {| uri := "file:///w/main.py"; fsPath := "/w/main.py"; languageId := "python";
       text := join ["# virtualInclude 'a.txt'"; Posix.startPy; "stale"; "x = 1";
                     "# virtualInclude 'b.txt'"; "y = 2"];
       isClosed := false |} in
  let st0 := {| lineOffset := 0; currentLines := split (text document);
                hostText := text document; applied := [] |} in
  exists st',
    includeStep Posix.defaultConfig env document Posix.python st0 (0, "hello") = Ret st'
    /\ split (hostText st')
       = ["# virtualInclude 'a.txt'"; Posix.startPy; "hello"; Posix.endPy;
          "# virtualInclude 'b.txt'"; "y = 2"].
Proof.
  intros env document st0.
  assert (Hnoend : forall k l,
            0 + 2 <= k -> currentLines st0 !! k = Some l ->
            isEndMarker Posix.python Posix.python l = false).
  { intros [|[|[|[|[|[|k]]]]]] l Hk Hl; try lia;
      try (injection Hl as <-; vm_compute; reflexivity).
    discriminate. }
  destruct (repair_overwrites_a_bounded_span Posix.defaultConfig env document
              Posix.python st0 0 "hello" 0 "# virtualInclude 'a.txt'" Posix.python
              Posix.startPy
              eq_refl
              ltac:(vm_compute; reflexivity) ltac:(vm_compute; reflexivity)
              ltac:(vm_compute; reflexivity) ltac:(vm_compute; reflexivity)
              Hnoend)
    as (st' & lo & Hstep & _).
  exists st'. split; [exact Hstep|].
  assert (Hst : Ret st'
                = includeStep Posix.defaultConfig env document Posix.python st0
                    (0, "hello")) by (symmetry; exact Hstep).
  vm_compute in Hst. injection Hst as ->. vm_compute. reflexivity.
Defined.

(** A region right below its directive, as the update writes it, is found
    up to date by the comparison of the scan. *)
Lemma written_region_UpToDate languageSettings ctx lines i line content rest :
  lines !! i = Some line ->
  singleLine line = true ->
  singleLine (startMarkerTemplate ctx) && singleLine (endMarkerTemplate ctx) = true ->
  _neutralizeNestedIncludes (indentContent (indentOf line) content) languageSettings
  = indentContent (indentOf line) content ->
  forallb (fun l => negb (isEndMarker languageSettings ctx l))
    (map (indentLine (indentOf line)) (split content)) = true ->
  skipn (S i) lines
  = regionLines languageSettings ctx (indentOf line) content ++ rest ->
  inspectRegion languageSettings ctx lines i line content = UpToDate.
Proof.
  intros Hline Hsl Hsingle Hneutral Hinner Hbelow.
  apply andb_true_iff in Hsingle as [Hs He].
  assert (Hind : singleLine (indentOf line) = true) by (apply singleLine_indentOf, Hsl).
  set (indentation := indentOf line) in *.
  set (body := map (indentLine indentation) (split content)) in *.
  assert (Hregion : regionLines languageSettings ctx indentation content
                    = (indentation +:+ startMarkerTemplate ctx) :: body
                      ++ [indentation +:+ endMarkerTemplate ctx]).
  { unfold regionLines. rewrite Hneutral.
    rewrite (split_singleLine (indentation +:+ startMarkerTemplate ctx))
      by (rewrite singleLine_append, Hind, Hs; reflexivity).
    rewrite (split_singleLine (indentation +:+ endMarkerTemplate ctx))
      by (rewrite singleLine_append, Hind, He; reflexivity).
    rewrite (split_indentContent _ _ Hind). reflexivity. }
  rewrite Hregion in Hbelow.
  assert (Hat : forall k, skipn (S i) lines !! k = lines !! (i + 1 + k)).
  { intros k. rewrite lookup_drop. f_equal. lia. }
  unfold inspectRegion.
  assert (Hstart : lines !! (i + 1) = Some (indentation +:+ startMarkerTemplate ctx)).
  { rewrite <- (Nat.add_0_r (i + 1)), <- Hat, Hbelow. reflexivity. }
  rewrite Hstart.
  unfold indentation at 2. rewrite markerIs_indented, orb_true_r.
  assert (Htail : skipn (i + 1 + 1) lines
                  = body ++ (indentation +:+ endMarkerTemplate ctx) :: rest).
  { replace (i + 1 + 1) with (1 + S i) by lia. rewrite <- skipn_skipn, Hbelow.
    simpl. rewrite <- app_assoc. reflexivity. }
  rewrite Htail.
  rewrite (RegionProperties.findFrom_first _ _ (i + 1 + 1) (i + 1 + 1 + length body)
             (indentation +:+ endMarkerTemplate ctx)).
  - unfold sliceLines. rewrite Htail.
    replace (i + 1 + 1 + length body - (i + 1 + 1)) with (length body) by lia.
    rewrite firstn_app, firstn_all, Nat.sub_diag, firstn_O, app_nil_r.
    unfold body, indentation. fold (indentContent (indentOf line) content).
    rewrite String.eqb_refl. reflexivity.
  - lia.
  - replace (i + 1 + 1 + length body - (i + 1 + 1)) with (length body) by lia.
    rewrite lookup_app_r by lia. rewrite Nat.sub_diag. reflexivity.
  - unfold indentation. rewrite markerIs_indented. apply orb_true_r.
  - replace (i + 1 + 1 + length body - (i + 1 + 1)) with (length body) by lia.
    rewrite firstn_app, firstn_all, Nat.sub_diag, firstn_O, app_nil_r.
    rewrite <- Hinner. clear. induction body as [|x body IH]; [reflexivity|].
    simpl. rewrite IH. unfold isEndMarker. rewrite (orb_comm (markerIs _ x)).
    reflexivity.
Qed.

(** X18. What the update writes, the scan accepts. A pass of the update for one
    directive inserts its region; when the scan of the next pass reads the
    same content for the directive line and resolves for it the rules the
    region was written with, its step at that line records the content and
    does not ask for an edit. This holds when the marker templates are
    single lines, the neutralisation leaves the indented content as it is,
    and no line of the content is an end marker. *)
Theorem inserted_region_is_up_to_date
    cfg env m document languageSettings i line nextLine filePath content ctx
    updated st :
  isClosed document = false ->
  getLanguageSettings cfg (languageId document) = Ret languageSettings ->
  split (text document) !! i = Some line ->
  split (text document) !! (i + 1) = Some nextLine ->
  getContextAwareSettings cfg document i line
    (Some (stepResolvedPath env document line)) = Ret ctx ->
  isStartMarker languageSettings ctx nextLine = false ->
  singleLine (startMarkerTemplate ctx) && singleLine (endMarkerTemplate ctx) = true ->
  _neutralizeNestedIncludes (indentContent (indentOf line) content) languageSettings
  = indentContent (indentOf line) content ->
  forallb (fun l => negb (isEndMarker languageSettings ctx l))
    (map (indentLine (indentOf line)) (split content)) = true ->
  editorOf (updateDocument cfg env m (Editor document) [(i, content)])
  = Editor updated ->
  directivePath cfg updated i line = Some filePath ->
  _isSelfInclude env updated filePath = false ->
  fs_existsSync env (_resolveIncludePath env updated filePath) = true ->
  fs_readFileSync env (_resolveIncludePath env updated filePath) = Ret content ->
  getContextAwareSettings cfg updated i line
    (Some (_resolveIncludePath env updated filePath)) = Ret ctx ->
  getLanguageSettings cfg (languageId updated) = Ret languageSettings
  /\ split (text updated) !! i = Some line
  /\ let scanned :=
       scanLine cfg env updated languageSettings (split (text updated)) st i line in
     snd scanned = None
     /\ includeMap (fst scanned) = includeMap st ++ [(i, content)]
     /\ needsEdit (fst scanned) = needsEdit st.
Proof.
  intros Hopen Hsettings Hline Hnext Hctx Hfresh Hsingle Hneutral Hinner
    Hupdated Hpath Hself Hexists Hread Hscanned.
  set (ls := languageSettings) in *.
  destruct (insertion_lines cfg env m document ls i line nextLine content ctx
              Hopen Hsettings Hline Hnext Hctx Hfresh) as [_ Hlines].
  pose proof (lookup_lt_Some _ _ _ Hline) as Hi.
  assert (Hsl : singleLine line = true)
    by exact (forallb_lookup _ _ _ _ (split_singleLines (text document)) Hline).
  assert (Hdoc : linesOf (updateDocument cfg env m (Editor document) [(i, content)])
                 = split (text updated)
                 /\ languageId updated = languageId document).
  { revert Hupdated.
    rewrite (GateProperties.updateDocument_resolved _ _ _ _ _ _ Hopen Hsettings).
    cbv zeta. destruct (updateLoop _ _ _ _ _ _) as [st' [e|]];
      cbn [editorOf linesOf fst snd]; intros [= <-]; split; reflexivity. }
  destruct Hdoc as [Hdoc Hlang]. rewrite Hdoc in Hlines.
  assert (Hat : split (text updated) !! i = Some line).
  { rewrite Hlines. rewrite lookup_app_l by (rewrite length_firstn; lia).
    rewrite lookup_take_lt by lia. exact Hline. }
  assert (Hstatus : inspectRegion ls ctx (split (text updated)) i line content
                    = UpToDate).
  { apply (written_region_UpToDate ls ctx _ i line content
             (EmptyString :: skipn (S i) (split (text document)))); try assumption.
    rewrite Hlines. rewrite skipn_app, length_firstn.
    replace (S i - S i `min` length (split (text document))) with 0 by lia.
    rewrite skipn_all2 by (rewrite length_firstn; lia). reflexivity. }
  split; [rewrite Hlang; exact Hsettings|]. split; [exact Hat|].
  cbv zeta. revert Hpath. unfold directivePath, scanLine.
  destruct (getContextAwareSettings cfg updated i line None) as [ctx0|e];
    [|discriminate].
  destruct (exec (includeDirectivePattern ctx0) line) as [mt|]; [|discriminate].
  intros ->. rewrite Hself. cbn [fst snd].
  unfold scanInclude. rewrite Hexists, Hread, Hscanned, Hstatus.
  cbn [manager includeMap needsEdit setInclude onManager statusNeedsEdit].
  rewrite orb_false_r. repeat split; reflexivity.
Qed.

Lemma inserted_region_is_up_to_date_witness :
  let env := Posix.env [("/w/a.txt", "hello")] in
  let document :=
    {| uri := "file:///w/main.py"; fsPath := "/w/main.py"; languageId := "python";
       text := join ["  # virtualInclude 'a.txt'"; "x = 1"]; isClosed := false |} in
  let updated :=
    withText document
      (join ["  # virtualInclude 'a.txt'"; "  " +:+ Posix.startPy; "  hello";
             "  " +:+ Posix.endPy; EmptyString; "x = 1"]) in
  let st := {| manager := Posix.emptyManager; includeMap := []; watchers := [];
               needsEdit := false |} in
  editorOf (updateDocument Posix.defaultConfig env Posix.emptyManager
              (Editor document) [(0, "hello")])
  = Editor updated
  /\ needsEdit
       (fst (scanLine Posix.defaultConfig env updated Posix.python
               (split (text updated)) st 0 "  # virtualInclude 'a.txt'"))
     = false.
Proof.
  intros env document updated st. split; [vm_compute; reflexivity|].
  apply (inserted_region_is_up_to_date Posix.defaultConfig env Posix.emptyManager
           document Posix.python 0 "  # virtualInclude 'a.txt'" "x = 1" "a.txt"
           "hello" Posix.python updated st
           eq_refl eq_refl
           ltac:(vm_compute; reflexivity) ltac:(vm_compute; reflexivity)
           ltac:(vm_compute; reflexivity) ltac:(vm_compute; reflexivity)
           ltac:(vm_compute; reflexivity) ltac:(vm_compute; reflexivity)
           ltac:(vm_compute; reflexivity) ltac:(vm_compute; reflexivity)
           ltac:(vm_compute; reflexivity) ltac:(vm_compute; reflexivity)
           ltac:(vm_compute; reflexivity) ltac:(vm_compute; reflexivity)
           ltac:(vm_compute; reflexivity)).
Defined.

End UpdatePassProperties.

(** ** Tokens and extensions *)

Module LanguageExtraProperties.
Import Text Regex LanguageService TextFacts MatchSpec RecognitionProperties Escaping.

(** X19. The escaped comment token is a pattern for the token itself: read as a
    pattern source it is the literal of the token, whatever syntax
    characters the token holds, and a token without syntax characters is
    left as it is. *)
Theorem escaped_token_is_literal token :
  parseLiteral (escapeRegExp token) = Some (RLit token)
  /\ (allChars (fun c => negb (isSyntaxChar c)) token = true ->
      escapeRegExp token = token).
Proof.
  split.
  - induction token as [|c token IH]; [reflexivity|]. simpl escapeRegExp.
    destruct (isSyntaxChar c) eqn:Hc.
    + cbn [parseLiteral]. rewrite Ascii.eqb_refl, Hc, IH. reflexivity.
    + cbn [parseLiteral]. rewrite Hc, IH.
      destruct (Ascii.eqb_spec c "\"%char) as [->|_]; [discriminate|reflexivity].
  - induction token as [|c token IH]; [reflexivity|]. simpl.
    intros H. apply andb_true_iff in H as [Hc H].
    apply negb_true_iff in Hc. rewrite Hc, (IH H). reflexivity.
Qed.

(** *** Detection from the extension *)

Lemma lowerChar_idempotent c : lowerChar (lowerChar c) = lowerChar c.
Proof. destruct c as [[] [] [] [] [] [] [] []]; vm_compute; reflexivity. Qed.

Lemma lowerChar_dot c : Ascii.eqb (lowerChar c) "."%char = Ascii.eqb c "."%char.
Proof. destruct c as [[] [] [] [] [] [] [] []]; vm_compute; reflexivity. Qed.

Lemma toLowerCase_idempotent s : toLowerCase (toLowerCase s) = toLowerCase s.
Proof.
  induction s as [|c s IH]; [reflexivity|]. simpl.
  rewrite lowerChar_idempotent, IH. reflexivity.
Qed.

Lemma lastIndexOfDot_toLowerCase s :
  lastIndexOfDot (toLowerCase s) = lastIndexOfDot s.
Proof.
  induction s as [|c s IH]; [reflexivity|]. simpl.
  rewrite IH, lowerChar_dot. reflexivity.
Qed.

Lemma drop_toLowerCase n : forall s, drop n (toLowerCase s) = toLowerCase (drop n s).
Proof.
  induction n as [|n IH]; intros [|c s]; simpl; try reflexivity. apply IH.
Qed.

(** X20. The detection of the language of an included file looks at the text
    from the last dot of the path on, without regard to case, and every
    language it answers with has a comment style of its own in the table,
    so that the configured default style plays no part for it. *)
Theorem extension_detection_ignores_case cfg filePath :
  getLanguageFromExtension cfg (toLowerCase filePath)
  = getLanguageFromExtension cfg filePath
  /\ (forall lang,
        getLanguageFromExtension cfg filePath = Some lang ->
        detectFromExtension cfg = true
        /\ (exists i, lastIndexOfDot filePath = Some i
                      /\ lookupTable EXTENSION_TO_LANGUAGE
                           (toLowerCase (drop i filePath)) = Some lang)
        /\ exists style, lookupTable COMMENT_STYLES lang = Some style
                         /\ getCommentStyle cfg lang = Style style).
Proof.
  unfold getLanguageFromExtension. split.
  - destruct (negb (detectFromExtension cfg)); [reflexivity|].
    rewrite lastIndexOfDot_toLowerCase.
    destruct (lastIndexOfDot filePath) as [i|]; [|reflexivity].
    rewrite drop_toLowerCase, toLowerCase_idempotent. reflexivity.
  - intros lang. destruct (detectFromExtension cfg); [|discriminate]. simpl.
    destruct (lastIndexOfDot filePath) as [i|]; [|discriminate].
    intros H. split; [reflexivity|]. split; [eauto|].
    unfold lookupTable in H.
    destruct (List.find _ EXTENSION_TO_LANGUAGE) as [[ext lang']|] eqn:Hf;
      [|discriminate].
    injection H as <-. apply find_some in Hf as [Hin _].
    unfold getCommentStyle.
    repeat (destruct Hin as [[= <- <-]|Hin];
            [eexists; split; reflexivity|]).
    destruct Hin.
Qed.

End LanguageExtraProperties.

(** ** The inline comment style override *)

Module OverrideProperties.
Import Text Regex LanguageService TextFacts RegexFacts MatchFacts MatchSpec
  MatcherCompleteness RecognitionProperties.

Lemma matches_nonquote_noQuote lazy pos w rest :
  matches (RPlus lazy nonquote) pos w rest -> w <> EmptyString /\ noQuote w = true.
Proof. apply matches_plus_chars. Qed.

(** A text without quote is not a text with one. *)
Ltac quote_clash :=
  match goal with
  | Hq : is_quote ?q = true, Hn : noQuote (?a +:+ String ?q ?b) = true |- _ =>
      rewrite (noQuote_no_quote a q b Hq) in Hn; discriminate Hn
  | Hq : is_quote ?q = true, Hn : noQuote ?s = true, He : ?s = ?a +:+ String ?q ?b |- _ =>
      rewrite He in Hn; rewrite (noQuote_no_quote a q b Hq) in Hn; discriminate Hn
  | Hq : is_quote ?q = true, Hn : noQuote ?s = true, He : ?a +:+ String ?q ?b = ?s |- _ =>
      rewrite <- He in Hn; rewrite (noQuote_no_quote a q b Hq) in Hn; discriminate Hn
  | Hq : is_quote ?q = true, Hn : noQuote ?s = true, He : ?s = String ?q ?b |- _ =>
      rewrite He in Hn; simpl in Hn; rewrite Hq in Hn; discriminate Hn
  end.

(** X8. The inline override is read back: in a line that holds the keyword, a
    quoted path, the word [with] and a quoted comment token, the override
    pattern finds the path as its first group and the token as its second,
    so that the token becomes the comment style of the line, when the path,
    the token and the text around the directive hold no quote. *)
Theorem inline_override_read_back pre w2 q1 p q2 w3 w4 q3 token q4 post :
  allChars is_ws w2 = true -> w2 <> EmptyString ->
  allChars is_ws w3 = true -> w3 <> EmptyString ->
  allChars is_ws w4 = true -> w4 <> EmptyString ->
  is_quote q1 = true -> is_quote q2 = true ->
  is_quote q3 = true -> is_quote q4 = true ->
  p <> EmptyString -> allChars is_dot p = true -> noQuote p = true ->
  token <> EmptyString -> noQuote token = true ->
  noQuote pre = true -> noQuote post = true ->
  let line :=
    pre +:+ keyword +:+ w2 +:+ String q1 p +:+ String q2 w3 +:+ "with" +:+ w4
      +:+ String q3 token +:+ String q4 post in
  (exists m,
     exec COMMENT_OVERRIDE_REGEX line = Some m
     /\ group line m 1 = Some p
     /\ group line m 2 = Some token)
  /\ getCommentStyleOverride line = Some token.
Proof.
  intros Hw2 Hw2ne Hw3 Hw3ne Hw4 Hw4ne Hq1 Hq2 Hq3 Hq4 Hpne Hpdot Hp Htne Ht
    Hpre Hpost line.
  enough (Hmain : exists m,
            exec COMMENT_OVERRIDE_REGEX line = Some m
            /\ group line m 1 = Some p /\ group line m 2 = Some token).
  { split; [exact Hmain|]. destruct Hmain as (m & He & _ & Hg).
    unfold getCommentStyleOverride. rewrite He. exact Hg. }
  set (mid := w3 +:+ "with" +:+ w4) in *.
  assert (Hmid : noQuote mid = true).
  { unfold mid, noQuote. rewrite !allChars_append.
    fold (noQuote w3) (noQuote w4).
    rewrite (ws_noQuote _ Hw3), (ws_noQuote _ Hw4). reflexivity. }
  destruct (exec COMMENT_OVERRIDE_REGEX line) as [m|] eqn:He.
  2: { exfalso. unfold exec, line in He. apply search_None in He.
       cbn [COMMENT_OVERRIDE_REGEX smatch] in He.
       assert (H1 : matches directiveHead (0 + String.length pre)
                      (keyword +:+ w2 +:+ String q1 EmptyString)
                      (p +:+ String q2 w3 +:+ "with" +:+ w4 +:+ String q3 token
                         +:+ String q4 post)).
       { unfold directiveHead.
         constructor; [apply matches_RLit_intro|].
         constructor; [apply matches_plus_intro; assumption|].
         constructor. exact Hq1. }
       assert (S1 : keyword +:+ w2 +:+ String q1 p +:+ String q2 w3 +:+ "with" +:+ w4
                      +:+ String q3 token +:+ String q4 post
                    = (keyword +:+ w2 +:+ String q1 EmptyString)
                      +:+ p +:+ String q2 w3 +:+ "with" +:+ w4 +:+ String q3 token
                      +:+ String q4 post)
         by (rewrite !append_assoc; reflexivity).
       pose proof (rmatch_complete _ _ _ _ He _ _ S1 H1) as He2.
       cbv beta in He2.
       match type of He2 with
       | rmatch _ ?pos _ _ = None =>
           assert (H2 : matches (RPlus true dot) pos p
                          (String q2 w3 +:+ "with" +:+ w4 +:+ String q3 token
                             +:+ String q4 post))
             by (apply matches_plus_intro; assumption)
       end.
       pose proof (rmatch_complete _ _ _ _ He2 _ _ eq_refl H2) as He3.
       cbv beta in He3.
       match type of He3 with
       | rmatch _ ?pos _ _ = None =>
           assert (H3 : matches
                          (RSeq quote (RSeq (RPlus false ws)
                             (RSeq (RLit "with") (RSeq (RPlus false ws) quote))))
                          pos
                          (String q2 EmptyString +:+ w3 +:+ "with" +:+ w4
                             +:+ String q3 EmptyString)
                          (token +:+ String q4 post))
       end.
       { constructor; [constructor; exact Hq2|].
         constructor; [apply matches_plus_intro; assumption|].
         constructor; [apply matches_RLit_intro|].
         constructor; [apply matches_plus_intro; assumption|].
         constructor. exact Hq3. }
       assert (S3 : String q2 w3 +:+ "with" +:+ w4 +:+ String q3 token
                      +:+ String q4 post
                    = (String q2 EmptyString +:+ w3 +:+ "with" +:+ w4
                       +:+ String q3 EmptyString)
                      +:+ token +:+ String q4 post)
         by (rewrite !append_assoc; reflexivity).
       pose proof (rmatch_complete _ _ _ _ He3 _ _ S3 H3) as He4.
       cbv beta in He4.
       match type of He4 with
       | rmatch _ ?pos _ _ = None =>
           assert (H4 : matches (RPlus false nonquote) pos token (String q4 post))
             by (apply matches_plus_intro; assumption)
       end.
       pose proof (rmatch_complete _ _ _ _ He4 _ _ eq_refl H4) as He5.
       cbv beta in He5. simpl in He5. rewrite Hq4 in He5. discriminate. }
  exists m. split; [reflexivity|].
  unfold exec in He.
  destruct (NeutralizeProperties.search_sound _ _ _ _ He)
    as (pre' & s' & Hline & Hstart & Hm).
  cbn [COMMENT_OVERRIDE_REGEX smatch] in Hm. simpl in Hstart.
  apply rmatch_sound in Hm as (s1 & r1 & -> & Hs1 & Hm).
  apply rmatch_sound in Hm as (g & r2 & -> & Hg & Hm).
  apply rmatch_sound in Hm as (s3 & r3 & -> & Hs3 & Hm).
  apply rmatch_sound in Hm as (t & r4 & -> & Htk & Hm).
  apply rmatch_sound in Hm as (s5 & r5 & -> & Hs5 & Hm).
  injection Hm as Hend Hgroups.
  unfold directiveHead in Hs1.
  apply NeutralizeProperties.matches_RSeq_inv in Hs1 as (wk & x1 & -> & Hwk & Hs1).
  apply matches_RLit in Hwk. subst wk.
  apply NeutralizeProperties.matches_RSeq_inv in Hs1 as (wb & x2 & -> & Hwb & Hs1).
  apply matches_plus_chars in Hwb as [_ Hwb].
  apply NeutralizeProperties.matches_RChar_inv in Hs1 as (qa & -> & Hqa).
  apply NeutralizeProperties.matches_RSeq_inv in Hs3 as (x3 & x4 & -> & Hqb & Hs3).
  apply NeutralizeProperties.matches_RChar_inv in Hqb as (qb & -> & Hqb).
  apply NeutralizeProperties.matches_RSeq_inv in Hs3 as (wc & x5 & -> & Hwc & Hs3).
  apply matches_plus_chars in Hwc as [_ Hwc].
  apply NeutralizeProperties.matches_RSeq_inv in Hs3 as (ww & x6 & -> & Hww & Hs3).
  apply matches_RLit in Hww. subst ww.
  apply NeutralizeProperties.matches_RSeq_inv in Hs3 as (wd & x7 & -> & Hwd & Hs3).
  apply matches_plus_chars in Hwd as [_ Hwd].
  apply NeutralizeProperties.matches_RChar_inv in Hs3 as (qc & -> & Hqc).
  apply matches_nonquote_noQuote in Htk as [_ Htq].
  apply NeutralizeProperties.matches_RChar_inv in Hs5 as (qd & -> & Hqd).
  set (seg1 := keyword +:+ wb +:+ String qa EmptyString) in *.
  set (seg3 := String qb EmptyString +:+ wc +:+ "with" +:+ wd
               +:+ String qc EmptyString) in *.
  assert (Hg1 : group line m 1 = Some g).
  { unfold group. rewrite <- Hgroups.
    remember (String.length seg1) as n1 eqn:Hn1.
    remember (String.length seg3) as n3 eqn:Hn3.
    simpl. subst n1 n3. f_equal. rewrite Hline, Hstart.
    replace (String.length pre' + String.length seg1)
      with (String.length (pre' +:+ seg1)) by apply length_append.
    rewrite <- (append_assoc pre' seg1).
    apply NeutralizeProperties.slice_middle. }
  assert (Hg2 : group line m 2 = Some t).
  { unfold group. rewrite <- Hgroups.
    remember (String.length seg1) as n1 eqn:Hn1.
    remember (String.length seg3) as n3 eqn:Hn3.
    simpl. subst n1 n3. f_equal. rewrite Hline, Hstart.
    replace (String.length pre' + String.length seg1 + String.length g
             + String.length seg3)
      with (String.length (pre' +:+ seg1 +:+ g +:+ seg3))
      by (rewrite !length_append; lia).
    replace (pre' +:+ seg1 +:+ g +:+ seg3 +:+ t +:+ String qd EmptyString +:+ r5)
      with ((pre' +:+ seg1 +:+ g +:+ seg3) +:+ t +:+ String qd EmptyString +:+ r5)
      by (rewrite !append_assoc; reflexivity).
    apply NeutralizeProperties.slice_middle. }
  rewrite Hg1, Hg2.
  (* the two readings of the line *)
  set (a := pre +:+ keyword +:+ w2).
  set (x := pre' +:+ keyword +:+ wb).
  set (mid' := wc +:+ "with" +:+ wd).
  assert (Ha : noQuote a = true).
  { unfold a, noQuote. rewrite !allChars_append. fold (noQuote pre) (noQuote w2).
    rewrite Hpre, (ws_noQuote _ Hw2). reflexivity. }
  assert (Hmid' : noQuote mid' = true).
  { unfold mid', noQuote. rewrite !allChars_append.
    fold (noQuote wc) (noQuote wd).
    rewrite (ws_noQuote _ Hwc), (ws_noQuote _ Hwd). reflexivity. }
  assert (Heq : a +:+ String q1 (p +:+ String q2 (mid +:+ String q3
                                   (token +:+ String q4 post)))
                = x +:+ String qa (g +:+ String qb (mid' +:+ String qc
                                     (t +:+ String qd r5)))).
  { transitivity line.
    - unfold a, mid, line. rewrite !append_assoc. reflexivity.
    - rewrite Hline. unfold x, mid', seg1, seg3. rewrite !append_assoc.
      reflexivity. }
  clear Hline Hg1 Hg2 Hgroups Hend He Hstart Hg.
  clearbody a x mid mid'.
  destruct (quote_split _ _ _ _ _ _ Ha Hqa Heq) as [(_ & _ & E1)|(y1 & _ & E1)].
  - (* the opening quotes agree *)
    symmetry in E1.
    destruct (quote_split _ _ _ _ _ _ Hp Hqb E1) as [(-> & _ & E2)|(y2 & _ & E2)].
    + symmetry in E2.
      destruct (quote_split _ _ _ _ _ _ Hmid Hqc E2) as [(_ & _ & E3)|(y3 & E3 & _)].
      * symmetry in E3.
        destruct (quote_split _ _ _ _ _ _ Ht Hqd E3) as [(-> & _)|(y4 & E4 & _)];
          [split; reflexivity|quote_clash].
      * quote_clash.
    + destruct (quote_split _ _ _ _ _ _ Hmid Hqb E2) as [(_ & _ & E3)|(y3 & _ & E3)].
      * symmetry in E3.
        destruct (quote_split _ _ _ _ _ _ Ht Hqc E3) as [(_ & _ & E4)|(y4 & E4 & _)];
          quote_clash.
      * destruct (quote_split _ _ _ _ _ _ Ht Hqb E3) as [(_ & _ & E4)|(y4 & _ & E4)];
          quote_clash.
  - destruct (quote_split _ _ _ _ _ _ Hp Hqa E1) as [(_ & _ & E2)|(y2 & _ & E2)].
    + symmetry in E2.
      destruct (quote_split _ _ _ _ _ _ Hmid Hqb E2) as [(_ & _ & E3)|(y3 & _ & E3)].
      * symmetry in E3.
        destruct (quote_split _ _ _ _ _ _ Ht Hqc E3) as [(_ & _ & E4)|(y4 & E4 & _)];
          quote_clash.
      * destruct (quote_split _ _ _ _ _ _ Ht Hqb E3) as [(_ & _ & E4)|(y4 & _ & E4)];
          quote_clash.
    + destruct (quote_split _ _ _ _ _ _ Hmid Hqa E2) as [(_ & _ & E3)|(y3 & _ & E3)].
      * symmetry in E3.
        destruct (quote_split _ _ _ _ _ _ Ht Hqb E3) as [(_ & _ & E4)|(y4 & _ & E4)];
          quote_clash.
      * destruct (quote_split _ _ _ _ _ _ Ht Hqa E3) as [(_ & _ & E4)|(y4 & _ & E4)];
          quote_clash.
Qed.

Lemma inline_override_read_back_witness :
  getCommentStyleOverride "-- virtualInclude 'a.lua' with '--'" = Some "--".
Proof.
  pose proof (inline_override_read_back "-- " " " "'"%char "a.lua" "'"%char
                " " " " "'"%char "--" "'"%char EmptyString
                eq_refl ltac:(discriminate) eq_refl ltac:(discriminate)
                eq_refl ltac:(discriminate) eq_refl eq_refl eq_refl eq_refl
                ltac:(discriminate) eq_refl eq_refl ltac:(discriminate) eq_refl
                eq_refl eq_refl) as H.
  exact (proj2 H).
Defined.

End OverrideProperties.
